(** * Multi-agent orchestration: a shallow embedding of the core

    The development follows the Python sources under
    [hooks/multi-agent]: the orchestration engine
    ([core/orchestration_engine.py]), the feature and design evaluators
    ([evaluators/feat_evaluator.py], [evaluators/design_evaluator.py]),
    the agent registry ([core/agent_registry.py]) and the selection step
    of the feature workflow ([workflows/feat_workflow.py]).

    Modelling conventions.
    - Python [str] is [string]; only the ASCII range has case and
      whitespace structure, every other character is opaque.
    - Python [float] scores are exact rationals ([Q]); thresholds and
      weights are the decimal literals of the source.
    - A Python exception is a value of [PyException]; a call that can
      raise returns an [Outcome].
    - A [dict] is an association list in insertion order.
    - The operating system and the external worker are an oracle that is
      passed in explicitly; files, clock and process events are threaded
      through a [World] value. *)

From Stdlib Require Import List String Ascii Bool Arith ZArith QArith Qminmax Lia Lqa.
From Stdlib Require Import Permutation Sorted.
Import ListNotations.

Open Scope string_scope.
Open Scope nat_scope.

(** ** Python values shared by all modules *)

Inductive ExcKind :=
| TypeError | OSError | TimeoutError | IndexError | RuntimeError | KeyError
| NotImplementedError.

Record PyException := mkExc { exc_kind : ExcKind; exc_msg : string }.

(** [str(e)] *)
Definition str_of_exc (e : PyException) : string := exc_msg e.

Inductive Outcome (A : Type) :=
| Returns (a : A)
| Raises (e : PyException).
Arguments Returns {A} a.
Arguments Raises {A} e.

Definition bind {A B} (m : Outcome A) (k : A -> Outcome B) : Outcome B :=
  match m with
  | Returns a => k a
  | Raises e => Raises e
  end.

Notation "x <- m ;; k" := (bind m (fun x => k))
  (at level 61, m at next level, right associativity).

Definition Qlt_bool (x y : Q) : bool := negb (Qle_bool y x).

(** The values stored in metadata dictionaries. *)
Inductive MetaValue :=
| MNone
| MInt (z : Z)
| MFloat (q : Q)
| MStr (s : string)
| MStrs (l : list string).

(** ** Python string operations *)

Module PyStr.

Definition code (c : ascii) : nat := nat_of_ascii c.

(** [str.isspace] on the ASCII range: TAB..CR, FS..US and SPACE. *)
Definition is_space (c : ascii) : bool :=
  ((9 <=? code c) && (code c <=? 13)) || ((28 <=? code c) && (code c <=? 32)).

Definition is_newline (c : ascii) : bool := Ascii.eqb c "010"%char.

Definition is_digit (c : ascii) : bool := (48 <=? code c) && (code c <=? 57).

Definition lower_char (c : ascii) : ascii :=
  if (65 <=? code c) && (code c <=? 90) then ascii_of_nat (code c + 32) else c.

Definition upper_char (c : ascii) : ascii :=
  if (97 <=? code c) && (code c <=? 122) then ascii_of_nat (code c - 32) else c.

Fixpoint map_chars (f : ascii -> ascii) (s : string) : string :=
  match s with
  | EmptyString => EmptyString
  | String c s' => String (f c) (map_chars f s')
  end.

Definition lower : string -> string := map_chars lower_char.
Definition upper : string -> string := map_chars upper_char.

Fixpoint lstrip (s : string) : string :=
  match s with
  | EmptyString => EmptyString
  | String c s' => if is_space c then lstrip s' else s
  end.

Fixpoint rstrip (s : string) : string :=
  match s with
  | EmptyString => EmptyString
  | String c s' =>
      match rstrip s' with
      | EmptyString => if is_space c then EmptyString else String c EmptyString
      | r => String c r
      end
  end.

Definition strip (s : string) : string := rstrip (lstrip s).

(** [sub in s] *)
Fixpoint contains (sub s : string) : bool :=
  match s with
  | EmptyString => String.prefix sub EmptyString
  | String _ s' => String.prefix sub s || contains sub s'
  end.

(** [any(t in s for t in terms)] *)
Definition any_in (terms : list string) (s : string) : bool :=
  existsb (fun t => contains t s) terms.

(** [sum(1 for t in terms if t in s)] *)
Definition count_in (terms : list string) (s : string) : nat :=
  List.length (filter (fun t => contains t s) terms).

(** [s.split(sep)] for a one-character separator. *)
Fixpoint split_on (sep : ascii) (s : string) : list string :=
  match s with
  | EmptyString => [EmptyString]
  | String c s' =>
      let r := split_on sep s' in
      if Ascii.eqb c sep then EmptyString :: r
      else match r with
           | h :: t => String c h :: t
           | [] => [String c EmptyString]
           end
  end.

(** [s.split()]: maximal runs of non-whitespace characters.  The flag
    tells whether the first word of the result starts at position 0. *)
Fixpoint split_ws_aux (s : string) : bool * list string :=
  match s with
  | EmptyString => (false, [])
  | String c s' =>
      let '(adj, r) := split_ws_aux s' in
      if is_space c then (false, r)
      else (true, match adj, r with
                  | true, h :: t => String c h :: t
                  | _, _ => String c EmptyString :: r
                  end)
  end.

Definition split_ws (s : string) : list string := snd (split_ws_aux s).

(** [sep.join(l)] *)
Definition join (sep : string) (l : list string) : string := String.concat sep l.

(** Decimal rendering of an integer, as [str(n)] and [f"{n}"] give it. *)
Fixpoint digits_of_pos_aux (fuel : nat) (n : nat) (acc : string) : string :=
  match fuel with
  | O => acc
  | S f =>
      let d := String (ascii_of_nat (48 + n mod 10)) acc in
      if n / 10 =? 0 then d else digits_of_pos_aux f (n / 10) d
  end.

Definition str_of_nat (n : nat) : string := digits_of_pos_aux (S n) n EmptyString.

Definition str_of_Z (z : Z) : string :=
  match z with
  | Zneg _ => "-" ++ str_of_nat (Z.to_nat (Z.opp z))
  | _ => str_of_nat (Z.to_nat z)
  end.

End PyStr.

(** ** The regular expressions of the evaluators

    Each pattern of the source is modelled by a matcher specialised to
    it, following Python's [re] semantics with [re.MULTILINE]: [^]
    matches at position 0 and right after a newline, [$] at the end and
    right before a newline, [.] matches anything but a newline, [\s]
    matches newlines too, and repetitions are greedy with backtracking. *)

Module Regex.
Import PyStr.

Definition is_hash (c : ascii) : bool := Ascii.eqb c "#"%char.

(** Longest prefix whose characters satisfy [p], and the remainder. *)
Fixpoint span (p : ascii -> bool) (s : string) : string * string :=
  match s with
  | EmptyString => (EmptyString, EmptyString)
  | String c s' =>
      if p c then let '(a, b) := span p s' in (String c a, b)
      else (EmptyString, s)
  end.

(** The position right after the next newline (next line start). *)
Fixpoint skip_line (s : string) : string :=
  match s with
  | EmptyString => EmptyString
  | String c s' => if is_newline c then s' else skip_line s'
  end.

(** Backtracking of [\s+] at the end of the text: the last character of
    the whitespace run that [.] accepts, with what follows it. *)
Fixpoint last_dot (ws : string) : option (ascii * string) :=
  match ws with
  | EmptyString => None
  | String c ws' =>
      match last_dot ws' with
      | Some r => Some r
      | None => if is_newline c then None else Some (c, ws')
      end
  end.

(** [^(#+)\s+(.+)$] tried at a line start.  Returns group 1, group 2 and
    the text after the match. *)
Definition match_header (s : string) : option (string * string * string) :=
  let '(hashes, r1) := span is_hash s in
  match hashes with
  | EmptyString => None
  | _ =>
      let '(ws, r2) := span is_space r1 in
      match ws with
      | EmptyString => None
      | String _ ws' =>
          match r2 with
          | String _ _ =>
              let '(title, rest) := span (fun c => negb (is_newline c)) r2 in
              Some (hashes, title, rest)
          | EmptyString =>
              match last_dot ws' with
              | Some (c, rest) => Some (hashes, String c EmptyString, rest)
              | None => None
              end
          end
      end
  end.

(** [re.finditer(r'^(#+)\s+(.+)$', content, re.MULTILINE)]: the
    non-overlapping matches from left to right, as (group 1, group 2). *)
Fixpoint finditer_header (fuel : nat) (s : string) : list (string * string) :=
  match fuel with
  | O => []
  | S f =>
      match s with
      | EmptyString => []
      | _ =>
          match match_header s with
          | Some (h, t, rest) => (h, t) :: finditer_header f (skip_line rest)
          | None => finditer_header f (skip_line s)
          end
      end
  end.

Definition headers (content : string) : list (string * string) :=
  finditer_header (String.length content) content.

(** [re.sub(r'^[\d.]+\s*', '', title)] *)
Definition is_digit_or_dot (c : ascii) : bool := is_digit c || Ascii.eqb c "."%char.

Definition sub_numeric_prefix (title : string) : string :=
  let '(num, r) := span is_digit_or_dot title in
  match num with
  | EmptyString => title
  | _ => snd (span is_space r)
  end.

(** [^#+\s+] tried at a line start: the text after the match, and
    whether the match ended right after a newline. *)
Fixpoint ends_with_newline (s : string) : bool :=
  match s with
  | EmptyString => false
  | String c EmptyString => is_newline c
  | String _ s' => ends_with_newline s'
  end.

Definition match_header_prefix (s : string) : option (bool * string) :=
  let '(hashes, r1) := span is_hash s in
  match hashes with
  | EmptyString => None
  | _ =>
      let '(ws, r2) := span is_space r1 in
      match ws with
      | EmptyString => None
      | _ => Some (ends_with_newline ws, r2)
      end
  end.

(** [^[\s]*[-*+]\s+|^\s*\d+\.\s+] tried at a line start. *)
Definition is_bullet (c : ascii) : bool :=
  Ascii.eqb c "-"%char || Ascii.eqb c "*"%char || Ascii.eqb c "+"%char.

Definition match_list_item (s : string) : option (bool * string) :=
  let '(_, r1) := span is_space s in
  match r1 with
  | EmptyString => None
  | String c r2 =>
      if is_bullet c then
        let '(ws, r3) := span is_space r2 in
        match ws with
        | EmptyString => None
        | _ => Some (ends_with_newline ws, r3)
        end
      else
        let '(ds, r3) := span is_digit r1 in
        match ds, r3 with
        | String _ _, String d r4 =>
            if Ascii.eqb d "."%char then
              let '(ws, r5) := span is_space r4 in
              match ws with
              | EmptyString => None
              | _ => Some (ends_with_newline ws, r5)
              end
            else None
        | _, _ => None
        end
  end.

(** [len(re.findall(pattern, content, re.MULTILINE))] for a pattern
    anchored with [^]: [bol] tells whether the current position is a
    line start. *)
Fixpoint count_anchored (m : string -> option (bool * string))
         (fuel : nat) (bol : bool) (s : string) : nat :=
  match fuel with
  | O => O
  | S f =>
      match s with
      | EmptyString => O
      | String c s' =>
          if bol then
            match m s with
            | Some (bol', rest) => S (count_anchored m f bol' rest)
            | None => count_anchored m f (is_newline c) s'
            end
          else count_anchored m f (is_newline c) s'
      end
  end.

Definition count_header_prefixes (content : string) : nat :=
  count_anchored match_header_prefix (String.length content) true content.

Definition count_list_items (content : string) : nat :=
  count_anchored match_list_item (String.length content) true content.

End Regex.

(** ** Pieces shared by the evaluators *)

(** [list(set(a) - set(b))].  The elements are the distinct members of
    [a] that do not occur in [b]; the order in which Python iterates a
    set of strings depends on the interpreter's string hashing, so it is
    left to an instance. *)
Definition difference_elements (a b : list string) : list string :=
  nodup string_dec (filter (fun x => negb (existsb (String.eqb x) b)) a).

Class SetOrder := {
  list_of_difference : list string -> list string -> list string;
  list_of_difference_perm :
    forall a b, Permutation (list_of_difference a b) (difference_elements a b)
}.

(** One admissible order: first occurrence in the left operand. *)
#[export] Instance first_occurrence_order : SetOrder :=
  {| list_of_difference := difference_elements;
     list_of_difference_perm := fun a b => Permutation_refl _ |}.

(** The running [(score, strengths, weaknesses)] triple of a criterion. *)
Record Tally := mkTally {
  t_score : Q;
  t_strengths : list string;
  t_weaknesses : list string
}.

Definition tally (base : Q) : Tally := mkTally base [] [].

(** [score += d] *)
Definition add (d : Q) (t : Tally) : Tally :=
  mkTally (t_score t + d)%Q (t_strengths t) (t_weaknesses t).

(** [score -= d] *)
Definition sub (d : Q) (t : Tally) : Tally :=
  mkTally (t_score t - d)%Q (t_strengths t) (t_weaknesses t).

(** [strengths.append(msg)] *)
Definition strength (msg : string) (t : Tally) : Tally :=
  mkTally (t_score t) (t_strengths t ++ [msg])%list (t_weaknesses t).

(** [weaknesses.append(msg)] *)
Definition weakness (msg : string) (t : Tally) : Tally :=
  mkTally (t_score t) (t_strengths t) (t_weaknesses t ++ [msg])%list.

(** [max(0.0, min(1.0, score))] *)
Definition clamp01 (q : Q) : Q := Qmax 0 (Qmin 1 q).

Definition clamped (t : Tally) : Tally :=
  mkTally (clamp01 (t_score t)) (t_strengths t) (t_weaknesses t).

Definition Qnat (n : nat) : Q := inject_Z (Z.of_nat n).

(** [enumerate(l)] *)
Definition enumerate {A} (l : list A) : list (nat * A) :=
  combine (seq 0 (List.length l)) l.

(** A candidate dictionary as the workflows build it; a missing key is
    [None]. *)
Record Candidate := mkCandidate {
  c_agent_name : string;
  c_output : option string;
  c_content : option string;
  c_execution_time : Q;
  c_metadata : option (list (string * MetaValue))
}.

(** [candidate.get('output', candidate.get('content', ''))] *)
Definition candidate_text (c : Candidate) : string :=
  match c_output c with
  | Some o => o
  | None => match c_content c with
            | Some t => t
            | None => EmptyString
            end
  end.

(** Truth value of a string ([if content:]). *)
Definition truthy (s : string) : bool :=
  match s with
  | EmptyString => false
  | _ => true
  end.

(** [l.sort(key=key, reverse=True)]: descending by key, elements with
    equal keys keep their relative order. *)
Section StableSort.
Context {A : Type} (key : A -> Q).

Fixpoint insert_desc (x : A) (l : list A) : list A :=
  match l with
  | [] => [x]
  | y :: l' =>
      if Qlt_bool (key x) (key y) then y :: insert_desc x l'
      else x :: y :: l'
  end.

Definition sort_desc (l : list A) : list A := fold_right insert_desc [] l.
End StableSort.

Definition index_error : PyException := mkExc IndexError "list index out of range".

(** [l[0]] *)
Definition first_item {A} (l : list A) : Outcome A :=
  match l with
  | x :: _ => Returns x
  | [] => Raises index_error
  end.

(** ** evaluators/feat_evaluator.py *)

Module FeatEval.
Import PyStr Regex.

Record StructuralValidation := mkValidation {
  is_valid : bool;
  expected_sections : list string;
  found_sections : list string;
  missing_sections : list string;
  extra_sections : list string;
  structure_score : Q
}.

Record FeatScore := mkFeatScore {
  overall_score : Q;
  structural_integrity : Q;
  implementation_detail : Q;
  language_specificity : Q;
  technical_accuracy : Q;
  clarity : Q;
  feedback : string;
  strengths : list string;
  weaknesses : list string;
  structural_validation : StructuralValidation
}.

(** [self.weights] *)
Definition w_structural_integrity : Q := 0.30.
Definition w_implementation_detail : Q := 0.25.
Definition w_language_specificity : Q := 0.20.
Definition w_technical_accuracy : Q := 0.15.
Definition w_clarity : Q := 0.10.

(** The title normalisation used for found and expected sections. *)
Definition normalize_title (title : string) : string :=
  strip (lower (sub_numeric_prefix title)).

Definition extract_section_structure (content : string) : list string :=
  map (fun m => normalize_title (strip (snd m))) (headers content).

Section Evaluator.
Context {order : SetOrder}.

Definition validate_structure (feat_content : string)
           (expected : list string) : StructuralValidation :=
  let found := extract_section_structure feat_content in
  let missing := list_of_difference expected found in
  let extra := list_of_difference found expected in
  match expected with
  | [] => mkValidation true expected found missing extra 1.0
  | _ =>
      match missing, extra with
      | [], [] => mkValidation true expected found missing extra 1.0
      | _, _ =>
          let missing_penalty := (Qnat (List.length missing) * 0.3)%Q in
          let extra_penalty := (Qnat (List.length extra) * 0.1)%Q in
          let total_penalty := (missing_penalty + extra_penalty)%Q in
          mkValidation
            (List.length missing =? 0)
            expected found missing extra
            (Qmax 0.0 (1.0 - total_penalty / Qnat (List.length expected)))%Q
      end
  end.

Definition detail_indicators : list string :=
  ["function"; "method"; "class"; "struct"; "interface";
   "algorithm"; "data structure"; "parameter"; "return";
   "input"; "output"; "validation"; "error handling"].

Definition evaluate_implementation_detail (feat_content : string) : Tally :=
  let content_lower := lower feat_content in
  let t := tally 0.0 in
  let detail_count := count_in detail_indicators content_lower in
  let detail_score :=
    Qmin 1.0 (Qnat detail_count / Qnat (List.length detail_indicators))%Q in
  let t := add (detail_score * 0.4)%Q t in
  let t :=
    if Qle_bool 0.7 detail_score
    then strength "Rich implementation details and specificity" t
    else if Qle_bool 0.4 detail_score
    then strength "Good level of implementation detail" t
    else weakness "Lacks specific implementation details" t in
  let t :=
    if any_in ["```"; "```python"; "```go"; "```rust"] feat_content
    then add 0.2 (strength "Includes code examples" t)
    else if any_in ["pseudocode"; "example"; "sample"] content_lower
    then add 0.1 (strength "Provides implementation examples" t)
    else weakness "No code examples or pseudocode" t in
  let t :=
    if any_in ["flow"; "process"; "step"; "sequence"; "workflow"] content_lower
    then add 0.2 (strength "Describes implementation flow and processes" t)
    else weakness "Limited description of implementation flow" t in
  let t :=
    if any_in ["edge case"; "error"; "exception"; "failure"] content_lower
    then add 0.1 (strength "Addresses edge cases and error handling" t)
    else weakness "Missing edge case and error handling discussion" t in
  let t :=
    if any_in ["performance"; "optimization"; "efficiency"] content_lower
    then add 0.1 (strength "Includes performance considerations" t)
    else t in
  clamped t.

(** The three entries of [language_patterns]. *)
Record LanguagePatterns := mkPatterns {
  positive : list string;
  negative : list string;
  practices : list string
}.

Definition language_patterns (lang : string) : option LanguagePatterns :=
  if String.eqb lang "go" then
    Some (mkPatterns
            ["interface"; "struct"; "goroutine"; "channel"; "defer"; "panic"; "recover"]
            ["class"; "inheritance"; "exception"]
            ["composition"; "error handling"; "concurrency"])
  else if String.eqb lang "python" then
    Some (mkPatterns
            ["class"; "decorator"; "generator"; "context manager"; "list comprehension"]
            ["goto"; "multiple inheritance abuse"]
            ["pythonic"; "pep 8"; "duck typing"; "zen of python"])
  else if String.eqb lang "rust" then
    Some (mkPatterns
            ["ownership"; "borrowing"; "trait"; "enum"; "match"; "result"; "option"]
            ["garbage collection"; "null pointer"]
            ["memory safety"; "zero-cost abstraction"; "fearless concurrency"])
  else None.

(** [if not language] holds for [None] and for the empty string. *)
Definition evaluate_language_specificity (feat_content : string)
           (language : option string) : Tally :=
  let t := tally 0.5 in
  let content_lower := lower feat_content in
  match language with
  | None | Some EmptyString =>
      if any_in ["language-specific"; "idiom"; "convention"] content_lower
      then add 0.2 (strength "Mentions language-specific considerations" t)
      else t
  | Some language =>
      match language_patterns (lower language) with
      | Some patterns =>
          let positive_matches := count_in (positive patterns) content_lower in
          let t :=
            if Qle_bool (Qnat (List.length (positive patterns)) * 0.5)
                        (Qnat positive_matches)
            then add 0.3 (strength ("Strong use of " ++ language ++ "-specific patterns") t)
            else if 0 <? positive_matches
            then add 0.1 (strength ("Some " ++ language ++ "-specific patterns used") t)
            else sub 0.2 (weakness ("Limited use of " ++ language ++ "-specific patterns") t) in
          let negative_matches := count_in (negative patterns) content_lower in
          let t :=
            if 0 <? negative_matches
            then sub 0.2 (weakness ("Contains " ++ language ++ " anti-patterns") t)
            else t in
          let practice_matches := count_in (practices patterns) content_lower in
          let t :=
            if 0 <? practice_matches
            then add 0.2 (strength ("Incorporates " ++ language ++ " best practices") t)
            else t in
          clamped t
      | None =>
          let t :=
            if contains language content_lower
            then add 0.1 (strength ("Mentions " ++ language ++ " in context") t)
            else t in
          clamped t
      end
  end.

Definition evaluate_technical_accuracy (feat_content : string) : Tally :=
  let t := tally 0.5 in
  let content_lower := lower feat_content in
  let tech_mentions :=
    count_in ["algorithm"; "data structure"; "complexity"; "performance";
              "memory"; "cpu"; "network"; "database"; "api"; "protocol"]
             content_lower in
  let t :=
    if 5 <=? tech_mentions
    then add 0.3 (strength "Strong technical depth" t)
    else if 3 <=? tech_mentions
    then add 0.1 (strength "Good technical coverage" t)
    else sub 0.1 (weakness "Limited technical depth" t) in
  let t :=
    if any_in ["mvc"; "mvp"; "singleton"; "factory"; "observer"; "strategy"] content_lower
    then add 0.2 (strength "Uses established architecture patterns" t)
    else t in
  let t :=
    if any_in ["security"; "authentication"; "authorization"; "encryption"; "validation"]
              content_lower
    then add 0.1 (strength "Addresses security considerations" t)
    else weakness "Limited security discussion" t in
  let t :=
    if any_in ["scalable"; "maintainable"; "extensible"] content_lower
    then add 0.1 (strength "Considers scalability and maintainability" t)
    else t in
  let t :=
    if any_in ["test"; "testing"; "unit test"; "integration"] content_lower
    then add 0.2 (strength "Includes testing approach" t)
    else sub 0.1 (weakness "No testing methodology specified" t) in
  clamped t.

(** [sum(len(s.split()) for s in sentences)] *)
Definition total_words (sentences : list string) : nat :=
  fold_right (fun s n => List.length (split_ws s) + n) 0 sentences.

Definition evaluate_clarity (feat_content : string) : Tally :=
  let t := tally 0.5 in
  let header_count := count_header_prefixes feat_content in
  let t :=
    if 3 <=? header_count
    then add 0.2 (strength "Well-structured document" t)
    else if 1 <=? header_count
    then add 0.1 (strength "Basic document structure" t)
    else sub 0.2 (weakness "Poor document structure" t) in
  let list_count := count_list_items feat_content in
  let t :=
    if 5 <=? list_count
    then add 0.1 (strength "Good use of lists for organization" t)
    else t in
  let t :=
    if any_in ["specifically"; "namely"; "for example"; "in other words"; "that is"]
              (lower feat_content)
    then add 0.1 (strength "Uses clear explanatory language" t)
    else t in
  let sentences :=
    map strip (filter (fun s => truthy (strip s)) (split_on "."%char feat_content)) in
  let t :=
    match sentences with
    | [] => t
    | _ =>
        let avg_length := (Qnat (total_words sentences) / Qnat (List.length sentences))%Q in
        if Qle_bool 10 avg_length && Qle_bool avg_length 25
        then add 0.1 (strength "Good sentence length for readability" t)
        else if Qlt_bool 30 avg_length
        then sub 0.1 (weakness "Sentences may be too long" t)
        else t
    end in
  let t :=
    if any_in ["TODO"; "TBD"; "FIXME"] (upper feat_content)
    then sub 0.2 (weakness "Contains incomplete sections" t)
    else t in
  clamped t.

(** The [metadata] argument is accepted and never read. *)
Definition evaluate_feature {M : Type} (feat_content : string)
           (expected_structure : option (list string))
           (language : option string) (metadata : option M) : FeatScore :=
  let structural_validation :=
    validate_structure feat_content
      (match expected_structure with
       | Some l => l
       | None => []
       end) in
  let impl := evaluate_implementation_detail feat_content in
  let lang := evaluate_language_specificity feat_content language in
  let tech := evaluate_technical_accuracy feat_content in
  let clar := evaluate_clarity feat_content in
  let overall :=
    (structure_score structural_validation * w_structural_integrity +
     t_score impl * w_implementation_detail +
     t_score lang * w_language_specificity +
     t_score tech * w_technical_accuracy +
     t_score clar * w_clarity)%Q in
  let all_strengths :=
    (t_strengths impl ++ t_strengths lang ++ t_strengths tech ++ t_strengths clar)%list in
  let all_weaknesses :=
    (t_weaknesses impl ++ t_weaknesses lang ++ t_weaknesses tech ++ t_weaknesses clar)%list in
  let '(all_strengths, all_weaknesses) :=
    if is_valid structural_validation
    then ("Preserves required section structure" :: all_strengths, all_weaknesses)
    else (all_strengths,
          ("Missing required sections: "
             ++ join ", " (missing_sections structural_validation)) :: all_weaknesses) in
  let feedback :=
    if Qle_bool 0.8 overall
    then "Excellent feature specification with comprehensive implementation guidance"
    else if Qle_bool 0.6 overall
    then "Good feature specification ready for implementation"
    else if Qle_bool 0.4 overall
    then "Adequate specification but needs more detail"
    else "Specification requires significant improvements" in
  mkFeatScore overall
              (structure_score structural_validation)
              (t_score impl) (t_score lang) (t_score tech) (t_score clar)
              feedback all_strengths all_weaknesses structural_validation.

(** The loop of [rank_features] that scores the candidates with
    non-empty text. *)
Definition score_candidates (feature_candidates : list Candidate)
           (expected_structure : option (list string))
           (language : option string) : list (nat * FeatScore) :=
  flat_map
    (fun ic =>
       let content := candidate_text (snd ic) in
       if truthy content
       then [(fst ic, evaluate_feature content expected_structure language (Some (snd ic)))]
       else [])
    (enumerate feature_candidates).

Definition sort_key (item : nat * FeatScore) : Q :=
  let score := snd item in
  let structure_penalty :=
    if is_valid (structural_validation score) then 0%Q else (-1.0)%Q in
  (overall_score score + structure_penalty)%Q.

(** The log line is not modelled, only the evaluation of its arguments:
    [scored_features[0]] raises when nothing was scored. *)
Definition rank_features (feature_candidates : list Candidate)
           (expected_structure : option (list string))
           (language : option string) : Outcome (list (nat * FeatScore)) :=
  let scored_features :=
    sort_desc sort_key (score_candidates feature_candidates expected_structure language) in
  _ <- first_item scored_features ;;
  Returns scored_features.

End Evaluator.
End FeatEval.

(** ** evaluators/design_evaluator.py *)

Module DesignEval.
Import PyStr Regex.

Record EvaluationCriteria := mkCriteria {
  cr_language_idioms : Q;
  cr_architecture : Q;
  cr_implementability : Q;
  cr_completeness : Q;
  cr_innovation : Q;
  cr_documentation : Q
}.

(** [EvaluationCriteria()] *)
Definition default_criteria : EvaluationCriteria :=
  mkCriteria 0.25 0.25 0.20 0.15 0.10 0.05.

Record DesignScore := mkDesignScore {
  overall_score : Q;
  language_idioms : Q;
  architecture : Q;
  implementability : Q;
  completeness : Q;
  innovation : Q;
  documentation : Q;
  feedback : string;
  strengths : list string;
  weaknesses : list string
}.

Record LanguagePatterns := mkPatterns {
  patterns : list string;
  anti_patterns : list string;
  best_practices : list string
}.

(** [self.language_patterns] *)
Definition language_patterns (lang : string) : option LanguagePatterns :=
  if String.eqb lang "go" then
    Some (mkPatterns
            ["interface"; "struct"; "goroutine"; "channel"; "package"]
            ["inheritance"; "class"; "exception"]
            ["composition"; "small interfaces"; "error handling"; "concurrency"])
  else if String.eqb lang "python" then
    Some (mkPatterns
            ["class"; "decorator"; "context manager"; "generator"; "async/await"]
            ["global variables"; "deep inheritance"]
            ["PEP 8"; "type hints"; "virtual environments"; "docstrings"])
  else if String.eqb lang "rust" then
    Some (mkPatterns
            ["ownership"; "borrowing"; "trait"; "enum"; "match"]
            ["unsafe blocks without justification"; "clone() overuse"]
            ["zero-cost abstractions"; "memory safety"; "error handling"])
  else if String.eqb lang "javascript" then
    Some (mkPatterns
            ["promise"; "async/await"; "closure"; "prototype"; "module"]
            ["global pollution"; "callback hell"; "var usage"]
            ["ES6+"; "immutability"; "functional programming"; "testing"])
  else None.

Definition generic_language_idioms (design_content : string) : Tally :=
  let t := tally 0.5 in
  let t :=
    if any_in ["best practice"; "convention"; "standard"; "idiomatic"]
              (lower design_content)
    then add 0.2 (strength "Mentions best practices and conventions" t)
    else sub 0.1 (weakness "No mention of language-specific best practices" t) in
  clamped t.

Definition evaluate_language_idioms (design_content : string)
           (language : option string) : Tally :=
  match language with
  | None | Some EmptyString => generic_language_idioms design_content
  | Some language =>
      match language_patterns (lower language) with
      | None => generic_language_idioms design_content
      | Some lang_patterns =>
          let t := tally 0.5 in
          let content_lower := lower design_content in
          let pattern_matches := count_in (patterns lang_patterns) content_lower in
          let t :=
            if Qle_bool (Qnat (List.length (patterns lang_patterns)) * 0.7)
                        (Qnat pattern_matches)
            then add 0.3 (strength ("Strong use of " ++ language ++ " idioms and patterns") t)
            else if 0 <? pattern_matches
            then add 0.1 (strength ("Some use of " ++ language ++ " patterns") t)
            else sub 0.2 (weakness ("Limited use of " ++ language ++ "-specific patterns") t) in
          let anti_pattern_matches := count_in (anti_patterns lang_patterns) content_lower in
          let t :=
            if 0 <? anti_pattern_matches
            then sub 0.2 (weakness ("Contains " ++ language ++ " anti-patterns") t)
            else add 0.1 (strength ("Avoids common " ++ language ++ " anti-patterns") t) in
          let practice_matches := count_in (best_practices lang_patterns) content_lower in
          let t :=
            if Qle_bool (Qnat (List.length (best_practices lang_patterns)) * 0.5)
                        (Qnat practice_matches)
            then add 0.2 (strength ("Incorporates " ++ language ++ " best practices") t)
            else if 0 <? practice_matches
            then add 0.1 (strength ("Some " ++ language ++ " best practices mentioned") t)
            else sub 0.1 (weakness ("Limited discussion of " ++ language ++ " best practices") t) in
          clamped t
      end
  end.

Definition evaluate_architecture (design_content : string) : Tally :=
  let t := tally 0.5 in
  let content_lower := lower design_content in
  let component_mentions :=
    count_in ["component"; "module"; "service"; "layer"; "interface"] content_lower in
  let t :=
    if 3 <=? component_mentions
    then add 0.2 (strength "Well-defined architectural components" t)
    else if 0 <? component_mentions
    then add 0.1 (strength "Some architectural structure" t)
    else sub 0.2 (weakness "Unclear architectural structure" t) in
  let t :=
    if any_in ["scalability"; "scale"; "performance"; "load"; "concurrent"] content_lower
    then add 0.2 (strength "Addresses scalability concerns" t)
    else sub 0.1 (weakness "Limited scalability discussion" t) in
  let t :=
    if any_in ["data flow"; "communication"; "api"; "interface"] content_lower
    then add 0.15 (strength "Defines data flow and communication" t)
    else sub 0.15 (weakness "Unclear data flow and communication" t) in
  let t :=
    if any_in ["error"; "exception"; "failure"; "resilience"] content_lower
    then add 0.15 (strength "Considers error handling and resilience" t)
    else sub 0.1 (weakness "Limited error handling discussion" t) in
  let t :=
    if any_in ["separation"; "concern"; "responsibility"; "single"] content_lower
    then add 0.1 (strength "Good separation of concerns" t)
    else t in
  clamped t.

Definition evaluate_implementability (design_content : string) : Tally :=
  let t := tally 0.5 in
  let content_lower := lower design_content in
  let impl_mentions :=
    count_in ["implement"; "code"; "function"; "method"; "algorithm"] content_lower in
  let t :=
    if 3 <=? impl_mentions
    then add 0.3 (strength "Provides concrete implementation guidance" t)
    else if 0 <? impl_mentions
    then add 0.1 (strength "Some implementation details" t)
    else sub 0.2 (weakness "Lacks implementation details" t) in
  let t :=
    if any_in ["framework"; "library"; "database"; "technology"; "stack"] content_lower
    then add 0.2 (strength "Specifies technology choices" t)
    else sub 0.1 (weakness "Unclear technology stack" t) in
  let t :=
    if any_in ["simple"; "complex"; "easy"; "difficult"; "effort"] content_lower
    then add 0.1 (strength "Considers implementation complexity" t)
    else t in
  let t :=
    if any_in ["step"; "phase"; "stage"; "milestone"] content_lower
    then add 0.2 (strength "Provides implementation roadmap" t)
    else sub 0.1 (weakness "No clear implementation roadmap" t) in
  let t :=
    if any_in ["dependency"; "requirement"; "prerequisite"] content_lower
    then add 0.1 (strength "Identifies dependencies and requirements" t)
    else t in
  clamped t.

(** The keyword lists of [required_sections], in insertion order. *)
Definition required_sections : list (string * list string) :=
  [("overview", ["overview"; "introduction"; "summary"]);
   ("architecture", ["architecture"; "design"; "structure"]);
   ("components", ["component"; "module"; "service"]);
   ("data", ["data"; "model"; "schema"; "database"]);
   ("interfaces", ["interface"; "api"; "contract"]);
   ("deployment", ["deployment"; "infrastructure"; "environment"])].

Definition evaluate_completeness (design_content : string) : Tally :=
  let content_lower := lower design_content in
  let sections_found :=
    List.length (filter (fun kv => any_in (snd kv) content_lower) required_sections) in
  let completion_ratio :=
    (Qnat sections_found / Qnat (List.length required_sections))%Q in
  let t := tally completion_ratio in
  let t :=
    if Qle_bool 0.8 completion_ratio
    then strength "Comprehensive coverage of all major areas" t
    else if Qle_bool 0.6 completion_ratio
    then strength "Good coverage of most areas" t
    else if Qle_bool 0.4 completion_ratio
    then weakness "Missing some important architectural aspects"
                  (strength "Basic coverage of key areas" t)
    else weakness "Incomplete architectural coverage" t in
  let word_count := List.length (split_ws design_content) in
  let t :=
    if 1000 <=? word_count
    then add 0.1 (strength "Detailed and thorough documentation" t)
    else if 500 <=? word_count
    then strength "Adequate level of detail" t
    else sub 0.1 (weakness "Lacks sufficient detail" t) in
  clamped t.

Definition evaluate_innovation (design_content : string) : Tally :=
  let t := tally 0.5 in
  let content_lower := lower design_content in
  let t :=
    if any_in ["innovative"; "novel"; "creative"; "elegant"; "unique"] content_lower
    then add 0.2 (strength "Demonstrates innovative thinking" t)
    else t in
  let t :=
    if any_in ["modern"; "contemporary"; "latest"; "current"; "state-of-the-art"] content_lower
    then add 0.1 (strength "Uses modern approaches" t)
    else t in
  let t :=
    if any_in ["optimize"; "efficient"; "performance"; "fast"; "lightweight"] content_lower
    then add 0.2 (strength "Focuses on optimization and efficiency" t)
    else t in
  let t :=
    if any_in ["extensible"; "flexible"; "modular"; "configurable"; "pluggable"] content_lower
    then add 0.2 (strength "Designed for extensibility" t)
    else t in
  let t :=
    if any_in ["complicated"; "convoluted"; "over-engineered"; "complex"] content_lower
    then sub 0.1 (weakness "May be overly complex" t)
    else t in
  clamped t.

Definition total_words (sentences : list string) : nat :=
  fold_right (fun s n => List.length (split_ws s) + n) 0 sentences.

Definition evaluate_documentation (design_content : string) : Tally :=
  let t := tally 0.5 in
  let header_count := count_header_prefixes design_content in
  let t :=
    if 5 <=? header_count
    then add 0.2 (strength "Well-structured with clear sections" t)
    else if 3 <=? header_count
    then add 0.1 (strength "Good document structure" t)
    else sub 0.2 (weakness "Poor document structure" t) in
  let t :=
    if any_in ["diagram"; "figure"; "chart"; "visual"] (lower design_content)
    then add 0.2 (strength "Includes visual documentation" t)
    else t in
  let t :=
    if any_in ["example"; "use case"; "scenario"] (lower design_content)
    then add 0.2 (strength "Provides examples and use cases" t)
    else t in
  let sentences := split_on "."%char design_content in
  let avg_sentence_length :=
    match sentences with
    | [] => 0%Q
    | _ => (Qnat (total_words sentences) / Qnat (List.length sentences))%Q
    end in
  let t :=
    if Qle_bool 10 avg_sentence_length && Qle_bool avg_sentence_length 25
    then add 0.1 (strength "Clear and readable writing style" t)
    else if Qlt_bool 30 avg_sentence_length
    then sub 0.1 (weakness "Sentences may be too long and complex" t)
    else t in
  let t :=
    if contains "TODO" design_content || contains "TBD" design_content
    then sub 0.2 (weakness "Contains incomplete sections" t)
    else t in
  clamped t.

(** The evaluator object: its criteria are fixed at construction. *)
Section Evaluator.
Variable criteria : EvaluationCriteria.

Definition evaluate_design {M : Type} (design_content : string)
           (language : option string) (metadata : option M) : DesignScore :=
  let lang := evaluate_language_idioms design_content language in
  let arch := evaluate_architecture design_content in
  let impl := evaluate_implementability design_content in
  let comp := evaluate_completeness design_content in
  let innov := evaluate_innovation design_content in
  let doc := evaluate_documentation design_content in
  let overall :=
    (t_score lang * cr_language_idioms criteria +
     t_score arch * cr_architecture criteria +
     t_score impl * cr_implementability criteria +
     t_score comp * cr_completeness criteria +
     t_score innov * cr_innovation criteria +
     t_score doc * cr_documentation criteria)%Q in
  let all_strengths :=
    (t_strengths lang ++ t_strengths arch ++ t_strengths impl ++
     t_strengths comp ++ t_strengths innov ++ t_strengths doc)%list in
  let all_weaknesses :=
    (t_weaknesses lang ++ t_weaknesses arch ++ t_weaknesses impl ++
     t_weaknesses comp ++ t_weaknesses innov ++ t_weaknesses doc)%list in
  let feedback :=
    if Qle_bool 0.8 overall
    then "Excellent design with strong architectural foundation"
    else if Qle_bool 0.6 overall
    then "Good design with solid implementation potential"
    else if Qle_bool 0.4 overall
    then "Adequate design but needs improvements"
    else "Design requires significant improvements" in
  mkDesignScore overall (t_score lang) (t_score arch) (t_score impl)
                (t_score comp) (t_score innov) (t_score doc)
                feedback all_strengths all_weaknesses.

Definition score_candidates (design_candidates : list Candidate)
           (language : option string) : list (nat * DesignScore) :=
  flat_map
    (fun ic =>
       let content := candidate_text (snd ic) in
       if truthy content
       then [(fst ic, evaluate_design content language (Some (snd ic)))]
       else [])
    (enumerate design_candidates).

(** As in [rank_features], the log line reads [scored_designs[0]]. *)
Definition rank_designs (design_candidates : list Candidate)
           (language : option string) : Outcome (list (nat * DesignScore)) :=
  let scored_designs :=
    sort_desc (fun x => overall_score (snd x)) (score_candidates design_candidates language) in
  _ <- first_item scored_designs ;;
  Returns scored_designs.

End Evaluator.
End DesignEval.

(** ** core/orchestration_engine.py *)

Module Engine.
Import PyStr.

Record AgentTask := mkTask {
  agent_name : string;
  prompt : string;
  task_id : string;
  timeout : Z;
  input_files : option (list (string * string));
  expected_outputs : option (list string)
}.

Record AgentResult := mkResult {
  r_agent_name : string;
  r_task_id : string;
  success : bool;
  output : string;
  error : option string;
  execution_time : Q;
  output_files : option (list (string * string));
  metadata : option (list (string * MetaValue))
}.

Record OrchestrationResult := mkOrchestration {
  o_task_type : string;
  o_success : bool;
  o_selected_result : option AgentResult;
  o_all_results : option (list AgentResult);
  o_execution_time : Q;
  o_metadata : option (list (string * MetaValue))
}.

(** *** The engine object and the operating system around it *)

(** What [read_text(encoding='utf-8')] does on a file: it returns the
    text, raises [UnicodeDecodeError] or [PermissionError], or raises
    something else. *)
Inductive FileData :=
| Text (content : string)
| Undecodable
| Unreadable
| Broken (e : PyException).

Inductive Event :=
| Spawn (cmd : list string) (cwd : string)
| Kill (tid : string)
| Terminate (tid : string).

Record Process := mkProcess {
  returncode : option Z;
  ignores_terminate : bool
}.

Record State := mkState {
  (* the engine object *)
  temp_dir : option string;
  active_processes : list (string * Process);
  execution_timeout_seconds : Z;
  (* the operating system *)
  dirs : list string;
  files : list ((string * string) * FileData);
  events : list Event;
  clock : nat -> Q;
  clock_reads : nat
}.

(** A method of the engine: it reads and updates the state and either
    returns or raises. *)
Definition Action (A : Type) : Type := State -> Outcome A * State.

Definition ret {A} (a : A) : Action A := fun s => (Returns a, s).

Definition raise {A} (e : PyException) : Action A := fun s => (Raises e, s).

Definition abind {A B} (m : Action A) (k : A -> Action B) : Action B :=
  fun s =>
    match m s with
    | (Returns a, s') => k a s'
    | (Raises e, s') => (Raises e, s')
    end.

Notation "x <~ m ;; k" := (abind m (fun x => k))
  (at level 61, m at next level, right associativity).
Notation "' pat <~ m ;; k" := (abind m (fun x => match x with pat => k end))
  (at level 61, pat pattern, m at next level, right associativity).
Notation "m ;;; k" := (abind m (fun _ => k))
  (at level 61, right associativity).

(** [try: m except Exception as e: h e] *)
Definition try_except {A} (m : Action A) (h : PyException -> Action A) : Action A :=
  fun s =>
    match m s with
    | (Raises e, s') => h e s'
    | r => r
    end.

(** [try: m finally: f] *)
Definition try_finally {A} (m : Action A) (f : Action unit) : Action A :=
  fun s =>
    let '(r, s') := m s in
    match f s' with
    | (Returns _, s'') => (r, s'')
    | (Raises e, s'') => (Raises e, s'')
    end.

Definition get {A} (f : State -> A) : Action A := fun s => (Returns (f s), s).

Definition modify (f : State -> State) : Action unit := fun s => (Returns tt, f s).

(** [time.time()] *)
Definition time_time : Action Q :=
  fun s =>
    (Returns (clock s (clock_reads s)),
     mkState (temp_dir s) (active_processes s) (execution_timeout_seconds s)
             (dirs s) (files s) (events s) (clock s) (S (clock_reads s))).

(** [int(x)] truncates toward zero. *)
Definition int_of_Q (q : Q) : Z := Z.quot (Qnum q) (Zpos (Qden q)).

Definition set_temp_dir (t : option string) (s : State) : State :=
  mkState t (active_processes s) (execution_timeout_seconds s)
          (dirs s) (files s) (events s) (clock s) (clock_reads s).

Definition set_active (a : list (string * Process)) (s : State) : State :=
  mkState (temp_dir s) a (execution_timeout_seconds s)
          (dirs s) (files s) (events s) (clock s) (clock_reads s).

Definition set_dirs (d : list string) (s : State) : State :=
  mkState (temp_dir s) (active_processes s) (execution_timeout_seconds s)
          d (files s) (events s) (clock s) (clock_reads s).

Definition set_files (f : list ((string * string) * FileData)) (s : State) : State :=
  mkState (temp_dir s) (active_processes s) (execution_timeout_seconds s)
          (dirs s) f (events s) (clock s) (clock_reads s).

Definition emit (e : Event) (s : State) : State :=
  mkState (temp_dir s) (active_processes s) (execution_timeout_seconds s)
          (dirs s) (files s) (events s ++ [e])%list (clock s) (clock_reads s).

Definition dir_exists (d : string) (s : State) : bool :=
  existsb (String.eqb d) (dirs s).

Definition same_path (a b : string * string) : bool :=
  String.eqb (fst a) (fst b) && String.eqb (snd a) (snd b).

Definition file_exists (d name : string) (s : State) : bool :=
  existsb (fun f => same_path (fst f) (d, name)) (files s).

(** Storing a file replaces an older one at the same path. *)
Definition store_file (d name : string) (data : FileData) (s : State) : State :=
  set_files
    (filter (fun f => negb (same_path (fst f) (d, name))) (files s)
       ++ [((d, name), data)])%list s.

(** [dict[k] = v] and [dict.pop(k, None)] on the process table. *)
Definition table_remove (k : string) (t : list (string * Process)) :=
  filter (fun kv => negb (String.eqb (fst kv) k)) t.

Definition table_set (k : string) (p : Process) (t : list (string * Process)) :=
  match find (fun kv => String.eqb (fst kv) k) t with
  | Some _ => map (fun kv => if String.eqb (fst kv) k then (k, p) else kv) t
  | None => (t ++ [(k, p)])%list
  end.

(** *** The worker and the file system as an oracle *)

Inductive Communicate :=
| Completed (stdout stderr : string) (code : Z) (written : list (string * FileData))
| TimedOut
| CommFailed (e : PyException).

(** What the environment does during one call of the sandbox.
    - [mkdir_fault]: the exception of [task_dir.mkdir], if it raises;
    - [write_fault name]: the exception of writing the file [name];
    - [spawn_fault]: the exception of [create_subprocess_exec];
    - [communicate]: how [wait_for(process.communicate(), timeout)]
      ends, with the decoded streams, the exit code and the files the
      worker wrote into its working directory;
    - [scan_fault]: the exception of walking the directory. *)
Record Behaviour := mkBehaviour {
  mkdir_fault : option PyException;
  write_fault : string -> option PyException;
  spawn_fault : option PyException;
  communicate : Communicate;
  scan_fault : option PyException
}.

Definition is_some {A} (o : option A) : bool :=
  match o with
  | Some _ => true
  | None => false
  end.

(** [Path(a) / b], for a plain relative name [b]. *)
Definition path_join (a b : string) : string := a ++ "/" ++ b.

Definition may_raise (f : option PyException) : Action unit :=
  match f with
  | Some e => raise e
  | None => ret tt
  end.

Definition mkdir_exist_ok (b : Behaviour) (d : string) : Action unit :=
  may_raise (mkdir_fault b) ;;;
  modify (fun s => if dir_exists d s then s else set_dirs (dirs s ++ [d])%list s).

Definition write_text (b : Behaviour) (d name content : string) : Action unit :=
  may_raise (write_fault b name) ;;;
  modify (store_file d name (Text content)).

Fixpoint write_all (b : Behaviour) (d : string) (l : list (string * string)) : Action unit :=
  match l with
  | [] => ret tt
  | (filename, content) :: l' => write_text b d filename content ;;; write_all b d l'
  end.

Definition none_type_path : PyException :=
  mkExc TypeError "expected str, bytes or os.PathLike object, not NoneType".

(** [if task.input_files: for filename, content in ...: write] *)
Definition write_inputs (task : AgentTask) (b : Behaviour) (task_dir : string)
  : Action unit :=
  match input_files task with
  | Some ((f :: l) as inputs) => write_all b task_dir inputs
  | _ => ret tt
  end.

Definition _create_task_workspace (task : AgentTask) (b : Behaviour) : Action string :=
  td <~ get temp_dir ;;
  match td with
  | None => raise none_type_path
  | Some td =>
      let task_dir := path_join td (task_id task) in
      mkdir_exist_ok b task_dir ;;;
      write_inputs task b task_dir ;;;
      write_text b task_dir "prompt.txt" (prompt task) ;;;
      ret task_dir
  end.

(** [file_path.name] *)
Definition basename (rel : string) : string := last (split_on "/"%char rel) EmptyString.

(** The loop that fills [output_files]. *)
Fixpoint collect_output_files (l : list (string * FileData))
  : Outcome (list (string * string)) :=
  match l with
  | [] => Returns []
  | (rel, data) :: l' =>
      if String.eqb (basename rel) "prompt.txt" then collect_output_files l'
      else
        match data with
        | Text content =>
            rest <- collect_output_files l' ;;
            Returns ((rel, content) :: rest)
        | Undecodable | Unreadable => collect_output_files l'
        | Broken e => Raises e
        end
  end.

(** The files below [d], with their paths relative to [d]. *)
Definition files_under (d : string) (s : State) : list (string * FileData) :=
  flat_map
    (fun f => if String.eqb (fst (fst f)) d then [(snd (fst f), snd f)] else [])
    (files s).

Fixpoint store_all (d : string) (l : list (string * FileData)) (s : State) : State :=
  match l with
  | [] => s
  | (name, data) :: l' => store_all d l' (store_file d name data s)
  end.

Definition timeout_error (task : AgentTask) : PyException :=
  mkExc TimeoutError
        ("Task " ++ task_id task ++ " timed out after "
                 ++ str_of_Z (timeout task) ++ " seconds").

(** [await asyncio.wait_for(process.communicate(), timeout=task.timeout)]
    with its [except asyncio.TimeoutError] and [finally] clauses.
    Returns the streams and the exit code. *)
Definition communicate_with_timeout (task : AgentTask) (b : Behaviour)
           (task_dir : string) : Action (string * string * Z) :=
  try_finally
    (match communicate b with
     | Completed stdout stderr code written =>
         modify (store_all task_dir written) ;;;
         ret (stdout, stderr, code)
     | TimedOut =>
         modify (emit (Kill (task_id task))) ;;;
         raise (timeout_error task)
     | CommFailed e => raise e
     end)
    (modify (fun s => set_active (table_remove (task_id task) (active_processes s)) s)).

(** The body of the [try] block of [_execute_agent_task]. *)
Definition run_worker (task : AgentTask) (b : Behaviour)
           (task_dir : string) (start_time : Q) : Action AgentResult :=
  let cmd := ["claude-code"; "--agent"; agent_name task] in
  has_prompt <~ get (file_exists task_dir "prompt.txt") ;;
  let cmd :=
    if has_prompt
    then (cmd ++ ["--input"; path_join task_dir "prompt.txt"])%list
    else cmd in
  may_raise (spawn_fault b) ;;;
  modify (emit (Spawn cmd task_dir)) ;;;
  modify (fun s => set_active
                     (table_set (task_id task) (mkProcess None false)
                                (active_processes s)) s) ;;;
  '(stdout, stderr, code) <~ communicate_with_timeout task b task_dir ;;
  now <~ time_time ;;
  let execution_time := (now - start_time)%Q in
  may_raise (scan_fault b) ;;;
  found <~ get (files_under task_dir) ;;
  match collect_output_files found with
  | Raises e => raise e
  | Returns output_files =>
      let success := (code =? 0)%Z in
      let output := stdout in
      let error := if truthy stderr then Some stderr else None in
      let error :=
        match success, error with
        | false, None => Some ("Process exited with code " ++ str_of_Z code)
        | _, _ => error
        end in
      ret (mkResult (agent_name task) (task_id task) success output error
                    execution_time (Some output_files)
                    (Some [("return_code", MInt code);
                           ("workspace", MStr task_dir)]))
  end.

(** Its [except Exception as e] clause. *)
Definition failed_result (task : AgentTask) (task_dir : string)
           (start_time : Q) (e : PyException) : Action AgentResult :=
  now <~ time_time ;;
  let execution_time := (now - start_time)%Q in
  ret (mkResult (agent_name task) (task_id task) false EmptyString
                (Some (str_of_exc e)) execution_time None
                (Some [("workspace", MStr task_dir)])).

Definition _execute_agent_task (task : AgentTask) (b : Behaviour) : Action AgentResult :=
  start_time <~ time_time ;;
  task_dir <~ _create_task_workspace task b ;;
  try_except (run_worker task b task_dir start_time)
             (failed_result task task_dir start_time).

(** A run in which nothing failed and the worker exited with code 0. *)
Definition writes_ok (task : AgentTask) (b : Behaviour) : bool :=
  forallb (fun f => negb (is_some (write_fault b (fst f))))
          (match input_files task with
           | Some l => l
           | None => []
           end)
  && negb (is_some (write_fault b "prompt.txt")).

Definition clean_run (task : AgentTask) (b : Behaviour) : bool :=
  writes_ok task b &&
  match mkdir_fault b, spawn_fault b, scan_fault b, communicate b with
  | None, None, None, Completed _ _ code _ => (code =? 0)%Z
  | _, _, _, _ => false
  end.

(** [asyncio.gather] with [return_exceptions=True]: the outcomes in the
    order of the awaitables.  The coroutines are run one after the other
    in that order, which is one of the schedules the event loop allows. *)
Fixpoint gather {A} (aws : list (Action A)) (s : State) : list (Outcome A) * State :=
  match aws with
  | [] => ([], s)
  | a :: aws' =>
      let '(r, s1) := a s in
      let '(rs, s2) := gather aws' s1 in
      (r :: rs, s2)
  end.

(** [tasks[i]] *)
Definition item {A} (l : list A) (i : nat) : Action A :=
  match nth_error l i with
  | Some x => ret x
  | None => raise index_error
  end.

(** The loop that turns exceptions into failed results. *)
Fixpoint convert_results (tasks : list AgentTask)
         (results : list (nat * Outcome AgentResult)) : Action (list AgentResult) :=
  match results with
  | [] => ret []
  | (i, result) :: rest =>
      r <~ match result with
           | Raises e =>
               t <~ item tasks i ;;
               ret (mkResult (agent_name t) (task_id t) false EmptyString
                             (Some (str_of_exc e)) 0.0 None None)
           | Returns r => ret r
           end ;;
      rs <~ convert_results tasks rest ;;
      ret (r :: rs)
  end.

(** What the loop appends for one position. *)
Definition converted (t : AgentTask) (result : Outcome AgentResult) : AgentResult :=
  match result with
  | Returns r => r
  | Raises e =>
      mkResult (agent_name t) (task_id t) false EmptyString
               (Some (str_of_exc e)) 0.0 None None
  end.

(** The oracle gives the behaviour of the environment for the task at
    each position of the list. *)
Definition execute_parallel_tasks (tasks : list AgentTask)
           (oracle : nat -> Behaviour) : Action (list AgentResult) :=
  match tasks with
  | [] => ret []
  | _ =>
      let async_tasks :=
        map (fun it => _execute_agent_task (snd it) (oracle (fst it))) (enumerate tasks) in
      fun s =>
        let '(results, s') := gather async_tasks s in
        convert_results tasks (enumerate results) s'
  end.

(** The selection loop shared by the three [orchestrate_*] methods. *)
Definition first_successful (results : list AgentResult) : option AgentResult :=
  find success results.

(** [f"{language}"] *)
Definition fmt_opt (language : option string) : string :=
  match language with
  | Some l => l
  | None => "None"
  end.

(** [language + ' ' if language else ''] *)
Definition fmt_lang_space (language : option string) : string :=
  match language with
  | Some (String c l) => String c l ++ " "
  | _ => EmptyString
  end.

Definition opt_str (o : option string) : MetaValue :=
  match o with
  | Some s => MStr s
  | None => MNone
  end.

(** The task-building loop: one task per agent, each reading the clock
    for its identifier. *)
Fixpoint build_tasks (mk : nat -> string -> Z -> Z -> AgentTask)
         (agents : list (nat * string)) : Action (list AgentTask) :=
  match agents with
  | [] => ret []
  | (i, name) :: rest =>
      now <~ time_time ;;
      limit <~ get execution_timeout_seconds ;;
      ts <~ build_tasks mk rest ;;
      ret (mk i name (int_of_Q now) limit :: ts)
  end.

Definition finish (task_type : string) (start_time : Q)
           (results : list AgentResult)
           (meta : list (string * MetaValue)) : Action OrchestrationResult :=
  let selected_result := first_successful results in
  now <~ time_time ;;
  ret (mkOrchestration task_type (is_some selected_result) selected_result
                       (Some results) (now - start_time)%Q (Some meta)).

Definition design_prompt (prompt : string) (language : option string) : string :=
  "Design a " ++ fmt_lang_space language ++ "system based on this description:

" ++ prompt ++ "

Provide a comprehensive architectural design document with:
1. System overview and architecture
2. Core components and their responsibilities
3. Data models and interfaces
4. Technology stack and dependencies
5. Implementation considerations

Focus on creating a well-structured, implementable design that follows "
  ++ fmt_opt language ++ " best practices if specified.".

Definition orchestrate_design (prompt : string) (agents : list string)
           (language : option string) (oracle : nat -> Behaviour)
  : Action OrchestrationResult :=
  start_time <~ time_time ;;
  tasks <~ build_tasks
        (fun i agent now limit =>
           mkTask agent (design_prompt prompt language)
                  ("design_" ++ str_of_nat i ++ "_" ++ str_of_Z now)
                  limit None None)
        (enumerate agents) ;;
  results <~ execute_parallel_tasks tasks oracle ;;
  finish "design" start_time results
         [("language", opt_str language);
          ("agent_count", MInt (Z.of_nat (List.length agents)));
          ("prompt", MStr prompt)].

Definition feature_prompt (section_id : string) (language : option string)
           (app_md_content : option string) : string :=
  "Generate detailed implementation specifications for section " ++ section_id ++ ".

" ++ (match app_md_content with
      | Some (String _ _) => "Context from app.md:"
      | _ => EmptyString
      end) ++ "
" ++ (match app_md_content with
      | Some c => c
      | None => EmptyString
      end) ++ "

Create a comprehensive implementation specification that:
1. Preserves exact subsection structure from the original section
2. Provides detailed implementation guidance
3. Includes specific " ++ fmt_lang_space language ++ "code patterns and approaches
4. Specifies data structures, algorithms, and interfaces
5. Addresses error handling and edge cases

Ensure the output maintains structural integrity and follows "
  ++ fmt_opt language ++ " best practices if specified.".

Definition orchestrate_feature (section_id : string) (agents : list string)
           (language : option string) (app_md_content : option string)
           (oracle : nat -> Behaviour) : Action OrchestrationResult :=
  start_time <~ time_time ;;
  let input_files :=
    match app_md_content with
    | Some (String c r) => [("app.md", String c r)]
    | _ => []
    end in
  tasks <~ build_tasks
        (fun i agent now limit =>
           mkTask agent (feature_prompt section_id language app_md_content)
                  ("feat_" ++ section_id ++ "_" ++ str_of_nat i ++ "_" ++ str_of_Z now)
                  limit (Some input_files) None)
        (enumerate agents) ;;
  results <~ execute_parallel_tasks tasks oracle ;;
  finish "feat" start_time results
         [("section_id", MStr section_id);
          ("language", opt_str language);
          ("agent_count", MInt (Z.of_nat (List.length agents)))].

Definition development_prompt (feat_specs : list string) (language : string)
           (feat_content : option (list (string * string))) : string :=
  "Generate working " ++ language ++ " code from these feature specifications:

Feature specifications: " ++ join ", " feat_specs ++ "

" ++ (match feat_content with
      | Some (_ :: _) => "Feature content provided in input files."
      | _ => EmptyString
      end) ++ "

Create a complete, working codebase that:
1. Implements all specified features with proper " ++ language ++ " idioms
2. Includes comprehensive test suites
3. Provides proper documentation and comments
4. Uses appropriate project structure for " ++ language ++ "
5. Includes build and deployment configurations

Focus on creating production-ready, well-tested code that follows "
  ++ language ++ " best practices.".

Definition orchestrate_development (feat_specs : list string) (agents : list string)
           (language : string) (feat_content : option (list (string * string)))
           (oracle : nat -> Behaviour) : Action OrchestrationResult :=
  start_time <~ time_time ;;
  let input_files :=
    match feat_content with
    | Some (f :: l) => f :: l
    | _ => []
    end in
  tasks <~ build_tasks
        (fun i agent now limit =>
           mkTask agent (development_prompt feat_specs language feat_content)
                  ("dev_" ++ str_of_nat i ++ "_" ++ str_of_Z now)
                  limit (Some input_files) None)
        (enumerate agents) ;;
  results <~ execute_parallel_tasks tasks oracle ;;
  finish "dev" start_time results
         [("feat_specs", MStrs feat_specs);
          ("language", MStr language);
          ("agent_count", MInt (Z.of_nat (List.length agents)))].

(** *** Entering and leaving the engine *)

(** [__aenter__]: [name] is the directory that [tempfile.mkdtemp]
    creates. *)
Definition __aenter__ (name : string) : Action unit :=
  modify (fun s => set_temp_dir (Some name) (set_dirs (dirs s ++ [name])%list s)).

(** The loop of [cleanup] over the process table. *)
Fixpoint terminate_all (ps : list (string * Process)) (s : State) : State :=
  match ps with
  | [] => s
  | (tid, p) :: ps' =>
      match returncode p with
      | None =>
          let s1 := emit (Terminate tid) s in
          terminate_all ps' (if ignores_terminate p then emit (Kill tid) s1 else s1)
      | Some _ => terminate_all ps' s
      end
  end.

(** [p] is [d] or lies below it. *)
Definition under (d p : string) : bool :=
  String.eqb p d || String.prefix (d ++ "/") p.

(** [shutil.rmtree(d, ignore_errors=True)], when nothing goes wrong. *)
Definition rmtree (d : string) (s : State) : State :=
  set_files (filter (fun f => negb (under d (fst (fst f)))) (files s))
            (set_dirs (filter (fun p => negb (under d p)) (dirs s)) s).

Definition cleanup : Action unit :=
  modify (fun s => terminate_all (active_processes s) s) ;;;
  modify (set_active []) ;;;
  modify (fun s =>
            match temp_dir s with
            | Some (String c r) =>
                if dir_exists (String c r) s then rmtree (String c r) s else s
            | _ => s
            end).


End Engine.

(** ** core/agent_registry.py: health metrics *)

Module Registry.

Record AgentHealth := mkHealth {
  agent_name : string;
  success_rate : Q;
  avg_response_time : Q;
  last_success : option Q;
  last_failure : option Q;
  total_invocations : nat;
  recent_failures : list string
}.

(** [l[-5:]] *)
Definition last_five {A} (l : list A) : list A := skipn (List.length l - 5) l.

(** [self.health_metrics], a dictionary keyed by agent name. *)
Definition Metrics := list (string * AgentHealth).

Definition lookup (name : string) (m : Metrics) : option AgentHealth :=
  option_map snd (find (fun kv => String.eqb (fst kv) name) m).

Definition store (name : string) (h : AgentHealth) (m : Metrics) : Metrics :=
  match lookup name m with
  | Some _ => map (fun kv => if String.eqb (fst kv) name then (name, h) else kv) m
  | None => (m ++ [(name, h)])%list
  end.

(** The update of one health record; [now] is [datetime.now()]. *)
Definition record_on (health : AgentHealth) (succeeded : bool)
           (response_time : Q) (error_msg : option string) (now : Q) : AgentHealth :=
  let total := S (total_invocations health) in
  let avg :=
    if Qeq_bool (avg_response_time health) 0
    then response_time
    else (avg_response_time health * 0.8 + response_time * 0.2)%Q in
  let '(last_ok, last_ko, failures) :=
    if succeeded
    then (Some now, last_failure health, recent_failures health)
    else (last_success health, Some now,
          match error_msg with
          | Some (String c r) => last_five (recent_failures health ++ [String c r])%list
          | _ => recent_failures health
          end) in
  let current_successes := (Qnat total * success_rate health)%Q in
  let current_successes :=
    if succeeded then (current_successes + 1)%Q else current_successes in
  mkHealth (agent_name health)
           (current_successes / Qnat total)%Q
           avg last_ok last_ko total failures.

Definition fresh (name : string) : AgentHealth :=
  mkHealth name 0.0 0.0 None None 0 [].

Definition record_agent_invocation (name : string) (succeeded : bool)
           (response_time : Q) (error_msg : option string) (now : Q)
           (m : Metrics) : Metrics :=
  let m :=
    match lookup name m with
    | Some _ => m
    | None => store name (fresh name) m
    end in
  match lookup name m with
  | Some health => store name (record_on health succeeded response_time error_msg now) m
  | None => m
  end.

(** A sequence of recorded invocations of one agent, oldest first:
    (success, response time, error message, time of the call). *)
Definition Invocation : Type := bool * Q * option string * Q.

Definition record_all (name : string) (calls : list Invocation) (m : Metrics) : Metrics :=
  fold_left
    (fun m c =>
       let '(ok, rt, err, now) := c in
       record_agent_invocation name ok rt err now m)
    calls m.

End Registry.

(** ** workflows/feat_workflow.py: evaluation, selection and saving *)

Module FeatFlow.
Import PyStr Engine FeatEval.

(** The persistence collaborator, observed through the calls it
    receives.  A call is recorded when it is made, whether it returns
    or raises; what a call that raised has left on disk is not
    modelled. *)
Record SaveCall := mkSave {
  sv_section_id : string;
  sv_content : string;
  sv_metadata : list (string * MetaValue)
}.

Record ArchiveCall := mkArchive {
  ar_task_type : string;
  ar_candidates : list (AgentResult * string)
}.

Record Persistence := mkPersistence {
  save_calls : list SaveCall;
  archive_calls : list ArchiveCall
}.

(** How the disk answers during one command: the exception that the
    writes of [save_feature] raise, if any, and the exception that the
    directory creation or the writes of [archive_candidates] raise, if
    any. *)
Record Disk := mkDisk {
  save_error : option PyException;
  archive_error : option PyException
}.

(** The file name chosen by [PersistenceManager.save_feature]. *)
Fixpoint replace_char (a b : ascii) (s : string) : string :=
  match s with
  | EmptyString => EmptyString
  | String c s' => String (if Ascii.eqb c a then b else c) (replace_char a b s')
  end.

Fixpoint remove_char (a : ascii) (s : string) : string :=
  match s with
  | EmptyString => EmptyString
  | String c s' => if Ascii.eqb c a then remove_char a s' else String c (remove_char a s')
  end.

Fixpoint all_digits (s : string) : bool :=
  match s with
  | EmptyString => true
  | String c s' => is_digit c && all_digits s'
  end.

(** [s.isdigit()] *)
Definition isdigit (s : string) : bool := truthy s && all_digits s.

Definition feature_filename (section_id : string) : string :=
  if isdigit (remove_char "."%char section_id)
  then "feat_" ++ replace_char "."%char "_"%char section_id ++ ".md"
  else "feat_" ++ lower (replace_char "-"%char "_"%char
                           (replace_char " "%char "_"%char section_id)) ++ ".md".

(** [PersistenceManager.save_feature]: the path of the saved file when
    the writes succeed. *)
Definition save_feature (io : Disk) (plan_path section_id content : string)
           (metadata : list (string * MetaValue)) (p : Persistence)
  : Outcome string * Persistence :=
  let p' := mkPersistence (save_calls p ++ [mkSave section_id content metadata])%list
                          (archive_calls p) in
  match save_error io with
  | Some e => (Raises e, p')
  | None => (Returns (path_join plan_path (feature_filename section_id)), p')
  end.

(** [PersistenceManager.archive_candidates] *)
Definition archive_candidates (io : Disk) (task_type : string)
           (candidates : list (AgentResult * string)) (p : Persistence)
  : Outcome unit * Persistence :=
  let p' := mkPersistence (save_calls p)
                          (archive_calls p ++ [mkArchive task_type candidates])%list in
  match archive_error io with
  | Some e => (Raises e, p')
  | None => (Returns tt, p')
  end.

Section Workflow.
Context {order : SetOrder}.

(** The dictionary built for each successful result. *)
Definition to_candidate (result : AgentResult) : Candidate :=
  mkCandidate (r_agent_name result) (Some (output result)) None
              (execution_time result) (metadata result).

Definition no_candidates : PyException :=
  mkExc RuntimeError "No successful feature specification candidates generated".

(** [candidates[best_index]] *)
Definition pick {A} (l : list A) (i : nat) : Outcome A :=
  match nth_error l i with
  | Some x => Returns x
  | None => Raises index_error
  end.

(** Console output is not modelled. *)
Definition _evaluate_and_select_feature (agent_results : list AgentResult)
           (expected_structure : list string) (language : option string)
  : Outcome (Candidate * list (nat * FeatScore)) :=
  let candidates := map to_candidate (filter success agent_results) in
  match candidates with
  | [] => Raises no_candidates
  | _ =>
      evaluation_results <- rank_features candidates (Some expected_structure) language ;;
      best <- first_item evaluation_results ;;
      selected_feat <- pick candidates (fst best) ;;
      Returns (selected_feat, evaluation_results)
  end.

(** The dictionary returned by [execute_feat_command]. *)
Record CommandResult := mkCommandResult {
  cr_success : bool;
  cr_error : option string;
  cr_message : string;
  cr_feat_path : option string;
  cr_agent_used : option string;
  cr_evaluation_score : option Q;
  cr_structural_score : option Q
}.

(** The steps of [execute_feat_command] that follow the orchestration
    call, with [user_feat_approval] off as in the default configuration:
    selection, [save_feature], [archive_candidates], and the handler
    that turns any exception into a failure dictionary. *)
Definition select_and_save (io : Disk) (command_line section_id plan_path : string)
           (expected_structure : list string) (language : option string)
           (orchestration_result : OrchestrationResult) (p : Persistence)
  : Outcome (CommandResult) * Persistence :=
  if negb (o_success orchestration_result)
  then (Raises (mkExc RuntimeError "Feature orchestration failed"), p)
  else
    let all_results :=
      match o_all_results orchestration_result with
      | Some l => l
      | None => []
      end in
    match _evaluate_and_select_feature all_results expected_structure language with
    | Raises e => (Raises e, p)
    | Returns (selected_feat, evaluation_results) =>
        let text := candidate_text selected_feat in
        let structural_score :=
          match expected_structure with
          | [] => 1.0%Q
          | _ => structure_score (validate_structure text expected_structure)
          end in
        let evaluation_score :=
          match evaluation_results with
          | first :: _ => overall_score (snd first)
          | [] => 0.0%Q
          end in
        match
          save_feature io plan_path section_id text
            [("command", MStr command_line);
             ("section_id", MStr section_id);
             ("language", opt_str language);
             ("agent_name", MStr (c_agent_name selected_feat));
             ("execution_time", MFloat (o_execution_time orchestration_result));
             ("evaluation_score", MFloat evaluation_score);
             ("structural_integrity", MFloat structural_score);
             ("expected_structure", MStrs expected_structure)] p
        with
        | (Raises e, p1) => (Raises e, p1)
        | (Returns feat_path, p1) =>
            let non_selected :=
              filter (fun r => negb (String.eqb (r_agent_name r)
                                                (c_agent_name selected_feat)))
                     all_results in
            let archived :=
              match non_selected with
              | [] => (Returns tt, p1)
              | _ => archive_candidates io "feat"
                       (map (fun r => (r, section_id)) non_selected) p1
              end in
            match archived with
            | (Raises e, p2) => (Raises e, p2)
            | (Returns _, p2) =>
                (Returns (mkCommandResult true None
                            ("Feature specification for section " ++ section_id
                               ++ " successfully generated and saved to " ++ feat_path)
                            (Some feat_path) (Some (c_agent_name selected_feat))
                            (Some evaluation_score) (Some structural_score)), p2)
            end
        end
    end.

Definition execute_feat_command_tail (io : Disk)
           (command_line section_id plan_path : string)
           (expected_structure : list string) (language : option string)
           (orchestration_result : OrchestrationResult) (p : Persistence)
  : CommandResult * Persistence :=
  match select_and_save io command_line section_id plan_path expected_structure
                        language orchestration_result p with
  | (Returns r, p') => (r, p')
  | (Raises e, p') =>
      (mkCommandResult false (Some (str_of_exc e))
                       ("Feature workflow failed: " ++ str_of_exc e)
                       None None None None, p')
  end.

End Workflow.
End FeatFlow.

(** ** Contracts of the engine and sample runs *)

Module EngineContracts.
Import PyStr Engine.

(** What a run of the [try] block guarantees, whichever way it ends. *)
Definition worker_post (task : AgentTask) (b : Behaviour) (s : State)
           (r : Outcome AgentResult * State) : Prop :=
  dirs (snd r) = dirs s /\ temp_dir (snd r) = temp_dir s /\
  match fst r with
  | Returns res =>
      r_task_id res = task_id task /\ r_agent_name res = agent_name task /\
      (success res = true ->
       spawn_fault b = None /\ scan_fault b = None /\
       exists out err w, communicate b = Completed out err 0%Z w) /\
      (success res = false -> exists msg, error res = Some msg)
  | Raises e =>
      spawn_fault b = None -> communicate b = TimedOut ->
      e = timeout_error task /\ In (Kill (task_id task)) (events (snd r))
  end.

(** What creating the workspace guarantees. *)
Definition workspace_post (task : AgentTask) (b : Behaviour) (s : State)
           (r : Outcome string * State) : Prop :=
  temp_dir (snd r) = temp_dir s /\
  (forall p, dir_exists p s = true -> dir_exists p (snd r) = true) /\
  match fst r with
  | Returns d =>
      exists td, temp_dir s = Some td /\ d = path_join td (task_id task) /\
                 dir_exists d (snd r) = true /\
                 mkdir_fault b = None /\ writes_ok task b = true
  | Raises _ => True
  end.

(** The sandbox: it raises exactly when the workspace cannot be created,
    and otherwise returns a result. *)
Definition sandbox_post (task : AgentTask) (b : Behaviour) (s : State)
           (r : Outcome AgentResult * State) : Prop :=
  temp_dir (snd r) = temp_dir s /\
  (forall p, dir_exists p s = true -> dir_exists p (snd r) = true) /\
  match fst (_create_task_workspace task b (snd (time_time s))) with
  | Raises e => fst r = Raises e
  | Returns d =>
      exists res,
        fst r = Returns res /\
        dir_exists d (snd r) = true /\
        r_task_id res = task_id task /\ r_agent_name res = agent_name task /\
        (success res = true -> clean_run task b = true) /\
        (success res = false -> exists msg, error res = Some msg) /\
        (spawn_fault b = None -> communicate b = TimedOut ->
         success res = false /\
         error res = Some (exc_msg (timeout_error task)) /\
         In (Kill (task_id task)) (events (snd r)))
  end.

(** An [orchestrate_*] call on [agents]: it returns, its results are in
    the order of the agents, the selected result is the first
    successful one, and the flag tells whether there is one. *)
Definition selects_first_success (agents : list string)
           (run : Action OrchestrationResult) : Prop :=
  forall s,
  exists res s' results,
    run s = (Returns res, s') /\
    o_all_results res = Some results /\
    List.length results = List.length agents /\
    (forall i a, nth_error agents i = Some a ->
       exists r, nth_error results i = Some r /\ r_agent_name r = a) /\
    o_selected_result res = find success results /\
    (o_success res = true <-> exists r, In r results /\ success r = true) /\
    (forall r, o_selected_result res = Some r ->
       exists i, nth_error results i = Some r /\ success r = true /\
                 forall j r', j < i -> nth_error results j = Some r' ->
                              success r' = false).

(** Sample runs. *)
Definition sample_clock (n : nat) : Q := inject_Z (1700000000 + Z.of_nat n).

Definition scratch : string := "/tmp/claude_orchestration_k3x".

(** The engine as [__init__] leaves it, and right after [__aenter__]. *)
Definition engine_new : State := mkState None [] 300 [] [] [] sample_clock 0.

Definition engine_entered : State := snd (__aenter__ scratch engine_new).

Definition test_task_1 : AgentTask :=
  mkTask "gad" "Design a simple timer application" "test_task_1" 300 None None.

Definition task_nested_input : AgentTask :=
  mkTask "gad" "Specify section 2" "feat_2_0_1700000000" 300
         (Some [("docs/app.md", "# App")]) None.

Definition worker_ok : Behaviour :=
  mkBehaviour None (fun _ => None) None
              (Completed "# Timer design" "" 0 [("design.md", Text "# Timer design")])
              None.

Definition worker_hangs : Behaviour :=
  mkBehaviour None (fun _ => None) None TimedOut None.

(** Writing below a directory that does not exist fails. *)
Definition no_parent_directory : Behaviour :=
  mkBehaviour None
              (fun name =>
                 if String.eqb name "docs/app.md"
                 then Some (mkExc OSError "[Errno 2] No such file or directory")
                 else None)
              None
              (Completed "" "" 0 [])
              None.

(** An event loop without subprocess support:
    [asyncio.create_subprocess_exec] raises [NotImplementedError()],
    whose text is empty. *)
Definition spawn_unsupported : Behaviour :=
  mkBehaviour None (fun _ => None)
              (Some (mkExc NotImplementedError EmptyString))
              (Completed "" "" 0 []) None.

(** A worker that exits with code 2 and writes nothing to its streams. *)
Definition worker_fails_silently : Behaviour :=
  mkBehaviour None (fun _ => None) None (Completed "" "" 2 []) None.

(** The state in which the task at position [i] of a batch starts,
    under [gather]'s schedule: the tasks before it have run. *)
Definition state_before (tasks : list AgentTask) (oracle : nat -> Behaviour)
           (i : nat) (s : State) : State :=
  snd (gather (map (fun it => _execute_agent_task (snd it) (oracle (fst it)))
                   (firstn i (enumerate tasks))) s).

End EngineContracts.

(** ** Contracts of the evaluators and sample candidates *)

Module EvalContracts.
Import PyStr FeatEval.

Definition in01 (q : Q) : Prop := (0 <= q /\ q <= 1)%Q.

(** The order that [sort(reverse=True)] establishes. *)
Definition key_ge {A} (key : A -> Q) (x y : A) : Prop := (key y <= key x)%Q.

Inductive descending {A} (key : A -> Q) : list A -> Prop :=
| desc_nil : descending key []
| desc_cons x l :
    Forall (key_ge key x) l -> descending key l -> descending key (x :: l).

(** Another admissible iteration order of a set difference: the
    reverse of the first-occurrence order, as another hash seed may
    give. *)
Definition last_occurrence_order : SetOrder :=
  {| list_of_difference := fun a b => rev (difference_elements a b);
     list_of_difference_perm :=
       fun a b => Permutation_sym (Permutation_rev (difference_elements a b)) |}.

Definition newline : string := String "010"%char EmptyString.

Definition candidate (agent text : string) : Candidate :=
  mkCandidate agent (Some text) None 1.5 None.

(** A specification without the expected sections, one with them, and
    an agent that produced nothing. *)
Definition off_topic : Candidate := candidate "gad" "# Notes".

Definition on_topic : Candidate :=
  candidate "pad" ("# Overview" ++ newline ++ "Plain text." ++ newline ++ "## 2. API").

Definition silent : Candidate := candidate "rad" "".

(** A detailed specification that lacks one of the expected sections. *)
Definition detailed_but_incomplete : Candidate :=
  candidate "dad"
    ("# Overview" ++ newline ++
     "The function validates each input parameter and returns an error. " ++
     "The algorithm uses a data structure, a struct and an interface; " ++
     "each method of the class does validation and error handling of " ++
     "input and output. For example, the return value must be checked." ++ newline ++
     "```go" ++ newline ++
     "func main() { if err != nil { return err } }" ++ newline ++
     "```" ++ newline ++
     "- step one" ++ newline ++ "- step two" ++ newline ++ "1. first" ++ newline).

Definition expected_outline : list string := ["overview"; "api"].

(** The indices of the candidates that [rank_*] scores. *)
Definition scored_indices (candidates : list Candidate) : list nat :=
  map fst (filter (fun ic => truthy (candidate_text (snd ic))) (enumerate candidates)).

(** The value of a ranking that returned. *)
Definition returned {A} (o : Outcome (list A)) : list A :=
  match o with
  | Returns l => l
  | Raises _ => []
  end.

End EvalContracts.

(** ** Sample results for the workflow *)

Module FlowContracts.
Import Engine.

Definition expected_outline : list string := ["overview"; "api"].

(** A task that exited with a non-zero code. *)
Definition failure (agent : string) (code : Z) : AgentResult :=
  mkResult agent ("feat_2_" ++ agent) false EmptyString
           (Some ("Process exited with code " ++ PyStr.str_of_Z code)) 2.5
           (Some []) (Some [("return_code", MInt code)]).

Definition three_failures : list AgentResult :=
  [failure "gad" 1; failure "pad" 1; failure "rad" 2].

End FlowContracts.

(** ** Contracts of the health metrics *)

Module RegistryContracts.
Import Registry.

(** The health record of an agent; an agent never recorded has the
    initial record that [record_agent_invocation] would create. *)
Definition health_of (name : string) (m : Metrics) : AgentHealth :=
  match lookup name m with
  | Some h => h
  | None => fresh name
  end.

(** The latency update as the source writes it. *)
Definition latency_step (avg sample : Q) : Q :=
  if Qeq_bool avg 0 then sample else (avg * 0.8 + sample * 0.2)%Q.

Definition two_successes : list Invocation :=
  [(true, 10%Q, None, 1700000000%Q); (true, 10%Q, None, 1700000060%Q)].

End RegistryContracts.

(** ** Further contracts of the engine *)

Module EngineMore.
Import PyStr Engine EngineContracts.

(** The content of the file [name] in directory [d], if it exists. *)
Definition lookup_file (d name : string) (s : State) : option FileData :=
  option_map snd (find (fun f => same_path (fst f) (d, name)) (files s)).

(** A file name that [task_dir / name] leaves as it is: a single path
    component that is not empty, not [.] and not [..] and holds no
    slash and no NUL.  Two different plain names are two different
    files of the directory (on a case-sensitive file system); other
    names may be collapsed by [pathlib] ([./a.txt] is [a.txt]) or leave
    the directory. *)
Definition plain_name (name : string) : bool :=
  negb (String.eqb name EmptyString) &&
  negb (String.eqb name ".") && negb (String.eqb name "..") &&
  forallb (fun c => negb (Ascii.eqb c "/"%char) && negb (code c =? 0))
          (list_ascii_of_string name).

(** [k in table] *)
Definition in_table (k : string) (t : list (string * Process)) : bool :=
  existsb (fun kv => String.eqb (fst kv) k) t.

(** A clock that never runs backwards. *)
Definition monotone (clock : nat -> Q) : Prop :=
  forall n m, n <= m -> (clock n <= clock m)%Q.

(** The error text that [_execute_agent_task] derives from the streams
    and the exit code. *)
Definition error_text (err : string) (code : Z) : option string :=
  match err with
  | EmptyString =>
      if (code =? 0)%Z then None
      else Some ("Process exited with code " ++ str_of_Z code)
  | _ => Some err
  end.

(** The list that a call returned. *)
Definition returned_results (o : Outcome (list AgentResult)) : list AgentResult :=
  match o with
  | Returns l => l
  | Raises _ => []
  end.

(** [int(s)] for a string of decimal digits, from an accumulator. *)
Definition decode_from (a : nat) (s : string) : nat :=
  fold_left (fun a c => 10 * a + (code c - 48)) (list_ascii_of_string s) a.

Definition nat_of_digits (s : string) : nat := decode_from 0 s.

(** A worker that fails with exit code 2 and no error output. *)
Definition worker_exits_2 : Behaviour :=
  mkBehaviour None (fun _ => None) None (Completed "partial" "" 2 []) None.

Definition task_with_input : AgentTask :=
  mkTask "gad" "Specify section 2" "feat_2_0_1700000000" 300
         (Some [("app.md", "# App")]) None.

End EngineMore.

(** ** evaluators/feat_evaluator.py: the expected structure *)

Module ExpectedStructure.
Import PyStr Regex FeatEval.

(** [$] without [re.MULTILINE]: the end of the text, or right before a
    final newline. *)
Definition at_end (s : string) : bool :=
  match s with
  | EmptyString => true
  | String c EmptyString => is_newline c
  | _ => false
  end.

Definition non_empty (s : string) : bool :=
  match s with
  | EmptyString => false
  | _ => true
  end.

(** [re.match(r'^\d+(\.\d+)?$', section_id)] *)
Definition is_numeric_id (section_id : string) : bool :=
  let '(d1, r1) := span is_digit section_id in
  non_empty d1 &&
  (at_end r1 ||
   match r1 with
   | String c r2 =>
       Ascii.eqb c "."%char &&
       (let '(d2, r3) := span is_digit r2 in non_empty d2 && at_end r3)
   | EmptyString => false
   end).

(** The text after a literal prefix, if the text starts with it. *)
Fixpoint drop_prefix (p s : string) : option string :=
  match p, s with
  | EmptyString, _ => Some s
  | String a p', String b s' => if Ascii.eqb a b then drop_prefix p' s' else None
  | String _ _, EmptyString => None
  end.

(** [re.search(r'^' + re.escape(section_id) + r'[.\s]', title)]: the
    escaped identifier matches itself, and [^] only matches at
    position 0. *)
Definition starts_with_id (section_id title : string) : bool :=
  match drop_prefix section_id title with
  | Some (String c _) => Ascii.eqb c "."%char || is_space c
  | _ => false
  end.

Definition _is_target_section (title section_id : string) : bool :=
  let title_lower := lower title in
  let section_lower := lower section_id in
  if is_numeric_id section_id && starts_with_id section_id title then true
  else if contains section_lower title_lower || contains title_lower section_lower
       then true
       else false.

(** [re.match(r'^(#+)\s+(.+)$', line)] on a line of [split('\n')]: such
    a line holds no newline, so that [$] is the end of the line as it is
    with [re.MULTILINE]. *)
Definition match_header_line (line : string) : option (string * string) :=
  match match_header line with
  | Some (hashes, title, _) => Some (hashes, title)
  | None => None
  end.

(** The loop over the lines.  [target] is [None] while
    [in_target_section] is false and holds [target_level] afterwards;
    the two variables are always set together.  Returning the
    accumulator is the [break]. *)
Fixpoint scan_lines (section_id : string) (lines : list string)
         (target : option nat) (expected : list string) : list string :=
  match lines with
  | [] => expected
  | line :: rest =>
      match match_header_line (strip line) with
      | None => scan_lines section_id rest target expected
      | Some (hashes, group2) =>
          let level := String.length hashes in
          let title := strip group2 in
          if _is_target_section title section_id
          then scan_lines section_id rest (Some level) expected
          else
            match target with
            | None => scan_lines section_id rest target expected
            | Some target_level =>
                if level <=? target_level then expected
                else if level =? target_level + 1
                     then scan_lines section_id rest target
                            (expected ++ [normalize_title title])%list
                     else scan_lines section_id rest target expected
            end
      end
  end.

Definition extract_expected_structure (app_md_content section_id : string)
  : list string :=
  match app_md_content with
  | EmptyString => []
  | _ => scan_lines section_id (split_on "010"%char app_md_content) None []
  end.

(** The header lines of a document with their level and title, as the
    loop reads them. *)
Definition header_of (line : string) : option (nat * string) :=
  match match_header_line (strip line) with
  | Some (hashes, group2) => Some (String.length hashes, strip group2)
  | None => None
  end.

Definition is_target_line (section_id line : string) : bool :=
  match header_of line with
  | Some (_, title) => _is_target_section title section_id
  | None => false
  end.

Definition sample_app_md : string :=
  "# App" ++ String "010"%char
  ("## 1. Timer Core" ++ String "010"%char
  ("### 1.1 State Machine" ++ String "010"%char
  ("#### Details" ++ String "010"%char
  ("### 1.2 Tick Source" ++ String "010"%char
  ("## 2. Storage" ++ String "010"%char
   "### 2.1 Files"))))).

End ExpectedStructure.

(** ** Further contracts of the evaluators *)

Module EvalMore.
Import PyStr FeatEval ExpectedStructure EvalContracts.

(** Weights that are non-negative and sum to one, as the default
    criteria are. *)
Definition convex (c : DesignEval.EvaluationCriteria) : Prop :=
  (0 <= DesignEval.cr_language_idioms c /\ 0 <= DesignEval.cr_architecture c /\
   0 <= DesignEval.cr_implementability c /\ 0 <= DesignEval.cr_completeness c /\
   0 <= DesignEval.cr_innovation c /\ 0 <= DesignEval.cr_documentation c /\
   DesignEval.cr_language_idioms c + DesignEval.cr_architecture c +
   DesignEval.cr_implementability c + DesignEval.cr_completeness c +
   DesignEval.cr_innovation c + DesignEval.cr_documentation c == 1)%Q.

(** The order of a ranking: a higher key first, and among equal keys
    the candidate submitted first. *)
Definition ranked_before {T} (key : nat * T -> Q) (a b : nat * T) : Prop :=
  (key b < key a)%Q \/ ((key b == key a)%Q /\ fst a < fst b).

(** A text that does not start with whitespace. *)
Definition no_leading_space (s : string) : Prop :=
  match s with
  | EmptyString => True
  | String c _ => is_space c = false
  end.

(** The lines read so far end in a target header of the given level,
    followed only by lines that are not target headers. *)
Definition under_target (section_id : string) (processed : list string)
           (level : nat) : Prop :=
  exists before tline between ttitle,
    processed = (before ++ tline :: between)%list /\
    header_of tline = Some (level, ttitle) /\
    _is_target_section ttitle section_id = true /\
    forallb (fun l => negb (is_target_line section_id l)) between = true.

(** [t] is the normalised title of a header one level below the last
    target header before it. *)
Definition subsection_of (section_id : string) (lines : list string)
           (t : string) : Prop :=
  exists before tline between line rest level ttitle title,
    lines = (before ++ tline :: between ++ line :: rest)%list /\
    header_of tline = Some (level, ttitle) /\
    _is_target_section ttitle section_id = true /\
    forallb (fun l => negb (is_target_line section_id l)) between = true /\
    header_of line = Some (S level, title) /\
    _is_target_section title section_id = false /\
    t = normalize_title title.

End EvalMore.

(** ** core/agent_registry.py: the queries *)

Module AgentQueries.
Import PyStr Registry.

Record AgentInfo := mkAgent {
  name : string;
  path : string;
  description : string;
  capabilities : list string;
  model : option string;
  tools : option (list string);
  language_affinity : option string;
  last_validated : option Q;
  validation_status : string;
  performance_metrics : option (list (string * Q))
}.

(** [self.agents], a dictionary keyed by agent name; [values()] lists
    the agents in insertion order. *)
Definition Agents := list (string * AgentInfo).

Definition values (agents : Agents) : list AgentInfo := map snd agents.

(** [capability in agent.capabilities] *)
Definition has_capability (capability : string) (agent : AgentInfo) : bool :=
  existsb (String.eqb capability) (capabilities agent).

(** [a.language_affinity == language.lower()] *)
Definition has_affinity (language : string) (a : AgentInfo) : bool :=
  match language_affinity a with
  | Some l => String.eqb l (lower language)
  | None => false
  end.

Definition get_agents_by_capability (agents : Agents) (capability : string)
  : list AgentInfo :=
  filter (has_capability capability) (values agents).

Definition get_agents_by_language (agents : Agents) (language : string)
  : list AgentInfo :=
  filter (has_affinity language) (values agents).

(** The block shared by [get_architect_agents], [get_developer_agents]
    and [get_best_agents]: with a language that is neither [None] nor
    empty, the candidates with that affinity if there are any, and all
    candidates otherwise. *)
Definition prefer_language (language : option string)
           (candidates : list AgentInfo) : list AgentInfo :=
  match language with
  | Some (String c r) =>
      match filter (has_affinity (String c r)) candidates with
      | [] => candidates
      | lang_candidates => lang_candidates
      end
  | _ => candidates
  end.

Definition get_architect_agents (agents : Agents) (language : option string)
  : list AgentInfo :=
  prefer_language language (get_agents_by_capability agents "architecture").

Definition get_developer_agents (agents : Agents) (language : option string)
  : list AgentInfo :=
  prefer_language language (get_agents_by_capability agents "implementation").

(** The sort key of [get_best_agents]; an agent without a health record
    gets the default score. *)
Definition agent_score (health_metrics : Metrics) (agent : AgentInfo) : Q * Q :=
  match lookup (name agent) health_metrics with
  | Some health => (success_rate health, - avg_response_time health)%Q
  | None => (1.0, 0.0)%Q
  end.

(** [a < b] on pairs of floats, as Python compares tuples. *)
Definition tuple_lt (a b : Q * Q) : bool :=
  Qlt_bool (fst a) (fst b) || (Qeq_bool (fst a) (fst b) && Qlt_bool (snd a) (snd b)).

(** [l.sort(key=key, reverse=True)] with a pair as key. *)
Fixpoint insert_desc_by {A} (key : A -> Q * Q) (x : A) (l : list A) : list A :=
  match l with
  | [] => [x]
  | y :: l' =>
      if tuple_lt (key x) (key y) then y :: insert_desc_by key x l'
      else x :: y :: l'
  end.

Definition sort_desc_by {A} (key : A -> Q * Q) (l : list A) : list A :=
  fold_right (insert_desc_by key) [] l.

(** [count] is a natural number here; a negative [count], which the
    slice would read from the end of the list, is not modelled. *)
Definition get_best_agents (agents : Agents) (health_metrics : Metrics)
           (capability : string) (language : option string) (count : nat)
  : list AgentInfo :=
  let candidates := get_agents_by_capability agents capability in
  let candidates := prefer_language language candidates in
  firstn count (sort_desc_by (agent_score health_metrics) candidates).

End AgentQueries.

(** ** Further contracts of the registry *)

Module RegistryMore.
Import PyStr Registry RegistryContracts AgentQueries.

(** The error messages that a history of invocations records: those of
    the failed calls that carry a non-empty message, oldest first. *)
Definition failure_messages (calls : list Invocation) : list string :=
  flat_map
    (fun c : Invocation =>
       let '(ok, _, err, _) := c in
       if ok then []
       else match err with
            | Some (String a r) => [String a r]
            | _ => []
            end)
    calls.

(** The time of the last call of a history that succeeded ([ok] true)
    or failed ([ok] false), starting from an earlier stamp. *)
Definition last_time_from (ok : bool) (earlier : option Q)
           (calls : list Invocation) : option Q :=
  fold_left
    (fun acc (c : Invocation) =>
       let '(succeeded, _, _, now) := c in
       if Bool.eqb succeeded ok then Some now else acc)
    calls earlier.

Definition last_time (ok : bool) (calls : list Invocation) : option Q :=
  last_time_from ok None calls.

(** The recent failures after some more messages were recorded. *)
Definition keep_recent (before msgs : list string) : list string :=
  match msgs with
  | [] => before
  | _ => last_five (before ++ msgs)
  end.

(** [a] is not below [b] in the order of [get_best_agents]. *)
Definition score_ge (a b : Q * Q) : Prop := tuple_lt a b = false.

End RegistryMore.

(** ** The workflows: sessions of the engine and the design selection *)

Module Workflows.
Import PyStr Engine AgentQueries FeatFlow.






Definition no_design_candidates : PyException :=
  mkExc RuntimeError "No successful design candidates generated".

(** workflows/design_workflow.py; console output is not modelled. *)
Definition _evaluate_and_select_design (criteria : DesignEval.EvaluationCriteria)
           (agent_results : list AgentResult) (language : option string)
  : Outcome (Candidate * list (nat * DesignEval.DesignScore)) :=
  let candidates := map to_candidate (filter success agent_results) in
  match candidates with
  | [] => Raises no_design_candidates
  | _ =>
      evaluation_results <- DesignEval.rank_designs criteria candidates language ;;
      best <- first_item evaluation_results ;;
      selected_design <- pick candidates (fst best) ;;
      Returns (selected_design, evaluation_results)
  end.

End Workflows.

(** ** Further contracts of the workflows *)

Module FlowMore.
Import PyStr Engine FeatEval FeatFlow AgentQueries Workflows EngineContracts.







(** A successful result with the given text. *)
Definition completed (agent text : string) : AgentResult :=
  mkResult agent ("feat_2_" ++ agent) true text None 2.5 (Some [])
           (Some [("return_code", MInt 0)]).


(** A character that [save_feature] lets through into a file name
    unchanged: no space, no hyphen, no upper-case letter. *)
Definition plain_char (c : ascii) : bool :=
  negb (Ascii.eqb c " "%char) && negb (Ascii.eqb c "-"%char) &&
  negb ((65 <=? code c) && (code c <=? 90)).

Fixpoint all_plain (s : string) : bool :=
  match s with
  | EmptyString => true
  | String c s' => plain_char c && all_plain s'
  end.

Fixpoint digits_and_underscores (s : string) : bool :=
  match s with
  | EmptyString => true
  | String c s' => (is_digit c || Ascii.eqb c "_"%char) && digits_and_underscores s'
  end.

(** A section number such as 2 or 2.1. *)
Definition numeric_id (section_id : string) : bool :=
  isdigit (remove_char "."%char section_id).


End FlowMore.

(** * Properties *)

Module RegexFacts.
Import PyStr Regex.

(** ** The scanners have enough fuel

    The header and list scanners recurse on a fuel argument that the
    callers set to the length of the text.  Every step consumes at least
    one character, so any larger amount of fuel gives the same result. *)

Lemma span_length p s :
  String.length (fst (span p s)) + String.length (snd (span p s)) = String.length s.
Proof.
  induction s as [|c s IH]; simpl; [reflexivity|].
  destruct (p c); simpl; [|reflexivity].
  destruct (span p s) as [a b]. simpl in *. lia.
Qed.

Lemma skip_line_length s : String.length (skip_line s) <= Nat.pred (String.length s).
Proof.
  induction s as [|c s IH]; simpl; [lia|].
  destruct (is_newline c); lia.
Qed.

Lemma last_dot_length ws c rest :
  last_dot ws = Some (c, rest) -> String.length rest < String.length ws.
Proof.
  revert c rest. induction ws as [|x ws IH]; intros c rest H; simpl in *; [discriminate|].
  destruct (last_dot ws) as [[c' r']|] eqn:E.
  - inversion H; subst. specialize (IH c rest eq_refl). lia.
  - destruct (is_newline x); [discriminate|]. inversion H; subst. lia.
Qed.

Lemma match_header_rest s h t rest :
  match_header s = Some (h, t, rest) -> String.length rest <= String.length s.
Proof.
  unfold match_header.
  pose proof (span_length is_hash s) as H1.
  destruct (span is_hash s) as [hs r1]. simpl in H1.
  destruct hs as [|h0 hs]; [discriminate|].
  pose proof (span_length is_space r1) as H2.
  destruct (span is_space r1) as [ws r2]. simpl in H2.
  destruct ws as [|w0 ws]; [discriminate|].
  destruct r2 as [|c r2].
  - destruct (last_dot ws) as [[c' r']|] eqn:E; [|discriminate].
    intros H. inversion H; subst. apply last_dot_length in E. simpl in *. lia.
  - pose proof (span_length (fun c => negb (is_newline c)) (String c r2)) as H3.
    destruct (span (fun c => negb (is_newline c)) (String c r2)) as [ti re].
    intros H. inversion H; subst. simpl in *. lia.
Qed.

Lemma finditer_header_fuel : forall f1 f2 s,
  String.length s <= f1 -> String.length s <= f2 ->
  finditer_header f1 s = finditer_header f2 s.
Proof.
  induction f1 as [|f1 IH]; intros f2 s H1 H2.
  - destruct s; [|simpl in H1; lia]. destruct f2; reflexivity.
  - destruct s as [|c s]; [destruct f2; reflexivity|].
    destruct f2 as [|f2]; [simpl in H2; lia|].
    cbn [finditer_header].
    destruct (match_header (String c s)) as [[[h t] rest]|] eqn:E.
    + apply match_header_rest in E.
      pose proof (skip_line_length rest).
      f_equal. apply IH; simpl in *; lia.
    + pose proof (skip_line_length (String c s)).
      apply IH; simpl in *; lia.
Qed.

Lemma match_header_prefix_rest s b rest :
  match_header_prefix s = Some (b, rest) -> String.length rest < String.length s.
Proof.
  unfold match_header_prefix.
  pose proof (span_length is_hash s) as H1.
  destruct (span is_hash s) as [hs r1]. simpl in H1.
  destruct hs as [|h0 hs]; [discriminate|].
  pose proof (span_length is_space r1) as H2.
  destruct (span is_space r1) as [ws r2]. simpl in H2.
  destruct ws as [|w0 ws]; [discriminate|].
  intros H. inversion H; subst. simpl in *. lia.
Qed.

Lemma match_list_item_rest s b rest :
  match_list_item s = Some (b, rest) -> String.length rest < String.length s.
Proof.
  unfold match_list_item.
  pose proof (span_length is_space s) as H1.
  destruct (span is_space s) as [lead r1]. simpl in H1.
  destruct r1 as [|c r2]; [discriminate|].
  destruct (is_bullet c).
  - pose proof (span_length is_space r2) as H2.
    destruct (span is_space r2) as [ws r3]. simpl in H2.
    destruct ws; [discriminate|].
    intros H. inversion H; subst. simpl in *. lia.
  - pose proof (span_length is_digit (String c r2)) as H2.
    destruct (span is_digit (String c r2)) as [ds r3]. simpl in H2.
    destruct ds as [|d0 ds]; [discriminate|].
    destruct r3 as [|d r4]; [discriminate|].
    destruct (Ascii.eqb d "."%char); [|discriminate].
    pose proof (span_length is_space r4) as H3.
    destruct (span is_space r4) as [ws r5]. simpl in H3.
    destruct ws; [discriminate|].
    intros H. inversion H; subst. simpl in *. lia.
Qed.

Lemma count_anchored_fuel m :
  (forall s b rest, m s = Some (b, rest) -> String.length rest < String.length s) ->
  forall f1 f2 bol s,
    String.length s <= f1 -> String.length s <= f2 ->
    count_anchored m f1 bol s = count_anchored m f2 bol s.
Proof.
  intros Hm. induction f1 as [|f1 IH]; intros f2 bol s H1 H2.
  - destruct s; [|simpl in H1; lia]. destruct f2; reflexivity.
  - destruct s as [|c s]; [destruct f2; reflexivity|].
    destruct f2 as [|f2]; [simpl in H2; lia|].
    cbn [count_anchored].
    destruct bol.
    + destruct (m (String c s)) as [[b rest]|] eqn:E.
      * apply Hm in E. f_equal. apply IH; simpl in *; lia.
      * apply IH; simpl in *; lia.
    + apply IH; simpl in *; lia.
Qed.

End RegexFacts.

Module EngineFacts.
Import PyStr Engine EngineContracts.

(** The state components that the sandbox leaves alone or only extends. *)
Lemma store_file_dirs d n x s : dirs (store_file d n x s) = dirs s.
Proof. reflexivity. Qed.

Lemma store_all_frame d l : forall s,
  dirs (store_all d l s) = dirs s /\ temp_dir (store_all d l s) = temp_dir s /\
  events (store_all d l s) = events s /\
  active_processes (store_all d l s) = active_processes s.
Proof.
  induction l as [|[n x] l IH]; intros s; simpl.
  - repeat split.
  - destruct (IH (store_file d n x s)) as (H1 & H2 & H3 & H4).
    rewrite H1, H2, H3, H4. repeat split.
Qed.

Lemma failed_result_returns task d st e s :
  failed_result task d st e s =
  (Returns (mkResult (agent_name task) (task_id task) false EmptyString
                     (Some (exc_msg e)) (clock s (clock_reads s) - st)%Q None
                     (Some [("workspace", MStr d)])),
   snd (time_time s)).
Proof. reflexivity. Qed.


Lemma run_worker_post task b d st s :
  worker_post task b s (run_worker task b d st s).
Proof.
  unfold worker_post, run_worker, abind, get, modify, may_raise, raise, ret.
  destruct (spawn_fault b) as [e|] eqn:Hsp; simpl.
  { split; [reflexivity|split; [reflexivity|intros; discriminate]]. }
  unfold communicate_with_timeout, try_finally, abind, modify, raise, ret.
  destruct (communicate b) as [out err code w| |e] eqn:Hc; simpl.
  - match goal with |- context [store_all d w ?s0] =>
      destruct (store_all_frame d w s0) as (H1 & H2 & _) end.
    destruct (scan_fault b) as [e|] eqn:Hsc; simpl.
    + split; [exact H1|split; [exact H2|intros; discriminate]].
    + match goal with |- context [collect_output_files ?l] =>
        destruct (collect_output_files l) as [fs|e] end; simpl.
      * split; [exact H1|split; [exact H2|]].
        split; [reflexivity|split; [reflexivity|split]].
        -- intros Hs. apply Z.eqb_eq in Hs. subst code.
           split; [reflexivity|split; [reflexivity|exists out, err, w; reflexivity]].
        -- intros Hs. rewrite Hs. destruct (truthy err); eauto.
      * split; [exact H1|split; [exact H2|intros; discriminate]].
  - split; [reflexivity|split; [reflexivity|]]. intros _ _. split; [reflexivity|].
    apply in_or_app. right. left. reflexivity.
  - split; [reflexivity|split; [reflexivity|intros; discriminate]].
Qed.

Lemma write_text_cases b d n c s :
  match write_fault b n with
  | Some e => write_text b d n c s = (Raises e, s)
  | None => write_text b d n c s = (Returns tt, store_file d n (Text c) s)
  end.
Proof.
  unfold write_text, abind, may_raise, modify, raise, ret.
  destruct (write_fault b n); reflexivity.
Qed.

Lemma write_all_post b d l : forall s,
  dirs (snd (write_all b d l s)) = dirs s /\
  temp_dir (snd (write_all b d l s)) = temp_dir s /\
  (forall u, fst (write_all b d l s) = Returns u ->
             forallb (fun f => negb (is_some (write_fault b (fst f)))) l = true).
Proof.
  induction l as [|[n c] l IH]; intros s; simpl.
  - repeat split.
  - unfold abind. pose proof (write_text_cases b d n c s) as Hw.
    destruct (write_fault b n) as [e|]; rewrite Hw; simpl.
    + split; [reflexivity|split; [reflexivity|intros; discriminate]].
    + destruct (IH (store_file d n (Text c) s)) as (H1 & H2 & H3).
      rewrite H1, H2. split; [reflexivity|split; [reflexivity|exact H3]].
Qed.

Lemma dir_exists_app d l s :
  dir_exists d (set_dirs (dirs s ++ l) s) = dir_exists d s || existsb (String.eqb d) l.
Proof. unfold dir_exists. simpl. apply existsb_app. Qed.


Lemma write_inputs_post task b d s :
  dirs (snd (write_inputs task b d s)) = dirs s /\
  temp_dir (snd (write_inputs task b d s)) = temp_dir s /\
  (forall u, fst (write_inputs task b d s) = Returns u ->
     forallb (fun f => negb (is_some (write_fault b (fst f))))
             (match input_files task with Some l => l | None => [] end) = true).
Proof.
  unfold write_inputs. destruct (input_files task) as [[|f l]|].
  - repeat split.
  - apply write_all_post.
  - repeat split.
Qed.

Lemma create_task_workspace_post task b s :
  workspace_post task b s (_create_task_workspace task b s).
Proof.
  unfold workspace_post, _create_task_workspace, abind, get.
  destruct (temp_dir s) as [td|] eqn:Htd; cbn [fst snd];
    [|split; [exact Htd|split; [tauto|exact I]]].
  unfold mkdir_exist_ok, abind, may_raise, modify, raise.
  destruct (mkdir_fault b) as [e|] eqn:Hmk; cbn [fst snd ret];
    [split; [exact Htd|split; [tauto|exact I]]|].
  set (d := path_join td (task_id task)).
  set (s1 := if dir_exists d s then s else set_dirs (dirs s ++ [d]) s).
  assert (Ht1 : temp_dir s1 = Some td).
  { unfold s1. destruct (dir_exists d s); simpl; exact Htd. }
  assert (Hd1 : dir_exists d s1 = true).
  { unfold s1. destruct (dir_exists d s) eqn:E; [exact E|].
    rewrite dir_exists_app. simpl. rewrite String.eqb_refl. apply orb_true_r. }
  assert (Hm1 : forall p, dir_exists p s = true -> dir_exists p s1 = true).
  { intros p Hp. unfold s1. destruct (dir_exists d s); [exact Hp|].
    rewrite dir_exists_app, Hp. reflexivity. }
  destruct (write_inputs_post task b d s1) as (Hi1 & Hi2 & Hi3).
  destruct (write_inputs task b d s1) as [[u|e] s2] eqn:Ei; cbn [fst snd] in *.
  - specialize (Hi3 u eq_refl).
    pose proof (write_text_cases b d "prompt.txt" (prompt task) s2) as Hw.
    unfold writes_ok. rewrite Hi3.
    destruct (write_fault b "prompt.txt") as [e|]; rewrite Hw; cbn [fst snd ret].
    + split; [congruence|split; [|exact I]].
      intros p Hp. unfold dir_exists. rewrite Hi1. apply Hm1, Hp.
    + split; [simpl; congruence|split].
      * intros p Hp. unfold dir_exists. simpl. rewrite Hi1. apply Hm1, Hp.
      * exists td. repeat split. unfold dir_exists. simpl. rewrite Hi1. exact Hd1.
  - split; [congruence|split; [|exact I]].
    intros p Hp. unfold dir_exists. rewrite Hi1. apply Hm1, Hp.
Qed.


Lemma execute_agent_task_unfold task b s :
  _execute_agent_task task b s =
  match _create_task_workspace task b (snd (time_time s)) with
  | (Returns d, s1) =>
      try_except (run_worker task b d (clock s (clock_reads s)))
                 (failed_result task d (clock s (clock_reads s))) s1
  | (Raises e, s1) => (Raises e, s1)
  end.
Proof. reflexivity. Qed.

Lemma execute_agent_task_post task b s :
  sandbox_post task b s (_execute_agent_task task b s).
Proof.
  unfold sandbox_post. rewrite execute_agent_task_unfold.
  set (s0 := snd (time_time s)).
  assert (Hs0 : temp_dir s0 = temp_dir s /\ dirs s0 = dirs s) by (split; reflexivity).
  destruct Hs0 as (Hs0t & Hs0d).
  pose proof (create_task_workspace_post task b s0) as (Hw1 & Hw2 & Hw3).
  destruct (_create_task_workspace task b s0) as [[d|e] s1] eqn:Ew; cbn [fst snd] in *.
  2:{ split; [congruence|split; [|reflexivity]]. intros p Hp. apply Hw2.
      unfold dir_exists. rewrite Hs0d. exact Hp. }
  assert (Hw2' : forall p, dir_exists p s = true -> dir_exists p s1 = true).
  { intros p Hp. apply Hw2. unfold dir_exists. rewrite Hs0d. exact Hp. }
  clear Hw2.
  destruct Hw3 as (td & Htd & Hd & Hex & Hmk & Hwr).
  unfold try_except.
  pose proof (run_worker_post task b d (clock s (clock_reads s)) s1) as (Hr1 & Hr2 & Hr3).
  destruct (run_worker task b d (clock s (clock_reads s)) s1) as [[res|e] s2] eqn:Er;
    cbn [fst snd] in *.
  - split; [congruence|split].
    + intros p Hp. unfold dir_exists. rewrite Hr1. apply Hw2'. exact Hp.
    + exists res. destruct Hr3 as (Hid & Hag & Hok & Hko).
      split; [reflexivity|split].
      { unfold dir_exists. rewrite Hr1. exact Hex. }
      split; [exact Hid|split; [exact Hag|split; [|split; [exact Hko|]]]].
      * intros Hs. destruct (Hok Hs) as (Hsp & Hsc & out & err & w & Hc).
        unfold clean_run. rewrite Hwr, Hmk, Hsp, Hsc, Hc. reflexivity.
      * intros Hsp Hc. exfalso.
        (* a returned result cannot come from a timed-out wait *)
        revert Er. unfold run_worker, abind, get, modify, may_raise, raise, ret.
        rewrite Hsp. cbn [fst snd].
        unfold communicate_with_timeout, try_finally, abind, modify, raise, ret.
        rewrite Hc. cbn. discriminate.
  - rewrite failed_result_returns. cbn [fst snd].
    split; [simpl; congruence|split].
    + intros p Hp. unfold dir_exists. simpl. rewrite Hr1. apply Hw2'. exact Hp.
    + eexists. split; [reflexivity|]. cbn.
      split; [unfold dir_exists; simpl; rewrite Hr1; exact Hex|].
      split; [reflexivity|split; [reflexivity|split; [discriminate|split; [eauto|]]]].
      intros Hsp Hc. destruct (Hr3 Hsp Hc) as (He & Hk). subst e.
      split; [reflexivity|split; [reflexivity|exact Hk]].
Qed.

(** [gather] keeps one outcome per awaitable, at its position. *)
Lemma gather_length {A} (aws : list (Action A)) : forall s,
  List.length (fst (gather aws s)) = List.length aws.
Proof.
  induction aws as [|a aws IH]; intros s; simpl; [reflexivity|].
  destruct (a s) as [r s1]. specialize (IH s1).
  destruct (gather aws s1) as [rs s2]. simpl in *. f_equal. exact IH.
Qed.

Lemma gather_nth {A} (aws : list (Action A)) : forall s i a,
  nth_error aws i = Some a ->
  exists si, nth_error (fst (gather aws s)) i = Some (fst (a si)).
Proof.
  induction aws as [|a0 aws IH]; intros s i a Hi.
  - destruct i; discriminate.
  - simpl. destruct (a0 s) as [r s1] eqn:E0.
    specialize (IH s1). destruct (gather aws s1) as [rs s2]. simpl in *.
    destruct i as [|i]; simpl in *.
    + inversion Hi; subst. exists s. rewrite E0. reflexivity.
    + apply IH. exact Hi.
Qed.

Lemma gather_frame (tasks : list (nat * AgentTask)) (oracle : nat -> Behaviour) :
  forall s,
    let r := gather (map (fun it => _execute_agent_task (snd it) (oracle (fst it))) tasks) s in
    temp_dir (snd r) = temp_dir s /\
    (forall p, dir_exists p s = true -> dir_exists p (snd r) = true).
Proof.
  induction tasks as [|[i t] tasks IH]; intros s; simpl.
  - split; [reflexivity|tauto].
  - pose proof (execute_agent_task_post t (oracle i) s) as (H1 & H2 & _).
    destruct (_execute_agent_task t (oracle i) s) as [r s1]. cbn [fst snd] in *.
    specialize (IH s1). cbn zeta in IH. destruct IH as (H3 & H4).
    destruct (gather _ s1) as [rs s2]. cbn [fst snd] in *.
    split; [congruence|]. intros p Hp. apply H4, H2, Hp.
Qed.

Lemma nth_error_enumerate_from {A} (l : list A) : forall k i x,
  nth_error l i = Some x ->
  nth_error (combine (seq k (List.length l)) l) i = Some (k + i, x).
Proof.
  induction l as [|y l IH]; intros k i x Hi.
  - destruct i; discriminate.
  - destruct i as [|i]; simpl in *.
    + inversion Hi. rewrite Nat.add_0_r. reflexivity.
    + rewrite (IH (S k) i x Hi). f_equal. f_equal. lia.
Qed.

Lemma nth_error_enumerate {A} (l : list A) i x :
  nth_error l i = Some x -> nth_error (enumerate l) i = Some (i, x).
Proof. intros H. unfold enumerate. apply (nth_error_enumerate_from l 0 i x H). Qed.

(** The conversion loop never raises and works position by position. *)
Lemma convert_results_from tasks : forall rs k s,
  k + List.length rs <= List.length tasks ->
  exists out,
    convert_results tasks (combine (seq k (List.length rs)) rs) s = (Returns out, s) /\
    List.length out = List.length rs /\
    forall j o t, nth_error rs j = Some o -> nth_error tasks (k + j) = Some t ->
                  nth_error out j = Some (converted t o).
Proof.
  induction rs as [|o rs IH]; intros k s Hk; simpl in *.
  - exists []. split; [reflexivity|split; [reflexivity|]].
    intros [|j]; discriminate.
  - destruct (nth_error tasks k) as [t|] eqn:Et.
    2:{ apply nth_error_None in Et. exfalso. lia. }
    assert (Hk' : S k + List.length rs <= List.length tasks) by (clear - Hk; lia).
    destruct (IH (S k) s Hk') as (out & Hc & Hl & Hn).
    exists (converted t o :: out).
    split.
    + unfold abind. destruct o as [r|e]; simpl.
      * unfold ret at 1. rewrite Hc. reflexivity.
      * unfold item. rewrite Et. simpl. rewrite Hc. reflexivity.
    + split; [simpl; congruence|].
      intros [|j] o' t' Ho Ht; cbn [nth_error] in *.
      * inversion Ho; subst. rewrite Nat.add_0_r in Ht. congruence.
      * apply (Hn j o' t' Ho). replace (S k + j) with (k + S j) by lia. exact Ht.
Qed.

(** The dispatcher, position by position. *)
Lemma execute_parallel_tasks_spec tasks oracle s :
  exists results s',
    execute_parallel_tasks tasks oracle s = (Returns results, s') /\
    List.length results = List.length tasks /\
    temp_dir s' = temp_dir s /\
    (forall p, dir_exists p s = true -> dir_exists p s' = true) /\
    forall i t, nth_error tasks i = Some t ->
      exists r, nth_error results i = Some r /\
        r_task_id r = task_id t /\ r_agent_name r = agent_name t /\
        (success r = true -> clean_run t (oracle i) = true) /\
        (success r = false -> exists msg, error r = Some msg).
Proof.
  destruct tasks as [|t0 tasks'].
  { exists [], s. split; [reflexivity|split; [reflexivity|split; [reflexivity|split; [tauto|]]]].
    intros [|i]; discriminate. }
  unfold execute_parallel_tasks.
  remember (t0 :: tasks') as tasks eqn:Etasks. clear Etasks t0 tasks'.
  set (aws := map (fun it => _execute_agent_task (snd it) (oracle (fst it))) (enumerate tasks)).
  pose proof (gather_length aws s) as Hlen.
  pose proof (gather_frame (enumerate tasks) oracle s) as Hfr. cbn zeta in Hfr.
  fold aws in Hfr. destruct Hfr as (Hft & Hfd).
  assert (Hnth : forall i a, nth_error aws i = Some a ->
            exists si, nth_error (fst (gather aws s)) i = Some (fst (a si)))
    by (intros i a; apply gather_nth).
  destruct (gather aws s) as [results s'] eqn:Eg. cbn [fst snd] in *.
  assert (Hl : List.length results = List.length tasks).
  { rewrite Hlen. unfold aws, enumerate.
    rewrite length_map, length_combine, length_seq. apply Nat.min_id. }
  destruct (convert_results_from tasks results 0 s') as (out & Hc & Hlo & Hn); [lia|].
  fold (enumerate results) in Hc.
  exists out, s'. split; [exact Hc|]. split; [congruence|].
  split; [exact Hft|split; [exact Hfd|]].
  intros i t Hi.
  assert (Ha : nth_error aws i = Some (_execute_agent_task t (oracle i))).
  { unfold aws. rewrite nth_error_map, (nth_error_enumerate tasks i t Hi). reflexivity. }
  destruct (Hnth _ _ Ha) as (si & Hri).
  exists (converted t (fst (_execute_agent_task t (oracle i) si))).
  split; [apply (Hn i _ t Hri); exact Hi|].
  pose proof (execute_agent_task_post t (oracle i) si) as (_ & _ & Hp).
  destruct (fst (_create_task_workspace t (oracle i) (snd (time_time si)))) as [d|e].
  - destruct Hp as (res & Hres & _ & Hid & Hag & Hok & Hko & _).
    rewrite Hres. cbn. repeat split; assumption.
  - rewrite Hp. cbn.
    split; [reflexivity|split; [reflexivity|split; [discriminate|eauto]]].
Qed.

(** ** The dispatcher (claim C1) *)

Lemma gather_nth_exact {A} (aws : list (Action A)) : forall s i a,
  nth_error aws i = Some a ->
  nth_error (fst (gather aws s)) i
  = Some (fst (a (snd (gather (firstn i aws) s)))).
Proof.
  induction aws as [|a0 aws IH]; intros s i a Hi.
  - destruct i; discriminate.
  - destruct i as [|i].
    + cbn in Hi. injection Hi as <-. cbn [firstn gather snd].
      cbn [gather]. destruct (a0 s) as [r s1]. destruct (gather aws s1) as [rs s2].
      reflexivity.
    + cbn [nth_error] in Hi. specialize (IH (snd (a0 s)) i a Hi).
      cbn [firstn gather]. destruct (a0 s) as [r s1]. cbn [snd] in IH.
      destruct (gather aws s1) as [rs s2]. cbn [fst] in IH.
      destruct (gather (firstn i aws) s1) as [rs' s2']. cbn [fst snd nth_error] in *.
      exact IH.
Qed.

(** The part of C1 that holds.  For every list of submitted tasks,
    [execute_parallel_tasks] returns (it never raises) a list with
    exactly one result per task, in the order of the tasks.  Result [i]
    is the outcome of running task [i]: the result that
    [_execute_agent_task] returned for it, or, when that call raised,
    a failed result made from the exception.  It carries the identifier
    and agent name of task [i], has [success = true] only when nothing
    failed in that run, and otherwise has its error field set. *)
Lemma execute_parallel_tasks_complete :
  forall tasks oracle s,
  exists results s',
    execute_parallel_tasks tasks oracle s = (Returns results, s') /\
    List.length results = List.length tasks /\
    forall i t, nth_error tasks i = Some t ->
      exists r, nth_error results i = Some r /\
        r = converted t (fst (_execute_agent_task t (oracle i)
                                (state_before tasks oracle i s))) /\
        (forall e,
            fst (_execute_agent_task t (oracle i) (state_before tasks oracle i s))
            = Raises e ->
            success r = false /\ error r = Some (str_of_exc e)) /\
        r_task_id r = task_id t /\ r_agent_name r = agent_name t /\
        (success r = true -> clean_run t (oracle i) = true) /\
        (success r = false -> exists msg, error r = Some msg).
Proof.
  intros tasks oracle s.
  destruct tasks as [|t0 tasks'].
  { exists [], s. split; [reflexivity|split; [reflexivity|]].
    intros [|i]; discriminate. }
  unfold execute_parallel_tasks, state_before.
  remember (t0 :: tasks') as tasks eqn:Etasks. clear Etasks t0 tasks'.
  set (run := fun it : nat * AgentTask => _execute_agent_task (snd it) (oracle (fst it))).
  set (aws := map run (enumerate tasks)).
  pose proof (gather_length aws s) as Hlen.
  assert (Hnth : forall i a, nth_error aws i = Some a ->
            nth_error (fst (gather aws s)) i
            = Some (fst (a (snd (gather (firstn i aws) s)))))
    by (intros i a; apply gather_nth_exact).
  destruct (gather aws s) as [results s'] eqn:Eg. cbn [fst snd] in *.
  assert (Hl : List.length results = List.length tasks).
  { rewrite Hlen. unfold aws, enumerate.
    rewrite length_map, length_combine, length_seq. apply Nat.min_id. }
  destruct (convert_results_from tasks results 0 s') as (out & Hc & Hlo & Hn); [lia|].
  fold (enumerate results) in Hc.
  exists out, s'. split; [exact Hc|]. split; [congruence|].
  intros i t Hi.
  assert (Ha : nth_error aws i = Some (_execute_agent_task t (oracle i))).
  { unfold aws. rewrite nth_error_map, (nth_error_enumerate tasks i t Hi). reflexivity. }
  pose proof (Hnth _ _ Ha) as Hri.
  unfold aws in Hri. rewrite firstn_map in Hri.
  set (si := snd (gather (map run (firstn i (enumerate tasks))) s)) in *.
  exists (converted t (fst (_execute_agent_task t (oracle i) si))).
  split; [apply (Hn i _ t Hri); exact Hi|].
  split; [reflexivity|].
  split; [intros e He; rewrite He; split; reflexivity|].
  pose proof (execute_agent_task_post t (oracle i) si) as (_ & _ & Hp).
  destruct (fst (_create_task_workspace t (oracle i) (snd (time_time si)))) as [d|e].
  - destruct Hp as (res & Hres & _ & Hid & Hag & Hok & Hko & _).
    rewrite Hres. cbn. repeat split; assumption.
  - rewrite Hp. cbn.
    split; [reflexivity|split; [reflexivity|split; [discriminate|eauto]]].
Qed.

(** C1 at the failing input.  A task whose worker cannot be started
    because the event loop raises [NotImplementedError()] is reported
    with [success = false] and the empty string as its error text: the
    [except] clause stores [str(e)] as it is.  The path on which the
    worker ran does fill the text in: a worker that exits with code 2
    and writes nothing is reported with "Process exited with code 2". *)
Lemma failure_without_error_text :
  (exists r,
      fst (execute_parallel_tasks [test_task_1] (fun _ => spawn_unsupported)
                                  engine_entered) = Returns [r] /\
      r_task_id r = "test_task_1" /\ success r = false /\
      error r = Some EmptyString) /\
  (exists r,
      fst (execute_parallel_tasks [test_task_1] (fun _ => worker_fails_silently)
                                  engine_entered) = Returns [r] /\
      r_task_id r = "test_task_1" /\ success r = false /\
      error r = Some "Process exited with code 2").
Proof.
  split; eexists; (split; [vm_compute; reflexivity|repeat split]).
Qed.

(** ** The sandbox (claims C2 and C3) *)




Lemma terminate_all_frame ps : forall s,
  dirs (terminate_all ps s) = dirs s /\ temp_dir (terminate_all ps s) = temp_dir s.
Proof.
  induction ps as [|[tid p] ps IH]; intros s; simpl; [split; reflexivity|].
  destruct (returncode p); [apply IH|].
  destruct (ignores_terminate p);
    match goal with |- context [terminate_all ps ?s0] =>
      destruct (IH s0) as (H1 & H2); rewrite H1, H2; split; reflexivity end.
Qed.


Lemma append_assoc3 a b c : ((a ++ b) ++ c)%string = (a ++ b ++ c)%string.
Proof. induction a as [|x a IH]; simpl; [reflexivity|rewrite IH; reflexivity]. Qed.


Lemma rmtree_removes d p s : under d p = true -> dir_exists p (rmtree d s) = false.
Proof.
  intros Hu. unfold dir_exists, rmtree. simpl.
  induction (dirs s) as [|q l IH]; simpl; [reflexivity|].
  destruct (under d q) eqn:Eq; simpl; [exact IH|].
  rewrite IH, orb_false_r.
  destruct (String.eqb p q) eqn:E; [|reflexivity].
  apply String.eqb_eq in E. subst q. congruence.
Qed.





(** ** Selection inside the engine (claim C10) *)

Lemma build_tasks_spec mk : forall agents s,
  exists tasks s',
    build_tasks mk agents s = (Returns tasks, s') /\
    List.length tasks = List.length agents /\
    forall i k name, nth_error agents i = Some (k, name) ->
      exists now limit, nth_error tasks i = Some (mk k name now limit).
Proof.
  induction agents as [|[k name] agents IH]; intros s.
  - exists [], s. split; [reflexivity|split; [reflexivity|]].
    intros [|i]; discriminate.
  - destruct (IH (snd (time_time s))) as (tasks & s' & Hb & Hl & Hn).
    unfold time_time in Hb. cbn [snd] in Hb.
    exists (mk k name (int_of_Q (clock s (clock_reads s)))
               (execution_timeout_seconds s) :: tasks), s'.
    split; [|split].
    + cbn [build_tasks]. unfold abind, time_time, get.
      cbn [fst snd execution_timeout_seconds]. rewrite Hb. reflexivity.
    + simpl. congruence.
    + intros [|i] k' name' Hi; cbn [nth_error] in *.
      * inversion Hi; subst. eauto.
      * apply (Hn i k' name' Hi).
Qed.

Lemma find_first {A} (p : A -> bool) : forall l r,
  find p l = Some r ->
  exists i, nth_error l i = Some r /\ p r = true /\
            forall j r', j < i -> nth_error l j = Some r' -> p r' = false.
Proof.
  induction l as [|x l IH]; intros r Hf; [discriminate|].
  simpl in Hf. destruct (p x) eqn:Ex.
  - inversion Hf; subst. exists 0. split; [reflexivity|split; [exact Ex|]].
    intros j r' Hj. lia.
  - destruct (IH r Hf) as (i & Hi & Hp & Hb).
    exists (S i). split; [exact Hi|split; [exact Hp|]].
    intros [|j] r' Hj Hn; cbn [nth_error] in Hn.
    + inversion Hn; subst. exact Ex.
    + apply (Hb j r'); [lia|exact Hn].
Qed.

Lemma is_some_find {A} (p : A -> bool) l :
  is_some (find p l) = true <-> exists r, In r l /\ p r = true.
Proof.
  split.
  - destruct (find p l) as [r|] eqn:E; [|discriminate].
    intros _. exists r. apply (find_some _ _ E).
  - intros (r & Hin & Hp). destruct (find p l) as [r'|] eqn:E; [reflexivity|].
    rewrite (find_none _ _ E r Hin) in Hp. discriminate.
Qed.

Lemma orchestrate_shape agents mk oracle ty meta :
  (forall k n now l, agent_name (mk k n now l) = n) ->
  selects_first_success agents
    (start_time <~ time_time ;;
     tasks <~ build_tasks mk (enumerate agents) ;;
     results <~ execute_parallel_tasks tasks oracle ;;
     finish ty start_time results meta).
Proof.
  intros Hmk s.
  destruct (build_tasks_spec mk (enumerate agents) (snd (time_time s)))
    as (tasks & s1 & Hb & Hl & Hn).
  destruct (execute_parallel_tasks_spec tasks oracle s1)
    as (results & s2 & He & Hlr & _ & _ & Hr).
  unfold time_time in Hb. cbn [snd] in Hb.
  eexists. eexists. exists results.
  split.
  { unfold abind. unfold time_time at 1. cbv beta iota. rewrite Hb.
    cbv beta iota. rewrite He. cbv beta iota.
    unfold finish, abind, time_time, ret. cbv beta iota. reflexivity. }
  cbn [o_all_results o_selected_result o_success].
  split; [reflexivity|]. split.
  { rewrite Hlr, Hl. unfold enumerate. rewrite length_combine, length_seq.
    apply Nat.min_id. }
  split.
  { intros i a Hi.
    destruct (Hn i i a (nth_error_enumerate agents i a Hi)) as (now & limit & Ht).
    destruct (Hr i _ Ht) as (r & Hri & _ & Hag & _).
    exists r. split; [exact Hri|]. rewrite Hag. apply Hmk. }
  split; [reflexivity|]. split; [apply is_some_find|].
  intros r Hsel. apply find_first. exact Hsel.
Qed.


End EngineFacts.

Module FeatFacts.
Import PyStr Regex FeatEval EvalContracts.

(** ** Structural validation (claim C4) *)

Lemma Qnat_nonneg n : (0 <= Qnat n)%Q.
Proof. unfold Qnat, Qle. simpl. lia. Qed.

Lemma Qnat_pos n : 0 < n -> (0 < Qnat n)%Q.
Proof. intros H. unfold Qnat, Qlt. simpl. lia. Qed.

Lemma length_list_of_difference {order : SetOrder} a b :
  List.length (list_of_difference a b) = List.length (difference_elements a b).
Proof. apply Permutation_length, list_of_difference_perm. Qed.

(** The worked example of the specification: headers "Overview",
    "2. API" and "Testing" against the expected sections overview, api
    and testing. *)
Example headers_match_expected_outline :
  let v := validate_structure
             ("# Overview" ++ newline ++ "## 2. API" ++ newline ++ "## Testing")
             ["overview"; "api"; "testing"] in
  found_sections v = ["overview"; "api"; "testing"] /\
  missing_sections v = [] /\ extra_sections v = [] /\
  is_valid v = true /\ structure_score v = 1.0%Q.
Proof. vm_compute. repeat split. Qed.

(** C4, as stated, fails: with two expected sections, both missing, and
    one extra section, the score is 0.65; a flat penalty of 0.3 per
    missing and 0.1 per extra section would give 0.3. *)
Lemma structure_score_not_flat_penalty :
  let v := validate_structure "# Notes" ["overview"; "api"] in
  List.length (missing_sections v) = 2 /\
  List.length (extra_sections v) = 1 /\
  (structure_score v == 0.65)%Q /\
  ~ (structure_score v == Qmax 0.0 (1.0 - (0.3 * Qnat 2 + 0.1 * Qnat 1)))%Q.
Proof.
  split; [reflexivity|split; [reflexivity|split]].
  - vm_compute. reflexivity.
  - intros H. vm_compute in H. discriminate.
Qed.

(** C4, amended.  [validate_structure] returns [structure_score] 1.0
    when the expected list is empty; otherwise the score is
    max(0.0, 1.0 - (0.3 * missing + 0.1 * extra) / len(expected)): the
    penalty of 0.3 per missing and 0.1 per extra section is divided by
    the number of expected sections before it is subtracted.  Missing
    and extra count the distinct normalised titles that are expected but
    not found, and found but not expected. *)
Theorem structure_score_formula :
  forall (order : SetOrder) content expected,
    let v := validate_structure content expected in
    let found := extract_section_structure content in
    let missing := List.length (difference_elements expected found) in
    let extra := List.length (difference_elements found expected) in
    List.length (missing_sections v) = missing /\
    List.length (extra_sections v) = extra /\
    is_valid v = (missing =? 0) /\
    match expected with
    | [] => (structure_score v == 1.0)%Q
    | _ =>
        (structure_score v ==
         Qmax 0.0 (1.0 - (Qnat missing * 0.3 + Qnat extra * 0.1)
                          / Qnat (List.length expected)))%Q
    end.
Proof.
  intros order content expected. cbv zeta.
  set (found := extract_section_structure content).
  pose proof (length_list_of_difference expected found) as Hm.
  pose proof (length_list_of_difference found expected) as He.
  unfold validate_structure. fold found.
  set (m := List.length (difference_elements expected found)) in *.
  set (e := List.length (difference_elements found expected)) in *.
  destruct expected as [|x expected'].
  - cbn [missing_sections extra_sections is_valid structure_score].
    split; [exact Hm|split; [exact He|split; [|reflexivity]]].
    reflexivity.
  - set (expected := x :: expected') in *.
    destruct (list_of_difference expected found) as [|a ms] eqn:Em;
      destruct (list_of_difference found expected) as [|b es] eqn:Ex;
      cbn [missing_sections extra_sections is_valid structure_score].
    + split; [exact Hm|split; [exact He|]].
      rewrite <- Hm, <- He. split; [reflexivity|].
      cbn [List.length]. unfold Qnat at 1 2. cbn [Z.of_nat inject_Z].
      assert (Hz : ((0 # 1) * 0.3 + (0 # 1) * 0.1 == 0)%Q) by reflexivity.
      assert (Hq : (1.0 - ((0 # 1) * 0.3 + (0 # 1) * 0.1) / Qnat (List.length expected)
                    == 1.0)%Q).
      { unfold Qdiv. rewrite Hz, Qmult_0_l. reflexivity. }
      rewrite (Q.max_r 0.0 _); [symmetry; exact Hq|].
      rewrite Hq. discriminate.
    + split; [exact Hm|split; [exact He|]].
      rewrite <- Hm, <- He. split; reflexivity.
    + split; [exact Hm|split; [exact He|]].
      rewrite <- Hm, <- He. split; reflexivity.
    + split; [exact Hm|split; [exact He|]].
      rewrite <- Hm, <- He. split; reflexivity.
Qed.

(** ** Bounds on the criteria *)

Lemma clamp01_in01 q : in01 (clamp01 q).
Proof.
  unfold in01, clamp01. split.
  - apply Q.le_max_l.
  - apply Q.max_lub; [discriminate|apply Q.le_min_l].
Qed.

Lemma clamped_in01 t : in01 (t_score (clamped t)).
Proof. apply clamp01_in01. Qed.

Lemma implementation_detail_in01 c : in01 (t_score (evaluate_implementation_detail c)).
Proof. exact (clamped_in01 _). Qed.

Lemma technical_accuracy_in01 c : in01 (t_score (evaluate_technical_accuracy c)).
Proof. exact (clamped_in01 _). Qed.

Lemma clarity_in01 c : in01 (t_score (evaluate_clarity c)).
Proof. exact (clamped_in01 _). Qed.

Lemma language_specificity_in01 c l : in01 (t_score (evaluate_language_specificity c l)).
Proof.
  unfold evaluate_language_specificity.
  destruct l as [[|a l]|].
  - destruct (any_in _ _); split; discriminate.
  - destruct (language_patterns _); exact (clamped_in01 _).
  - destruct (any_in _ _); split; discriminate.
Qed.

Lemma Qdiv_nonneg a b : (0 <= a -> 0 < b -> 0 <= a / b)%Q.
Proof.
  intros Ha Hb. unfold Qdiv. apply Qmult_le_0_compat; [exact Ha|].
  apply Qlt_le_weak, Qinv_lt_0_compat, Hb.
Qed.

Lemma Qdiv_pos a b : (0 < a -> 0 < b -> 0 < a / b)%Q.
Proof.
  intros Ha Hb. unfold Qdiv. apply Qmult_lt_0_compat; [exact Ha|].
  apply Qinv_lt_0_compat, Hb.
Qed.

(** The structural score is in [0, 1], and strictly below 1 for a
    candidate that is not valid. *)
Lemma structure_score_bounds {order : SetOrder} content expected :
  let v := validate_structure content expected in
  in01 (structure_score v) /\ (is_valid v = false -> (structure_score v < 1)%Q).
Proof.
  cbv zeta. unfold validate_structure.
  set (found := extract_section_structure content).
  destruct expected as [|x expected'].
  { cbn. split; [split; discriminate|discriminate]. }
  set (expected := x :: expected').
  set (ms := list_of_difference expected found).
  set (es := list_of_difference found expected).
  assert (Hlen : (0 < Qnat (List.length expected))%Q)
    by (apply Qnat_pos; unfold expected; simpl; lia).
  assert (Hgen :
    let total := (Qnat (List.length ms) * 0.3 + Qnat (List.length es) * 0.1)%Q in
    let sc := Qmax 0.0 (1.0 - total / Qnat (List.length expected))%Q in
    in01 sc /\ ((List.length ms =? 0) = false -> (sc < 1)%Q)).
  { cbv zeta.
    pose proof (Qnat_nonneg (List.length ms)) as Hm.
    pose proof (Qnat_nonneg (List.length es)) as He.
    set (total := (Qnat (List.length ms) * 0.3 + Qnat (List.length es) * 0.1)%Q).
    assert (Ht : (0 <= total)%Q) by (unfold total; lra).
    pose proof (Qdiv_nonneg _ _ Ht Hlen) as Hd.
    split; [split|].
    - apply Qle_trans with 0.0%Q; [discriminate|apply Q.le_max_l].
    - apply Q.max_lub; [discriminate|]. lra.
    - intros Hz. apply Nat.eqb_neq in Hz.
      assert (Hm1 : (1 <= Qnat (List.length ms))%Q).
      { unfold Qnat, Qle. simpl. lia. }
      assert (Htp : (0 < total)%Q) by (unfold total; lra).
      pose proof (Qdiv_pos _ _ Htp Hlen) as Hdp.
      apply Q.max_lub_lt; [reflexivity|lra]. }
  cbv zeta in Hgen.
  destruct ms as [|a ms']; destruct es as [|b es'];
    cbn [is_valid structure_score];
    try exact Hgen.
  split; [split; discriminate|discriminate].
Qed.

Lemma overall_bounds {order : SetOrder} {M} content expected language (meta : option M) :
  let s := evaluate_feature content expected language meta in
  in01 (overall_score s) /\
  (is_valid (structural_validation s) = false -> (overall_score s < 1)%Q).
Proof.
  cbv zeta. unfold evaluate_feature. cbv zeta.
  set (v := validate_structure content _).
  destruct (structure_score_bounds content
              (match expected with Some l => l | None => [] end)) as ((Hs0 & Hs1) & Hsv).
  fold v in Hs0, Hs1, Hsv.
  destruct (implementation_detail_in01 content) as (Hi0 & Hi1).
  destruct (language_specificity_in01 content language) as (Hl0 & Hl1).
  destruct (technical_accuracy_in01 content) as (Ht0 & Ht1).
  destruct (clarity_in01 content) as (Hc0 & Hc1).
  destruct (is_valid v) eqn:Ev; cbn [overall_score structural_validation];
    unfold w_structural_integrity, w_implementation_detail, w_language_specificity,
           w_technical_accuracy, w_clarity;
    (split; [split; lra|]).
  - rewrite Ev. discriminate.
  - rewrite Ev. intros _. specialize (Hsv eq_refl). lra.
Qed.

(** ** The stable descending sort *)

Section SortFacts.
Context {A : Type} (key : A -> Q).

Lemma Qlt_bool_true x y : Qlt_bool x y = true -> (x < y)%Q.
Proof.
  unfold Qlt_bool. intros H. apply negb_true_iff in H.
  apply Qnot_le_lt. intros Hle. apply Qle_bool_iff in Hle. congruence.
Qed.

Lemma Qlt_bool_false x y : Qlt_bool x y = false -> (y <= x)%Q.
Proof.
  unfold Qlt_bool. intros H. apply negb_false_iff in H.
  apply Qle_bool_iff. exact H.
Qed.

Lemma in_insert_desc x l : forall z, In z (insert_desc key x l) <-> z = x \/ In z l.
Proof.
  induction l as [|y l IH]; intros z; simpl.
  - intuition.
  - destruct (Qlt_bool (key x) (key y)); simpl; [rewrite IH|]; intuition.
Qed.

Lemma in_sort_desc l : forall z, In z (sort_desc key l) <-> In z l.
Proof.
  induction l as [|x l IH]; intros z; simpl; [tauto|].
  rewrite in_insert_desc, IH. intuition.
Qed.

Lemma length_insert_desc x l : List.length (insert_desc key x l) = S (List.length l).
Proof.
  induction l as [|y l IH]; simpl; [reflexivity|].
  destruct (Qlt_bool (key x) (key y)); simpl; [rewrite IH|]; reflexivity.
Qed.

Lemma length_sort_desc l : List.length (sort_desc key l) = List.length l.
Proof.
  induction l as [|x l IH]; simpl; [reflexivity|].
  rewrite length_insert_desc, IH. reflexivity.
Qed.

Lemma perm_insert_desc x l : Permutation (insert_desc key x l) (x :: l).
Proof.
  induction l as [|y l IH]; simpl; [apply Permutation_refl|].
  destruct (Qlt_bool (key x) (key y)); [|apply Permutation_refl].
  eapply Permutation_trans; [apply perm_skip, IH|apply perm_swap].
Qed.

Lemma perm_sort_desc l : Permutation (sort_desc key l) l.
Proof.
  induction l as [|x l IH]; simpl; [apply Permutation_refl|].
  eapply Permutation_trans; [apply perm_insert_desc|apply perm_skip, IH].
Qed.

Lemma descending_insert x l : descending key l -> descending key (insert_desc key x l).
Proof.
  induction 1 as [|y l Hy Hl IH]; simpl.
  - constructor; [constructor|constructor].
  - destruct (Qlt_bool (key x) (key y)) eqn:E.
    + constructor; [|exact IH].
      apply Forall_forall. intros z Hz. apply in_insert_desc in Hz.
      destruct Hz as [->|Hz].
      * apply Qlt_le_weak, Qlt_bool_true, E.
      * rewrite Forall_forall in Hy. apply Hy, Hz.
    + apply Qlt_bool_false in E.
      constructor; [|constructor; assumption].
      constructor; [exact E|].
      apply Forall_forall. intros z Hz. rewrite Forall_forall in Hy.
      unfold key_ge in *. eapply Qle_trans; [apply (Hy z Hz)|exact E].
Qed.

Lemma descending_sort l : descending key (sort_desc key l).
Proof.
  induction l as [|x l IH]; simpl; [constructor|].
  apply descending_insert, IH.
Qed.

Lemma descending_nth l : descending key l ->
  forall i j a b, i < j -> nth_error l i = Some a -> nth_error l j = Some b ->
                  (key b <= key a)%Q.
Proof.
  induction 1 as [|x l Hx Hl IH]; intros i j a b Hij Ha Hb.
  - destruct i; discriminate.
  - destruct j as [|j]; [lia|]. cbn [nth_error] in Hb.
    destruct i as [|i]; cbn [nth_error] in Ha.
    + inversion Ha; subst. rewrite Forall_forall in Hx.
      apply (Hx b). eapply nth_error_In, Hb.
    + apply (IH i j a b); [lia|exact Ha|exact Hb].
Qed.
End SortFacts.

(** ** Ranking of feature specifications (claim C5) *)

Lemma in_score_candidates {order : SetOrder} candidates expected language item :
  In item (score_candidates candidates expected language) ->
  exists (c : Candidate) content,
    snd item = evaluate_feature content expected language (Some c).
Proof.
  unfold score_candidates. intros H. apply in_flat_map in H.
  destruct H as ([i c] & _ & H). cbn [fst snd] in H.
  destruct (truthy (candidate_text c)); [|contradiction].
  destruct H as [<-|[]]. exists c, (candidate_text c). reflexivity.
Qed.

Lemma sort_key_sign {order : SetOrder} candidates expected language item :
  In item (score_candidates candidates expected language) ->
  if is_valid (structural_validation (snd item))
  then (0 <= sort_key item)%Q
  else (sort_key item < 0)%Q.
Proof.
  intros H. destruct (in_score_candidates _ _ _ _ H) as (c & content & Hs).
  pose proof (overall_bounds content expected language (Some c)) as Hb.
  cbv zeta in Hb. rewrite <- Hs in Hb. destruct Hb as ((H0 & H1) & Hv).
  unfold sort_key. destruct (is_valid (structural_validation (snd item))).
  - lra.
  - specialize (Hv eq_refl). lra.
Qed.

Lemma rank_features_sorted {order : SetOrder} candidates expected language ranked :
  rank_features candidates expected language = Returns ranked ->
  ranked = sort_desc sort_key (score_candidates candidates expected language).
Proof.
  unfold rank_features, bind.
  destruct (first_item _); intros H; inversion H. reflexivity.
Qed.

Lemma scored_nonempty {order : SetOrder} candidates expected language :
  scored_indices candidates <> [] ->
  score_candidates candidates expected language <> [].
Proof.
  unfold scored_indices, score_candidates.
  induction (enumerate candidates) as [|ic l IH]; cbn [filter flat_map map];
    [intros H _; apply H; reflexivity|].
  destruct (truthy (candidate_text (snd ic))); [intros _; discriminate|exact IH].
Qed.

Lemma scored_complete {order : SetOrder} candidates expected language i c :
  nth_error candidates i = Some c -> candidate_text c <> EmptyString ->
  In (i, evaluate_feature (candidate_text c) expected language (Some c))
     (score_candidates candidates expected language).
Proof.
  intros Hi Ht. unfold score_candidates. apply in_flat_map.
  exists (i, c). split.
  - apply nth_error_In with i. apply EngineFacts.nth_error_enumerate, Hi.
  - cbn [fst snd]. destruct (candidate_text c); [contradiction Ht; reflexivity|].
    left. reflexivity.
Qed.

(** C5. Whenever some candidate has content, [rank_features] returns a
    list that holds every scored candidate, each with the evaluation of
    its own text, and in that list no candidate whose structural
    validation is not valid stands before a valid one, whatever the
    overall scores are.  In particular an invalid entry with overall
    score 0.95 is placed after a valid entry with overall score 0.40:
    its sort key is then -0.05 against 0.40. *)
Theorem rank_features_valid_first :
  forall (order : SetOrder) candidates expected language,
    scored_indices candidates <> [] ->
    exists ranked,
      rank_features candidates expected language = Returns ranked /\
      Permutation ranked (score_candidates candidates expected language) /\
      (forall i c,
          nth_error candidates i = Some c -> candidate_text c <> EmptyString ->
          In (i, evaluate_feature (candidate_text c) expected language (Some c))
             ranked) /\
      (forall i j a b,
          nth_error ranked i = Some a -> nth_error ranked j = Some b ->
          is_valid (structural_validation (snd a)) = false ->
          is_valid (structural_validation (snd b)) = true ->
          j < i) /\
      (forall i j a b,
          nth_error ranked i = Some a -> nth_error ranked j = Some b ->
          (overall_score (snd a) == 0.95)%Q ->
          is_valid (structural_validation (snd a)) = false ->
          (overall_score (snd b) == 0.40)%Q ->
          is_valid (structural_validation (snd b)) = true ->
          (sort_key a == -0.05)%Q /\ (sort_key b == 0.40)%Q /\ j < i).
Proof.
  intros order candidates expected language Hne.
  set (scored := score_candidates candidates expected language).
  set (ranked := sort_desc sort_key scored).
  assert (Hperm : Permutation ranked scored) by apply perm_sort_desc.
  assert (Hret : rank_features candidates expected language = Returns ranked).
  { unfold rank_features. cbv zeta. fold scored. fold ranked.
    destruct ranked as [|x l] eqn:E; [|reflexivity].
    exfalso. apply (scored_nonempty candidates expected language Hne).
    fold scored. apply Permutation_nil. exact Hperm. }
  assert (Hfirst : forall i j a b,
             nth_error ranked i = Some a -> nth_error ranked j = Some b ->
             is_valid (structural_validation (snd a)) = false ->
             is_valid (structural_validation (snd b)) = true ->
             j < i).
  { intros i j a b Ha Hb Hia Hvb.
    pose proof (descending_sort sort_key scored) as Hd. fold ranked in Hd.
    assert (Hina : In a scored)
      by (apply (Permutation_in _ Hperm); eapply nth_error_In, Ha).
    assert (Hinb : In b scored)
      by (apply (Permutation_in _ Hperm); eapply nth_error_In, Hb).
    pose proof (sort_key_sign _ _ _ _ Hina) as Hsa. rewrite Hia in Hsa.
    pose proof (sort_key_sign _ _ _ _ Hinb) as Hsb. rewrite Hvb in Hsb.
    destruct (Nat.lt_trichotomy i j) as [Hlt|[Heq|Hgt]]; [| |exact Hgt].
    + pose proof (descending_nth sort_key ranked Hd i j a b Hlt Ha Hb). lra.
    + subst j. rewrite Ha in Hb. inversion Hb; subst. congruence. }
  exists ranked. split; [exact Hret|split; [exact Hperm|split; [|split]]].
  - intros i c Hi Ht. apply (Permutation_in _ (Permutation_sym Hperm)).
    apply scored_complete; assumption.
  - exact Hfirst.
  - intros i j a b Ha Hb Hoa Hia Hob Hvb.
    split; [|split; [|apply (Hfirst i j a b); assumption]].
    + unfold sort_key. rewrite Hia, Hoa. reflexivity.
    + unfold sort_key. rewrite Hvb, Hob. reflexivity.
Qed.

Lemma rank_features_valid_first_witness :
  let candidates := [detailed_but_incomplete; on_topic] in
  let score c :=
    evaluate_feature (candidate_text c) (Some expected_outline) (Some "go") (Some c) in
  scored_indices candidates <> [] /\
  is_valid (structural_validation (score detailed_but_incomplete)) = false /\
  is_valid (structural_validation (score on_topic)) = true /\
  (overall_score (score on_topic) < overall_score (score detailed_but_incomplete))%Q /\
  exists ranked,
    rank_features candidates (Some expected_outline) (Some "go") = Returns ranked /\
    map fst ranked = [1; 0] /\
    (forall i j a b,
        nth_error ranked i = Some a -> nth_error ranked j = Some b ->
        is_valid (structural_validation (snd a)) = false ->
        is_valid (structural_validation (snd b)) = true ->
        j < i).
Proof.
  cbv zeta.
  assert (Hne : scored_indices [detailed_but_incomplete; on_topic] <> [])
    by (vm_compute; discriminate).
  split; [exact Hne|].
  split; [vm_compute; reflexivity|].
  split; [vm_compute; reflexivity|].
  split; [vm_compute; reflexivity|].
  destruct (rank_features_valid_first first_occurrence_order
              [detailed_but_incomplete; on_topic] (Some expected_outline) (Some "go") Hne)
    as (ranked & Hr & _ & _ & Hv & _).
  exists ranked. split; [exact Hr|split; [|exact Hv]].
  assert (E : map fst (returned (rank_features [detailed_but_incomplete; on_topic]
                                   (Some expected_outline) (Some "go"))) = [1; 0])
    by (vm_compute; reflexivity).
  rewrite Hr in E. exact E.
Defined.

(** ** Determinism of scoring (claim C6) *)

(** The structural score and validity depend only on how many sections
    are missing and extra, not on the order in which a set lists them. *)
Lemma validate_structure_order_free (o1 o2 : SetOrder) content expected :
  structure_score (@validate_structure o1 content expected)
  = structure_score (@validate_structure o2 content expected) /\
  is_valid (@validate_structure o1 content expected)
  = is_valid (@validate_structure o2 content expected).
Proof.
  unfold validate_structure.
  set (found := extract_section_structure content).
  destruct expected as [|x expected']; [split; reflexivity|].
  set (expected := x :: expected').
  pose proof (@length_list_of_difference o1 expected found) as Hm1.
  pose proof (@length_list_of_difference o2 expected found) as Hm2.
  pose proof (@length_list_of_difference o1 found expected) as He1.
  pose proof (@length_list_of_difference o2 found expected) as He2.
  rewrite <- Hm2 in Hm1. rewrite <- He2 in He1. clear Hm2 He2.
  destruct (@list_of_difference o1 expected found) as [|a1 m1];
    destruct (@list_of_difference o2 expected found) as [|a2 m2];
    try discriminate Hm1;
    destruct (@list_of_difference o1 found expected) as [|b1 e1];
    destruct (@list_of_difference o2 found expected) as [|b2 e2];
    try discriminate He1;
    cbn [structure_score is_valid]; rewrite ?Hm1, ?He1; split; reflexivity.
Qed.

Lemma validate_structure_lists {order : SetOrder} content expected :
  missing_sections (validate_structure content expected)
  = list_of_difference expected (extract_section_structure content) /\
  extra_sections (validate_structure content expected)
  = list_of_difference (extract_section_structure content) expected /\
  found_sections (validate_structure content expected)
  = extract_section_structure content.
Proof.
  unfold validate_structure. destruct expected as [|x l]; [repeat split|].
  destruct (list_of_difference (x :: l) _); destruct (list_of_difference _ (x :: l));
    repeat split.
Qed.

Lemma validate_structure_expected {order : SetOrder} content expected :
  expected_sections (validate_structure content expected) = expected.
Proof.
  unfold validate_structure. destruct expected as [|x l]; [reflexivity|].
  destruct (list_of_difference (x :: l) _); destruct (list_of_difference _ (x :: l));
    reflexivity.
Qed.

Lemma differences_agree (o1 o2 : SetOrder) a b :
  Permutation (@list_of_difference o1 a b) (@list_of_difference o2 a b) /\
  NoDup (@list_of_difference o1 a b).
Proof.
  split.
  - apply perm_trans with (difference_elements a b);
      [apply list_of_difference_perm|apply Permutation_sym, list_of_difference_perm].
  - apply (Permutation_NoDup (Permutation_sym (@list_of_difference_perm o1 a b))).
    unfold difference_elements. apply NoDup_nodup.
Qed.

Lemma short_permutation {A} (l1 l2 : list A) :
  Permutation l1 l2 -> List.length l1 <= 1 -> l1 = l2.
Proof.
  intros Hp Hl. destruct l1 as [|x [|y l1]]; [| |cbn in Hl; lia].
  - apply Permutation_nil in Hp. congruence.
  - apply Permutation_length_1_inv in Hp. congruence.
Qed.

(** C6, as stated, fails.  The weakness that names the missing
    sections lists them in the order in which the interpreter iterates
    a set, which changes with the hash seed: under two iteration orders
    the same text, evaluated against the same expected structure, gets
    two different weaknesses lists. *)
Lemma scoring_depends_on_set_order :
  weaknesses (@evaluate_feature first_occurrence_order unit "# Notes"
                (Some expected_outline) None None)
  <> weaknesses (@evaluate_feature last_occurrence_order unit "# Notes"
                   (Some expected_outline) None None) /\
  hd EmptyString
     (weaknesses (@evaluate_feature first_occurrence_order unit "# Notes"
                    (Some expected_outline) None None))
  = "Missing required sections: overview, api" /\
  hd EmptyString
     (weaknesses (@evaluate_feature last_occurrence_order unit "# Notes"
                    (Some expected_outline) None None))
  = "Missing required sections: api, overview".
Proof.
  split; [|split; vm_compute; reflexivity].
  intros H. apply (f_equal (hd EmptyString)) in H. vm_compute in H. discriminate.
Qed.

(** C6, amended.  Scoring is deterministic up to the order in which a
    set is iterated.  [evaluate_design] reads its text, language and
    criteria only.  Two calls of [evaluate_feature] on the same text
    and arguments, under any two iteration orders and with any
    metadata, return the same overall score, the same criterion scores,
    the same feedback, the same strengths and the same validity; their
    missing and extra sections hold the same names, each once; and
    their weaknesses are equal, except that the entry that lists the
    missing sections may list the same names in another order.  When
    at most one section is missing, or under one and the same iteration
    order, the weaknesses are equal too. *)
Theorem scoring_is_deterministic_up_to_set_order :
  forall (o1 o2 : SetOrder) criteria content expected language
         (M1 M2 : Type) (m1 : option M1) (m2 : option M2),
    DesignEval.evaluate_design criteria content language m1
    = DesignEval.evaluate_design criteria content language m2 /\
    @evaluate_feature o1 M1 content expected language m1
    = @evaluate_feature o1 M2 content expected language m2 /\
    let s1 := @evaluate_feature o1 M1 content expected language m1 in
    let s2 := @evaluate_feature o2 M2 content expected language m2 in
    let v1 := structural_validation s1 in
    let v2 := structural_validation s2 in
    overall_score s1 = overall_score s2 /\
    structural_integrity s1 = structural_integrity s2 /\
    implementation_detail s1 = implementation_detail s2 /\
    language_specificity s1 = language_specificity s2 /\
    technical_accuracy s1 = technical_accuracy s2 /\
    clarity s1 = clarity s2 /\
    feedback s1 = feedback s2 /\
    strengths s1 = strengths s2 /\
    is_valid v1 = is_valid v2 /\
    structure_score v1 = structure_score v2 /\
    expected_sections v1 = expected_sections v2 /\
    found_sections v1 = found_sections v2 /\
    Permutation (missing_sections v1) (missing_sections v2) /\
    NoDup (missing_sections v1) /\
    Permutation (extra_sections v1) (extra_sections v2) /\
    NoDup (extra_sections v1) /\
    (exists rest,
        if is_valid v1
        then weaknesses s1 = rest /\ weaknesses s2 = rest
        else weaknesses s1
             = ("Missing required sections: " ++ join ", " (missing_sections v1)) :: rest /\
             weaknesses s2
             = ("Missing required sections: " ++ join ", " (missing_sections v2)) :: rest) /\
    (List.length (missing_sections v1) <= 1 -> weaknesses s1 = weaknesses s2).
Proof.
  intros. split; [reflexivity|split; [reflexivity|]].
  cbv zeta.
  set (exp := match expected with Some l => l | None => [] end).
  destruct (validate_structure_order_free o1 o2 content exp) as (Hs & Hv).
  destruct (@validate_structure_lists o1 content exp) as (Hm1 & He1 & Hf1).
  destruct (@validate_structure_lists o2 content exp) as (Hm2 & He2 & Hf2).
  pose proof (@validate_structure_expected o1 content exp) as Hx1.
  pose proof (@validate_structure_expected o2 content exp) as Hx2.
  destruct (differences_agree o1 o2 exp (extract_section_structure content))
    as (Hpm & Hnm).
  destruct (differences_agree o1 o2 (extract_section_structure content) exp)
    as (Hpe & Hne).
  unfold evaluate_feature. cbv zeta. fold exp.
  set (v1 := @validate_structure o1 content exp) in *.
  set (v2 := @validate_structure o2 content exp) in *.
  assert (Hw : forall (w : list string),
             List.length (missing_sections v1) <= 1 ->
             ("Missing required sections: " ++ join ", " (missing_sections v1)) :: w
             = ("Missing required sections: " ++ join ", " (missing_sections v2)) :: w).
  { intros w Hl. rewrite Hm1, Hm2 in *.
    rewrite (short_permutation _ _ Hpm Hl). reflexivity. }
  rewrite <- Hv.
  destruct (is_valid v1) eqn:E1;
    cbn [overall_score structural_integrity implementation_detail
         language_specificity technical_accuracy clarity feedback
         strengths weaknesses structural_validation];
    rewrite <- ?Hs, ?Hx1, ?Hx2, ?Hf1, ?Hf2, ?E1;
    (repeat (split; [reflexivity|]));
    (split; [exact Hv|]);
    (repeat (split; [reflexivity|]));
    (split; [rewrite Hm1, Hm2; exact Hpm|]);
    (split; [rewrite Hm1; exact Hnm|]);
    (split; [rewrite He1, He2; exact Hpe|]);
    (split; [rewrite He1; exact Hne|]);
    (split; [eexists; split; reflexivity|]).
  - intros _. reflexivity.
  - apply Hw.
Qed.

(** ** Candidates without content (claim C7) *)

(** C7, as stated, fails: a candidate with empty content is not scored
    at all, and when every candidate is empty both ranking passes raise
    [IndexError] instead of returning a list.  Scoring an empty text
    directly does not give the minimum either. *)
Lemma ranking_empty_candidates :
  rank_features [silent] (Some expected_outline) None = Raises index_error /\
  DesignEval.rank_designs DesignEval.default_criteria [silent] None
  = Raises index_error /\
  map fst (returned (rank_features [silent; on_topic] (Some expected_outline) None)) = [1] /\
  ~ (clarity (evaluate_feature "" None None (@None unit)) == 0)%Q.
Proof.
  split; [reflexivity|split; [reflexivity|split; [vm_compute; reflexivity|]]].
  intros H. vm_compute in H. discriminate.
Qed.

Lemma flat_map_scored {S} (f : nat * Candidate -> S) l :
  map fst
      (flat_map (fun ic => if truthy (candidate_text (snd ic))
                           then [(fst ic, f ic)] else []) l)
  = map fst (filter (fun ic => truthy (candidate_text (snd ic))) l).
Proof.
  induction l as [|ic l IH]; simpl; [reflexivity|].
  destruct (truthy (candidate_text (snd ic))); simpl; rewrite IH; reflexivity.
Qed.

Lemma first_item_nonempty {S} (l : list S) : l <> [] -> exists x, first_item l = Returns x.
Proof. destruct l as [|x l]; [congruence|]. intros _. exists x. reflexivity. Qed.

(** C7, amended.  [rank_features] and [rank_designs] skip a candidate
    with empty or missing content: it is not scored and does not occur
    in the ranked list.  When at least one candidate has content, both
    return normally, and the ranked list holds exactly the candidates
    with content, each once. *)
Theorem ranking_skips_empty_candidates :
  forall (order : SetOrder) criteria candidates expected language,
    scored_indices candidates <> [] ->
    exists rf rd,
      rank_features candidates expected language = Returns rf /\
      DesignEval.rank_designs criteria candidates language = Returns rd /\
      Permutation (map fst rf) (scored_indices candidates) /\
      Permutation (map fst rd) (scored_indices candidates).
Proof.
  intros order criteria candidates expected language Hne.
  set (sf := score_candidates candidates expected language).
  set (sd := DesignEval.score_candidates criteria candidates language).
  assert (Hf : map fst sf = scored_indices candidates)
    by (unfold sf, score_candidates; apply flat_map_scored).
  assert (Hd : map fst sd = scored_indices candidates)
    by (unfold sd, DesignEval.score_candidates; apply flat_map_scored).
  exists (sort_desc sort_key sf),
         (sort_desc (fun x => DesignEval.overall_score (snd x)) sd).
  assert (Hpf : Permutation (map fst (sort_desc sort_key sf)) (scored_indices candidates)).
  { rewrite <- Hf. apply Permutation_map, perm_sort_desc. }
  assert (Hpd : Permutation
                  (map fst (sort_desc (fun x => DesignEval.overall_score (snd x)) sd))
                  (scored_indices candidates)).
  { rewrite <- Hd. apply Permutation_map, perm_sort_desc. }
  split; [|split; [|split; assumption]].
  - unfold rank_features, bind. fold sf.
    destruct (first_item_nonempty (sort_desc sort_key sf)) as (x & Hx).
    { intros E. rewrite E in Hpf. apply Permutation_nil in Hpf. congruence. }
    rewrite Hx. reflexivity.
  - unfold DesignEval.rank_designs, bind. fold sd.
    destruct (first_item_nonempty
                (sort_desc (fun x => DesignEval.overall_score (snd x)) sd)) as (x & Hx).
    { intros E. rewrite E in Hpd. apply Permutation_nil in Hpd. congruence. }
    rewrite Hx. reflexivity.
Qed.

Lemma ranking_skips_empty_candidates_witness :
  scored_indices [silent; on_topic] <> [] /\
  exists rf rd,
    rank_features [silent; on_topic] (Some expected_outline) (Some "go") = Returns rf /\
    DesignEval.rank_designs DesignEval.default_criteria [silent; on_topic] (Some "go")
    = Returns rd /\
    Permutation (map fst rf) (scored_indices [silent; on_topic]) /\
    Permutation (map fst rd) (scored_indices [silent; on_topic]).
Proof.
  split.
  - vm_compute. discriminate.
  - apply (ranking_skips_empty_candidates first_occurrence_order).
    vm_compute. discriminate.
Defined.

End FeatFacts.

Module FlowFacts.
Import PyStr Engine FeatEval FeatFlow FlowContracts.

(** ** Selection in the feature workflow (claim C8) *)

Lemma filter_none {A} (p : A -> bool) l :
  (forall x, In x l -> p x = false) -> filter p l = [].
Proof.
  induction l as [|x l IH]; intros H; simpl; [reflexivity|].
  rewrite (H x (or_introl eq_refl)). apply IH. intros y Hy. apply H. right. exact Hy.
Qed.

(** C8. When none of the dispatched results has [success = true],
    [_evaluate_and_select_feature] raises the error "No successful
    feature specification candidates generated".  On that path the
    remaining steps of the command are not run: the persistence
    collaborator receives no [save_feature] and no [archive_candidates]
    call, whatever the state of the disk, and the command reports a
    failure. *)
Theorem no_successful_candidates_is_an_error :
  forall (order : SetOrder) agent_results expected_structure language,
    (forall r, In r agent_results -> success r = false) ->
    _evaluate_and_select_feature agent_results expected_structure language
    = Raises (mkExc RuntimeError
                    "No successful feature specification candidates generated") /\
    forall io command_line section_id plan_path orchestration_result p,
      o_all_results orchestration_result = Some agent_results ->
      let out := execute_feat_command_tail io command_line section_id plan_path
                   expected_structure language orchestration_result p in
      snd out = p /\ cr_success (fst out) = false /\
      cr_feat_path (fst out) = None /\
      (o_success orchestration_result = true ->
       cr_error (fst out)
       = Some "No successful feature specification candidates generated").
Proof.
  intros order agent_results expected_structure language Hall.
  assert (He : _evaluate_and_select_feature agent_results expected_structure language
               = Raises no_candidates).
  { unfold _evaluate_and_select_feature. rewrite (filter_none _ _ Hall). reflexivity. }
  split; [exact He|].
  intros io command_line section_id plan_path orchestration_result p Hres. cbv zeta.
  unfold execute_feat_command_tail, select_and_save.
  destruct (o_success orchestration_result); cbn [negb].
  - rewrite Hres, He. cbn. repeat split.
  - cbn. repeat split. intros; discriminate.
Qed.

Lemma no_successful_candidates_is_an_error_witness :
  (forall r, In r three_failures -> success r = false) /\
  _evaluate_and_select_feature three_failures expected_outline (Some "go")
  = Raises (mkExc RuntimeError
                  "No successful feature specification candidates generated").
Proof.
  assert (H : forall r, In r three_failures -> success r = false).
  { intros r [<-|[<-|[<-|[]]]]; reflexivity. }
  split; [exact H|].
  exact (proj1 (no_successful_candidates_is_an_error first_occurrence_order
                  three_failures expected_outline (Some "go") H)).
Defined.

End FlowFacts.

Module RegistryFacts.
Import Registry RegistryContracts.

(** ** Health metrics (claim C9) *)

Lemma lookup_store name h m : lookup name (store name h m) = Some h.
Proof.
  unfold store. destruct (lookup name m) as [h0|] eqn:E.
  - unfold lookup in *. induction m as [|[k v] m IH]; [discriminate|].
    simpl in *. destruct (String.eqb k name) eqn:Ek; simpl.
    + rewrite String.eqb_refl. reflexivity.
    + rewrite Ek. apply IH. exact E.
  - unfold lookup in *. induction m as [|[k v] m IH]; simpl in *.
    + rewrite String.eqb_refl. reflexivity.
    + destruct (String.eqb k name) eqn:Ek; [discriminate|]. apply IH. exact E.
Qed.

Lemma health_after_record name ok rt err now m :
  lookup name (record_agent_invocation name ok rt err now m)
  = Some (record_on (health_of name m) ok rt err now).
Proof.
  unfold record_agent_invocation, health_of.
  destruct (lookup name m) as [h|] eqn:E.
  - rewrite E. apply lookup_store.
  - rewrite lookup_store. apply lookup_store.
Qed.

Lemma record_on_fields h ok rt err now :
  avg_response_time (record_on h ok rt err now)
  = latency_step (avg_response_time h) rt /\
  total_invocations (record_on h ok rt err now) = S (total_invocations h).
Proof. unfold record_on. destruct ok; split; reflexivity. Qed.

Lemma total_after_record_all name calls : forall m,
  total_invocations (health_of name (record_all name calls m))
  = total_invocations (health_of name m) + List.length calls.
Proof.
  induction calls as [|[[[ok rt] err] now] calls IH]; intros m.
  - simpl. lia.
  - unfold record_all in *. simpl. rewrite IH.
    unfold health_of at 1. rewrite health_after_record.
    destruct (record_on_fields (health_of name m) ok rt err now) as (_ & Ht).
    rewrite Ht. lia.
Qed.

(** C9, as stated, fails.  The first recorded invocation sets the
    average latency to the sample (10), not to 0*0.8 + 10*0.2; and after
    two successful invocations the success rate is 3/2, not 2/2. *)
Lemma health_is_not_ema_and_ratio :
  let first := health_of "gad" (record_all "gad" (firstn 1 two_successes) []) in
  let second := health_of "gad" (record_all "gad" two_successes []) in
  avg_response_time first = 10%Q /\
  ~ (avg_response_time first == 0.0 * 0.8 + 10 * 0.2)%Q /\
  total_invocations second = 2 /\
  (success_rate second == 3 # 2)%Q /\
  ~ (success_rate second == 2 / 2)%Q.
Proof.
  cbv zeta. split; [reflexivity|split; [|split; [reflexivity|split]]].
  - intros H. vm_compute in H. discriminate.
  - vm_compute. reflexivity.
  - intros H. vm_compute in H. discriminate.
Qed.

(** C9, amended.  On each recorded invocation of an agent,
    [record_agent_invocation] counts the invocation and updates the
    average latency: the new average is the sample itself when the
    previous average is 0 (as on the agent's first invocation), and
    old_avg*0.8 + sample*0.2 otherwise.  After a sequence of recorded
    invocations starting from no metrics, [total_invocations] is the
    length of the sequence. *)
Theorem latency_follows_guarded_ema :
  forall name calls m ok rt err now,
    let before := record_all name calls m in
    let after := record_agent_invocation name ok rt err now before in
    (exists h, lookup name after = Some h) /\
    avg_response_time (health_of name after)
    = (if Qeq_bool (avg_response_time (health_of name before)) 0
       then rt
       else (avg_response_time (health_of name before) * 0.8 + rt * 0.2)%Q) /\
    total_invocations (health_of name after)
    = S (total_invocations (health_of name before)) /\
    total_invocations (health_of name (record_all name calls [])) = List.length calls.
Proof.
  intros name calls m ok rt err now. cbv zeta.
  set (before := record_all name calls m).
  pose proof (health_after_record name ok rt err now before) as Hl.
  destruct (record_on_fields (health_of name before) ok rt err now) as (Ha & Ht).
  assert (Hh : health_of name (record_agent_invocation name ok rt err now before)
               = record_on (health_of name before) ok rt err now).
  { unfold health_of at 1. rewrite Hl. reflexivity. }
  split; [eauto|]. rewrite Hh.
  split; [exact Ha|split; [exact Ht|]].
  rewrite total_after_record_all. reflexivity.
Qed.

End RegistryFacts.

(** * Further properties *)

Module EngineExtra.
Import PyStr Engine EngineContracts EngineMore EngineFacts.

(** ** Collecting the output files *)

Lemma collect_output_files_spec found : forall outs,
  collect_output_files found = Returns outs ->
  forall rel c,
    In (rel, c) outs <->
    In (rel, Text c) found /\ basename rel <> "prompt.txt".
Proof.
  induction found as [|[r0 d0] found IH]; intros outs H rel c.
  - inversion H; subst. simpl. tauto.
  - cbn [collect_output_files] in H.
    destruct (String.eqb (basename r0) "prompt.txt") eqn:Eb.
    + apply String.eqb_eq in Eb. rewrite (IH outs H rel c). simpl. split.
      * intros (Hin & Hn). split; [right; exact Hin|exact Hn].
      * intros ([Heq|Hin] & Hn); [inversion Heq; subst; congruence|tauto].
    + apply String.eqb_neq in Eb. destruct d0 as [content| | |e].
      * unfold bind in H.
        destruct (collect_output_files found) as [rest|e] eqn:Er; [|discriminate].
        inversion H; subst. simpl. rewrite (IH rest eq_refl rel c). split.
        -- intros [Heq|(Hin & Hn)].
           ++ inversion Heq; subst. split; [left; reflexivity|exact Eb].
           ++ split; [right; exact Hin|exact Hn].
        -- intros ([Heq|Hin] & Hn).
           ++ inversion Heq; subst. left. reflexivity.
           ++ right. split; assumption.
      * rewrite (IH outs H rel c). simpl. split.
        -- intros (Hin & Hn). split; [right; exact Hin|exact Hn].
        -- intros ([Heq|Hin] & Hn); [discriminate|tauto].
      * rewrite (IH outs H rel c). simpl. split.
        -- intros (Hin & Hn). split; [right; exact Hin|exact Hn].
        -- intros ([Heq|Hin] & Hn); [discriminate|tauto].
      * discriminate.
Qed.

(** The run of the [try] block when it reaches its [return]. *)
Lemma run_worker_normal task b d st s r s' fs :
  run_worker task b d st s = (Returns r, s') ->
  output_files r = Some fs ->
  collect_output_files (files_under d s') = Returns fs /\
  exists out err code w,
    communicate b = Completed out err code w /\
    success r = (code =? 0)%Z /\ output r = out /\ error r = error_text err code.
Proof.
  unfold run_worker, abind, get, modify, may_raise, raise, ret.
  destruct (spawn_fault b) as [e|]; [discriminate|]. cbv beta iota.
  unfold communicate_with_timeout, try_finally, abind, modify, raise, ret.
  destruct (communicate b) as [out err code w| |e]; cbv beta iota;
    [|discriminate|discriminate].
  unfold time_time. cbv beta iota.
  destruct (scan_fault b) as [e|]; [discriminate|]. cbv beta iota.
  match goal with |- context [collect_output_files ?l] =>
    destruct (collect_output_files l) as [outs|e] eqn:Ec end; [|discriminate].
  intros H Hfs. inversion H; subst. cbn in Hfs. inversion Hfs; subst.
  split; [exact Ec|].
  exists out, err, code, w. split; [reflexivity|]. cbn [success output error].
  split; [reflexivity|split; [reflexivity|]].
  unfold error_text. destruct err; destruct (code =? 0)%Z; reflexivity.
Qed.

Lemma sandbox_normal task b s r s' fs :
  _execute_agent_task task b s = (Returns r, s') ->
  output_files r = Some fs ->
  exists td,
    temp_dir s = Some td /\
    run_worker task b (path_join td (task_id task)) (clock s (clock_reads s))
      (snd (_create_task_workspace task b (snd (time_time s)))) = (Returns r, s').
Proof.
  rewrite execute_agent_task_unfold.
  pose proof (create_task_workspace_post task b (snd (time_time s))) as (_ & _ & Hw).
  destruct (_create_task_workspace task b (snd (time_time s))) as [[d|e] s1];
    [|discriminate].
  cbn [fst snd] in *. destruct Hw as (td & Htd & Hd & _).
  change (temp_dir (snd (time_time s))) with (temp_dir s) in Htd.
  unfold try_except.
  destruct (run_worker task b d (clock s (clock_reads s)) s1) as [[res|e] s2] eqn:Er.
  - intros H Hfs. inversion H; subst. exists td. split; [exact Htd|exact Er].
  - rewrite failed_result_returns. intros H Hfs. inversion H; subst. discriminate.
Qed.

(** X1.  The files a result reports.  When [_execute_agent_task]
    returns a result with [output_files] set, the listed files are
    exactly the text files found below the task directory whose file
    name is not "prompt.txt", with their content; files that cannot be
    decoded or read are left out. *)
Theorem output_files_are_the_text_files :
  forall task b s r s' fs td,
    _execute_agent_task task b s = (Returns r, s') ->
    output_files r = Some fs ->
    temp_dir s = Some td ->
    forall rel c,
      In (rel, c) fs <->
      In (rel, Text c) (files_under (path_join td (task_id task)) s') /\
      basename rel <> "prompt.txt".
Proof.
  intros task b s r s' fs td Hrun Hfs Htd.
  destruct (sandbox_normal _ _ _ _ _ _ Hrun Hfs) as (td' & Htd' & Hw).
  assert (td' = td) by congruence. subst td'.
  destruct (run_worker_normal _ _ _ _ _ _ _ _ Hw Hfs) as (Hc & _).
  apply collect_output_files_spec. exact Hc.
Qed.

(** X2.  How the exit status is reported.  When the worker ran to
    completion and its files were collected, [success] is true exactly
    for exit code 0, [output] is the standard output, and [error] is
    the standard error text if there is any; otherwise it is absent on
    success and "Process exited with code <n>" on failure. *)
Theorem exit_status_is_reported :
  forall task b s r s' fs out err code w,
    _execute_agent_task task b s = (Returns r, s') ->
    output_files r = Some fs ->
    communicate b = Completed out err code w ->
    success r = (code =? 0)%Z /\ output r = out /\
    error r = match err with
              | EmptyString =>
                  if (code =? 0)%Z then None
                  else Some ("Process exited with code " ++ str_of_Z code)
              | _ => Some err
              end.
Proof.
  intros task b s r s' fs out err code w Hrun Hfs Hc.
  destruct (sandbox_normal _ _ _ _ _ _ Hrun Hfs) as (td & _ & Hw).
  destruct (run_worker_normal _ _ _ _ _ _ _ _ Hw Hfs)
    as (_ & out' & err' & code' & w' & Hc' & Hs & Ho & He).
  rewrite Hc in Hc'. inversion Hc'; subst. split; [exact Hs|split; [reflexivity|exact He]].
Qed.

Lemma output_files_are_the_text_files_witness :
  exists r fs,
    fst (_execute_agent_task test_task_1 worker_ok engine_entered) = Returns r /\
    output_files r = Some fs /\
    In ("design.md", "# Timer design") fs /\
    forall rel c,
      In (rel, c) fs <->
      In (rel, Text c)
         (files_under (path_join scratch "test_task_1")
            (snd (_execute_agent_task test_task_1 worker_ok engine_entered))) /\
      basename rel <> "prompt.txt".
Proof.
  assert (H : exists r,
             fst (_execute_agent_task test_task_1 worker_ok engine_entered) = Returns r /\
             output_files r = Some [("design.md", "# Timer design")])
    by (eexists; split; [vm_compute; reflexivity|reflexivity]).
  destruct H as (r & Hr & Hfs).
  exists r, [("design.md", "# Timer design")].
  split; [exact Hr|split; [exact Hfs|split; [left; reflexivity|]]].
  destruct (_execute_agent_task test_task_1 worker_ok engine_entered) as [o s'] eqn:E.
  cbn [fst snd] in *. subst o.
  exact (output_files_are_the_text_files test_task_1 worker_ok engine_entered r s'
           _ scratch E Hfs eq_refl).
Defined.

Lemma exit_status_is_reported_witness :
  exists r,
    fst (_execute_agent_task test_task_1 worker_exits_2 engine_entered) = Returns r /\
    success r = false /\ output r = "partial" /\
    error r = Some "Process exited with code 2".
Proof.
  assert (H : exists r,
             fst (_execute_agent_task test_task_1 worker_exits_2 engine_entered) = Returns r /\
             output_files r = Some [])
    by (eexists; split; [vm_compute; reflexivity|reflexivity]).
  destruct H as (r & Hr & Hfs).
  exists r. split; [exact Hr|].
  destruct (_execute_agent_task test_task_1 worker_exits_2 engine_entered) as [o s'] eqn:E.
  cbn [fst snd] in *. subst o.
  exact (exit_status_is_reported test_task_1 worker_exits_2 engine_entered r s'
           [] "partial" "" 2%Z [] E Hfs eq_refl).
Defined.

(** ** The process table *)

Lemma in_table_false_find k t :
  in_table k t = false -> find (fun kv => String.eqb (fst kv) k) t = None.
Proof.
  unfold in_table. induction t as [|kv t IH]; simpl; [reflexivity|].
  destruct (String.eqb (fst kv) k); simpl; [discriminate|exact IH].
Qed.

Lemma table_remove_absent k t : in_table k t = false -> table_remove k t = t.
Proof.
  unfold in_table, table_remove. induction t as [|kv t IH]; simpl; [reflexivity|].
  destruct (String.eqb (fst kv) k); simpl; [discriminate|].
  intros H. rewrite (IH H). reflexivity.
Qed.

Lemma table_remove_set k p t :
  in_table k t = false -> table_remove k (table_set k p t) = t.
Proof.
  intros H. unfold table_set. rewrite (in_table_false_find k t H).
  unfold table_remove. rewrite filter_app. simpl. rewrite String.eqb_refl. simpl.
  rewrite app_nil_r. apply (table_remove_absent k t H).
Qed.

Lemma write_text_active b d n c s :
  active_processes (snd (write_text b d n c s)) = active_processes s.
Proof.
  pose proof (write_text_cases b d n c s) as H.
  destruct (write_fault b n); rewrite H; reflexivity.
Qed.

Lemma write_all_active b d l : forall s,
  active_processes (snd (write_all b d l s)) = active_processes s.
Proof.
  induction l as [|[n c] l IH]; intros s; simpl; [reflexivity|].
  unfold abind. pose proof (write_text_cases b d n c s) as H.
  destruct (write_fault b n); rewrite H; simpl; [reflexivity|].
  rewrite IH. reflexivity.
Qed.

Lemma workspace_active task b s :
  active_processes (snd (_create_task_workspace task b s)) = active_processes s.
Proof.
  unfold _create_task_workspace, abind, get.
  destruct (temp_dir s) as [td|]; [|reflexivity].
  unfold mkdir_exist_ok, abind, may_raise, modify, raise.
  destruct (mkdir_fault b); [reflexivity|]. cbn [ret fst snd].
  set (d := path_join td (task_id task)).
  set (s1 := if dir_exists d s then s else set_dirs (dirs s ++ [d]) s).
  assert (H1 : active_processes s1 = active_processes s)
    by (unfold s1; destruct (dir_exists d s); reflexivity).
  assert (H2 : active_processes (snd (write_inputs task b d s1)) = active_processes s1).
  { unfold write_inputs. destruct (input_files task) as [[|f l]|];
      [reflexivity|apply write_all_active|reflexivity]. }
  destruct (write_inputs task b d s1) as [[u|e] s2]; cbn [fst snd] in *;
    [|congruence].
  pose proof (write_text_active b d "prompt.txt" (prompt task) s2) as H3.
  destruct (write_text b d "prompt.txt" (prompt task) s2) as [[u'|e] s3];
    cbn [fst snd ret] in *; congruence.
Qed.

Lemma run_worker_active task b d st s :
  in_table (task_id task) (active_processes s) = false ->
  active_processes (snd (run_worker task b d st s)) = active_processes s.
Proof.
  intros Hin.
  unfold run_worker, abind, get, modify, may_raise, raise, ret.
  destruct (spawn_fault b) as [e|]; [reflexivity|]. cbv beta iota.
  unfold communicate_with_timeout, try_finally, abind, modify, raise, ret.
  destruct (communicate b) as [out err code w| |e]; cbv beta iota.
  - match goal with |- context [store_all d w ?s0] =>
      destruct (store_all_frame d w s0) as (_ & _ & _ & Ha) end.
    unfold time_time. cbv beta iota.
    destruct (scan_fault b) as [e|]; cbv beta iota.
    + cbn [snd active_processes set_active]. rewrite Ha.
      cbn [active_processes set_active emit]. apply table_remove_set, Hin.
    + match goal with |- context [collect_output_files ?l] =>
        destruct (collect_output_files l) end;
        cbn [snd active_processes set_active]; rewrite Ha;
        cbn [active_processes set_active emit]; apply table_remove_set, Hin.
  - cbn [snd active_processes set_active emit]. apply table_remove_set, Hin.
  - cbn [snd active_processes set_active emit]. apply table_remove_set, Hin.
Qed.

(** X3.  The process table is transient.  If the table holds no entry
    for the task before [_execute_agent_task] runs, it is left exactly
    as it was when the call ends, whether the worker finished, failed,
    timed out or could not be started. *)
Theorem process_table_is_restored :
  forall task b s,
    in_table (task_id task) (active_processes s) = false ->
    active_processes (snd (_execute_agent_task task b s)) = active_processes s.
Proof.
  intros task b s Hin. rewrite execute_agent_task_unfold.
  pose proof (workspace_active task b (snd (time_time s))) as Hw.
  change (active_processes (snd (time_time s))) with (active_processes s) in Hw.
  destruct (_create_task_workspace task b (snd (time_time s))) as [[d|e] s1];
    cbn [fst snd] in *; [|exact Hw].
  unfold try_except.
  pose proof (run_worker_active task b d (clock s (clock_reads s)) s1) as Hr.
  rewrite Hw in Hr. specialize (Hr Hin).
  destruct (run_worker task b d (clock s (clock_reads s)) s1) as [[res|e] s2];
    cbn [fst snd] in *; [congruence|].
  rewrite failed_result_returns. cbn. congruence.
Qed.

Lemma process_table_is_restored_witness :
  active_processes (snd (_execute_agent_task test_task_1 worker_hangs engine_entered)) = [].
Proof.
  exact (process_table_is_restored test_task_1 worker_hangs engine_entered eq_refl).
Defined.

(** ** A rule for the dispatcher

    Any state invariant that one sandbox call keeps is kept by the
    batch, and any property of results that each sandbox call and the
    conversion of a raised exception establish holds of every result. *)

Lemma nth_error_lt {A} (l : list A) i x : nth_error l i = Some x -> i < List.length l.
Proof. intros H. apply nth_error_Some. congruence. Qed.

Lemma gather_sandbox_inv (I : State -> Prop) (oracle : nat -> Behaviour) :
  (forall t b s, I s -> I (snd (_execute_agent_task t b s))) ->
  forall (l : list (nat * AgentTask)) s,
    I s ->
    I (snd (gather (map (fun it => _execute_agent_task (snd it) (oracle (fst it))) l) s)) /\
    forall j it o,
      nth_error l j = Some it ->
      nth_error (fst (gather (map (fun it => _execute_agent_task (snd it) (oracle (fst it))) l) s)) j
      = Some o ->
      exists sj, I sj /\ o = fst (_execute_agent_task (snd it) (oracle (fst it)) sj).
Proof.
  intros Hstep. induction l as [|[i t] l IH]; intros s Hs.
  - simpl. split; [exact Hs|]. intros [|j]; discriminate.
  - cbn [map gather fst snd].
    pose proof (Hstep t (oracle i) s Hs) as Hs1.
    destruct (_execute_agent_task t (oracle i) s) as [r s1] eqn:E. cbn [fst snd] in *.
    destruct (IH s1 Hs1) as (Hs2 & Hn).
    destruct (gather _ s1) as [rs s2]. cbn [fst snd] in *.
    split; [exact Hs2|].
    intros [|j] it o Hit Ho; cbn [nth_error] in *.
    + inversion Hit; inversion Ho; subst. exists s. cbn [fst snd].
      rewrite E. split; [exact Hs|reflexivity].
    + apply (Hn j it o Hit Ho).
Qed.

Lemma execute_parallel_tasks_rule (I : State -> Prop)
      (P : AgentTask -> AgentResult -> Prop) :
  (forall t b s, I s -> I (snd (_execute_agent_task t b s))) ->
  (forall t b s r, I s -> fst (_execute_agent_task t b s) = Returns r -> P t r) ->
  (forall t e, P t (converted t (Raises e))) ->
  forall tasks oracle s results s',
    I s ->
    execute_parallel_tasks tasks oracle s = (Returns results, s') ->
    I s' /\
    forall i t r, nth_error tasks i = Some t -> nth_error results i = Some r -> P t r.
Proof.
  intros Hstep Hret Hexc tasks oracle s results s' Hs.
  destruct tasks as [|t0 tasks'].
  { cbn. intros H. inversion H; subst. split; [exact Hs|]. intros [|i]; discriminate. }
  unfold execute_parallel_tasks.
  remember (t0 :: tasks') as tasks eqn:Etasks. clear Etasks t0 tasks'.
  destruct (gather_sandbox_inv I oracle Hstep (enumerate tasks) s Hs) as (Hs2 & Hn).
  pose proof (gather_length
                (map (fun it => _execute_agent_task (snd it) (oracle (fst it)))
                     (enumerate tasks)) s) as Hlen.
  destruct (gather _ s) as [outcomes s2]. cbn [fst snd] in *.
  assert (Hl : List.length outcomes = List.length tasks).
  { rewrite Hlen. unfold enumerate.
    rewrite length_map, length_combine, length_seq. apply Nat.min_id. }
  destruct (convert_results_from tasks outcomes 0 s2) as (out & Hc & Hlo & Hcv); [lia|].
  fold (enumerate outcomes) in Hc. rewrite Hc. intros H. inversion H; subst.
  split; [exact Hs2|].
  intros i t r Ht Hr.
  destruct (nth_error outcomes i) as [o|] eqn:Eo.
  2:{ apply nth_error_None in Eo. apply nth_error_lt in Ht. lia. }
  rewrite (Hcv i o t Eo Ht) in Hr. inversion Hr; subst.
  destruct (Hn i (i, t) o (nth_error_enumerate tasks i t Ht) Eo) as (sj & Hsj & Ho).
  cbn [fst snd] in Ho. destruct o as [r|e].
  - apply (Hret t (oracle i) sj r Hsj). symmetry. exact Ho.
  - apply Hexc.
Qed.

(** ** Elapsed time *)

Lemma store_all_clock d l : forall s,
  clock (store_all d l s) = clock s /\ clock_reads (store_all d l s) = clock_reads s.
Proof.
  induction l as [|[n x] l IH]; intros s; simpl; [split; reflexivity|].
  destruct (IH (store_file d n x s)) as (H1 & H2). rewrite H1, H2. split; reflexivity.
Qed.

Lemma write_text_clock b d n c s :
  clock (snd (write_text b d n c s)) = clock s /\
  clock_reads (snd (write_text b d n c s)) = clock_reads s.
Proof.
  pose proof (write_text_cases b d n c s) as H.
  destruct (write_fault b n); rewrite H; split; reflexivity.
Qed.

Lemma write_all_clock b d l : forall s,
  clock (snd (write_all b d l s)) = clock s /\
  clock_reads (snd (write_all b d l s)) = clock_reads s.
Proof.
  induction l as [|[n c] l IH]; intros s; simpl; [split; reflexivity|].
  unfold abind. pose proof (write_text_cases b d n c s) as H.
  destruct (write_fault b n); rewrite H; simpl; [split; reflexivity|].
  destruct (IH (store_file d n (Text c) s)) as (H1 & H2). rewrite H1, H2.
  split; reflexivity.
Qed.

Lemma workspace_clock task b s :
  clock (snd (_create_task_workspace task b s)) = clock s /\
  clock_reads (snd (_create_task_workspace task b s)) = clock_reads s.
Proof.
  unfold _create_task_workspace, abind, get.
  destruct (temp_dir s) as [td|]; [|split; reflexivity].
  unfold mkdir_exist_ok, abind, may_raise, modify, raise.
  destruct (mkdir_fault b); [split; reflexivity|]. cbn [ret fst snd].
  set (d := path_join td (task_id task)).
  set (s1 := if dir_exists d s then s else set_dirs (dirs s ++ [d]) s).
  assert (H1 : clock s1 = clock s /\ clock_reads s1 = clock_reads s)
    by (unfold s1; destruct (dir_exists d s); split; reflexivity).
  assert (H2 : clock (snd (write_inputs task b d s1)) = clock s1 /\
               clock_reads (snd (write_inputs task b d s1)) = clock_reads s1).
  { unfold write_inputs. destruct (input_files task) as [[|f l]|];
      [split; reflexivity|apply write_all_clock|split; reflexivity]. }
  destruct H1 as (H1a & H1b). destruct H2 as (H2a & H2b).
  destruct (write_inputs task b d s1) as [[u|e] s2]; cbn [fst snd] in *;
    [|split; congruence].
  pose proof (write_text_clock b d "prompt.txt" (prompt task) s2) as (H3a & H3b).
  destruct (write_text b d "prompt.txt" (prompt task) s2) as [[u'|e] s3];
    cbn [fst snd ret] in *; split; congruence.
Qed.

(** The clock reading behind a result of the [try] block, and the
    state of the clock when the block raises. *)
Lemma run_worker_clock task b d st s :
  match run_worker task b d st s with
  | (Returns r, s') =>
      clock s' = clock s /\ execution_time r = (clock s (clock_reads s) - st)%Q
  | (Raises _, s') =>
      clock s' = clock s /\ clock_reads s <= clock_reads s'
  end.
Proof.
  unfold run_worker, abind, get, modify, may_raise, raise, ret.
  destruct (spawn_fault b) as [e|]; [split; [reflexivity|lia]|]. cbv beta iota.
  unfold communicate_with_timeout, try_finally, abind, modify, raise, ret.
  destruct (communicate b) as [out err code w| |e]; cbv beta iota;
    [|split; [reflexivity|cbn; lia]|split; [reflexivity|cbn; lia]].
  match goal with |- context [store_all d w ?s0] =>
    destruct (store_all_clock d w s0) as (Hc & Hr) end.
  unfold time_time. cbv beta iota.
  destruct (scan_fault b) as [e|]; cbv beta iota.
  - cbn [clock clock_reads set_active]. rewrite Hc, Hr. cbn. split; [reflexivity|lia].
  - match goal with |- context [collect_output_files ?l] =>
      destruct (collect_output_files l) end;
      cbn [clock clock_reads set_active execution_time]; rewrite Hc, Hr; cbn;
      split; try reflexivity; lia.
Qed.

Lemma sandbox_clock task b s :
  clock (snd (_execute_agent_task task b s)) = clock s /\
  (monotone (clock s) ->
   forall r, fst (_execute_agent_task task b s) = Returns r ->
             (0 <= execution_time r)%Q).
Proof.
  rewrite execute_agent_task_unfold.
  destruct (workspace_clock task b (snd (time_time s))) as (Hwc & Hwr).
  change (clock (snd (time_time s))) with (clock s) in Hwc.
  change (clock_reads (snd (time_time s))) with (S (clock_reads s)) in Hwr.
  destruct (_create_task_workspace task b (snd (time_time s))) as [[d|e] s1];
    cbn [fst snd] in *; [|split; [exact Hwc|intros _ r H; discriminate]].
  unfold try_except.
  pose proof (run_worker_clock task b d (clock s (clock_reads s)) s1) as Hr.
  destruct (run_worker task b d (clock s (clock_reads s)) s1) as [[res|e] s2].
  - destruct Hr as (Hc & He). cbn [fst snd]. split; [congruence|].
    intros Hm r H. inversion H; subst. rewrite He, Hwc, Hwr.
    pose proof (Hm (clock_reads s) (S (clock_reads s)) (Nat.le_succ_diag_r _)). lra.
  - destruct Hr as (Hc & Hle). rewrite failed_result_returns. cbn [fst snd].
    split; [cbn; congruence|].
    intros Hm r H. inversion H; subst. cbn [execution_time]. rewrite Hc, Hwc.
    assert (Hn : clock_reads s <= clock_reads s2) by lia.
    pose proof (Hm _ _ Hn). lra.
Qed.

Lemma sample_clock_monotone : monotone sample_clock.
Proof.
  intros n m H. unfold sample_clock. rewrite <- Zle_Qle. lia.
Qed.

(** X4.  Elapsed time is never negative.  If the clock does not run
    backwards, every result that [execute_parallel_tasks] returns has
    [execution_time >= 0]; this covers results of successful runs, of
    failed runs and of runs that raised. *)
Theorem execution_time_is_not_negative :
  forall tasks oracle s results s',
    monotone (clock s) ->
    execute_parallel_tasks tasks oracle s = (Returns results, s') ->
    forall r, In r results -> (0 <= execution_time r)%Q.
Proof.
  intros tasks oracle s results s' Hm Hrun r Hin.
  destruct (execute_parallel_tasks_rule
              (fun st => clock st = clock s)
              (fun _ res => (0 <= execution_time res)%Q)) with
      (tasks := tasks) (oracle := oracle) (s := s) (results := results) (s' := s')
    as (_ & Hall).
  - intros t b st Hst. rewrite <- Hst. apply sandbox_clock.
  - intros t b st res Hst Hres.
    apply (proj2 (sandbox_clock t b st)); [rewrite Hst; exact Hm|exact Hres].
  - intros t e. cbn. discriminate.
  - reflexivity.
  - exact Hrun.
  - destruct (In_nth_error _ _ Hin) as (i & Hi).
    destruct (execute_parallel_tasks_spec tasks oracle s)
      as (results' & s'' & He & Hl & _).
    rewrite Hrun in He. inversion He; subst.
    destruct (nth_error tasks i) as [t|] eqn:Et.
    + apply (Hall i t r Et Hi).
    + apply nth_error_None in Et. apply nth_error_lt in Hi. lia.
Qed.

Lemma execution_time_is_not_negative_witness :
  monotone (clock engine_entered) /\
  Forall (fun r => (0 <= execution_time r)%Q)
         (returned_results
            (fst (execute_parallel_tasks [test_task_1; task_nested_input]
                    (fun i => match i with
                              | 0 => worker_hangs
                              | _ => no_parent_directory
                              end) engine_entered))).
Proof.
  split; [exact sample_clock_monotone|].
  destruct (execute_parallel_tasks_spec [test_task_1; task_nested_input]
              (fun i => match i with 0 => worker_hangs | _ => no_parent_directory end)
              engine_entered) as (results & s' & He & _).
  rewrite He. cbn [fst returned_results]. apply Forall_forall.
  exact (execution_time_is_not_negative _ _ engine_entered results s'
           sample_clock_monotone He).
Defined.

(** ** Leaving the engine *)

Lemma terminate_all_events ps : forall s,
  active_processes (terminate_all ps s) = active_processes s /\
  files (terminate_all ps s) = files s /\
  (forall e, In e (events s) -> In e (events (terminate_all ps s))) /\
  (forall tid p, In (tid, p) ps -> returncode p = None ->
     In (Terminate tid) (events (terminate_all ps s)) /\
     (ignores_terminate p = true -> In (Kill tid) (events (terminate_all ps s)))).
Proof.
  induction ps as [|[tid0 p0] ps IH]; intros s.
  - simpl. repeat split; try tauto; contradiction.
  - cbn [terminate_all]. destruct (returncode p0) as [c|] eqn:Erc.
    + destruct (IH s) as (Ha & Hf & He & Hp).
      split; [exact Ha|split; [exact Hf|split; [exact He|]]].
      intros tid p [Heq|Hin] Hn; [inversion Heq; subst; congruence|].
      apply (Hp tid p Hin Hn).
    + set (s1 := emit (Terminate tid0) s).
      set (s2 := if ignores_terminate p0 then emit (Kill tid0) s1 else s1).
      assert (Hs2 : active_processes s2 = active_processes s /\ files s2 = files s /\
                    (forall e, In e (events s) -> In e (events s2)) /\
                    In (Terminate tid0) (events s2) /\
                    (ignores_terminate p0 = true -> In (Kill tid0) (events s2))).
      { unfold s2, s1. destruct (ignores_terminate p0); cbn;
          repeat split; try reflexivity; intros;
          rewrite ?in_app_iff; cbn; try tauto; discriminate. }
      destruct Hs2 as (Ha2 & Hf2 & He2 & Ht2 & Hk2).
      destruct (IH s2) as (Ha & Hf & He & Hp).
      split; [congruence|split; [congruence|split]].
      * intros e Hin. apply He, He2, Hin.
      * intros tid p [Heq|Hin] Hn.
        -- inversion Heq; subst. split; [apply He, Ht2|].
           intros Hig. apply He, Hk2, Hig.
        -- apply (Hp tid p Hin Hn).
Qed.

Lemma under_self d : under d d = true.
Proof. unfold under. rewrite String.eqb_refl. reflexivity. Qed.

Lemma cleanup_state s :
  snd (cleanup s) =
  let s1 := set_active [] (terminate_all (active_processes s) s) in
  match temp_dir s1 with
  | Some (String c r) => if dir_exists (String c r) s1 then rmtree (String c r) s1 else s1
  | _ => s1
  end.
Proof. reflexivity. Qed.

(** X5.  What [cleanup] leaves behind.  After [cleanup] the process
    table is empty; every process that was still running has been sent
    a terminate signal, and a kill signal if it ignored it; and when
    the temporary directory exists, no directory and no file below it
    remains, while every directory and file outside it is kept. *)
Theorem cleanup_leaves_nothing_behind :
  forall s td,
    temp_dir s = Some td -> td <> EmptyString -> dir_exists td s = true ->
    let s' := snd (cleanup s) in
    active_processes s' = [] /\
    (forall tid p, In (tid, p) (active_processes s) -> returncode p = None ->
       In (Terminate tid) (events s') /\
       (ignores_terminate p = true -> In (Kill tid) (events s'))) /\
    (forall p, In p (dirs s') <-> In p (dirs s) /\ under td p = false) /\
    (forall f, In f (files s') <-> In f (files s) /\ under td (fst (fst f)) = false).
Proof.
  intros s td Ht Hne Hex. cbv zeta. rewrite cleanup_state. cbv zeta.
  destruct (terminate_all_frame (active_processes s) s) as (Hd & Htd).
  destruct (terminate_all_events (active_processes s) s) as (Ha & Hf & He & Hp).
  set (s0 := terminate_all (active_processes s) s) in *.
  cbn [temp_dir set_active]. rewrite Htd, Ht.
  destruct td as [|c r]; [congruence|].
  assert (Hex1 : dir_exists (String c r) (set_active [] s0) = true)
    by (unfold dir_exists; cbn; rewrite Hd; exact Hex).
  rewrite Hex1. unfold rmtree.
  cbn [active_processes events dirs files set_files set_dirs set_active].
  split; [reflexivity|split; [exact Hp|split]].
  - intros p. rewrite filter_In, Hd, negb_true_iff. tauto.
  - intros f. rewrite filter_In, Hf, negb_true_iff. tauto.
Qed.

Lemma cleanup_leaves_nothing_behind_witness :
  let s := snd (_execute_agent_task test_task_1 worker_ok engine_entered) in
  temp_dir s = Some scratch /\ dir_exists scratch s = true /\
  active_processes (snd (cleanup s)) = [] /\
  (forall p, In p (dirs (snd (cleanup s))) <-> In p (dirs s) /\ under scratch p = false).
Proof.
  cbv zeta.
  pose proof (execute_agent_task_post test_task_1 worker_ok engine_entered)
    as (Ht & Hd & _).
  assert (Ht' : temp_dir (snd (_execute_agent_task test_task_1 worker_ok engine_entered))
                = Some scratch) by (rewrite Ht; reflexivity).
  assert (Hd' : dir_exists scratch
                  (snd (_execute_agent_task test_task_1 worker_ok engine_entered)) = true)
    by (apply Hd; reflexivity).
  assert (Hne : scratch <> EmptyString) by discriminate.
  destruct (cleanup_leaves_nothing_behind _ scratch Ht' Hne Hd') as (Ha & _ & Hdirs & _).
  split; [exact Ht'|split; [exact Hd'|split; [exact Ha|exact Hdirs]]].
Defined.

Lemma dir_exists_rmtree_self d s : dir_exists d (rmtree d s) = false.
Proof. apply rmtree_removes, under_self. Qed.

(** X6.  [cleanup] is idempotent.  Running it a second time changes
    nothing: no further signal is sent and no further file or directory
    is removed. *)
Theorem cleanup_twice_is_cleanup :
  forall s, snd (cleanup (snd (cleanup s))) = snd (cleanup s).
Proof.
  intros s. rewrite (cleanup_state (snd (cleanup s))). cbv zeta.
  rewrite (cleanup_state s). cbv zeta.
  set (s1 := set_active [] (terminate_all (active_processes s) s)).
  assert (Hfix : forall x, active_processes x = [] ->
                           set_active [] (terminate_all (active_processes x) x) = x).
  { intros x Hx. rewrite Hx. cbn [terminate_all]. destruct x. cbn in *. subst.
    reflexivity. }
  destruct (temp_dir s1) as [[|c r]|] eqn:Et.
  - rewrite (Hfix s1 eq_refl), Et. reflexivity.
  - destruct (dir_exists (String c r) s1) eqn:Ed.
    + rewrite (Hfix (rmtree (String c r) s1) eq_refl).
      cbn [temp_dir rmtree set_files set_dirs]. rewrite Et.
      fold (rmtree (String c r) s1). rewrite dir_exists_rmtree_self. reflexivity.
    + rewrite (Hfix s1 eq_refl), Et, Ed. reflexivity.
  - rewrite (Hfix s1 eq_refl), Et. reflexivity.
Qed.

(** ** The content of the workspace *)

Lemma same_path_true a b : same_path a b = true <-> a = b.
Proof.
  unfold same_path. destruct a as [a1 a2], b as [b1 b2]. cbn [fst snd].
  rewrite andb_true_iff, !String.eqb_eq. split; [intros (-> & ->); reflexivity|].
  intros H. inversion H. split; reflexivity.
Qed.

Lemma same_path_refl a : same_path a a = true.
Proof. apply same_path_true. reflexivity. Qed.

Lemma lookup_store_same d n x s : lookup_file d n (store_file d n x s) = Some x.
Proof.
  unfold lookup_file, store_file. cbn [files set_files].
  induction (files s) as [|f l IH]; cbn -[same_path].
  - rewrite same_path_refl. reflexivity.
  - destruct (same_path (fst f) (d, n)) eqn:E; cbn -[same_path]; [exact IH|].
    rewrite E. exact IH.
Qed.

Lemma lookup_store_other d n d' n' x s :
  (d, n) <> (d', n') ->
  lookup_file d n (store_file d' n' x s) = lookup_file d n s.
Proof.
  intros Hne. unfold lookup_file, store_file. cbn [files set_files].
  induction (files s) as [|f l IH]; cbn -[same_path].
  - destruct (same_path (d', n') (d, n)) eqn:E; [|reflexivity].
    apply same_path_true in E. congruence.
  - destruct (same_path (fst f) (d', n')) eqn:E1; cbn -[same_path].
    + destruct (same_path (fst f) (d, n)) eqn:E2; [|exact IH].
      apply same_path_true in E1, E2. congruence.
    + destruct (same_path (fst f) (d, n)); [reflexivity|exact IH].
Qed.

Lemma write_all_content b d l : forall s s' u,
  write_all b d l s = (Returns u, s') ->
  NoDup (map fst l) ->
  (forall n c, In (n, c) l -> lookup_file d n s' = Some (Text c)) /\
  (forall d' n, ~ (d' = d /\ In n (map fst l)) -> lookup_file d' n s' = lookup_file d' n s).
Proof.
  induction l as [|[n0 c0] l IH]; intros s s' u H Hnd.
  - inversion H; subst. split; [intros n c []|reflexivity].
  - cbn [write_all] in H. unfold abind in H.
    pose proof (write_text_cases b d n0 c0 s) as Hw.
    destruct (write_fault b n0); rewrite Hw in H; [discriminate|].
    inversion Hnd as [|? ? Hnotin Hnd']; subst.
    destruct (IH _ _ _ H Hnd') as (Hin & Hout).
    split.
    + intros n c [Heq|Hl].
      * inversion Heq; subst. rewrite Hout.
        -- apply lookup_store_same.
        -- intros (_ & Hc). apply Hnotin, Hc.
      * apply (Hin n c Hl).
    + intros d' n Hno. rewrite Hout.
      * apply lookup_store_other. intros Heq. inversion Heq; subst.
        apply Hno. split; [reflexivity|left; reflexivity].
      * intros (Hd & Hc). apply Hno. split; [exact Hd|right; exact Hc].
Qed.

(** X7.  What the workspace holds.  When [_create_task_workspace]
    returns for a task with a plain identifier whose input files have
    plain, pairwise different names, the task directory exists below the engine's temporary
    directory, "prompt.txt" in it holds the task's prompt, and every
    input file with another name holds its given content.  (A name such
    as [./a.txt] or [./prompt.txt] is not plain: [pathlib] makes it the
    same file as [a.txt] or as the prompt.) *)
Theorem workspace_holds_prompt_and_inputs :
  forall task b s d s' inputs,
    _create_task_workspace task b s = (Returns d, s') ->
    input_files task = Some inputs ->
    plain_name (task_id task) = true ->
    Forall (fun f => plain_name (fst f) = true) inputs ->
    NoDup (map fst inputs) ->
    (exists td, temp_dir s = Some td /\ d = path_join td (task_id task)) /\
    dir_exists d s' = true /\
    lookup_file d "prompt.txt" s' = Some (Text (prompt task)) /\
    forall name content,
      In (name, content) inputs -> name <> "prompt.txt" ->
      lookup_file d name s' = Some (Text content).
Proof.
  intros task b s d s' inputs Hrun Hin _ _ Hnd.
  pose proof (create_task_workspace_post task b s) as (_ & _ & Hp).
  rewrite Hrun in Hp. cbn [fst snd] in Hp.
  destruct Hp as (td & Htd & Hd & Hex & _).
  split; [exists td; split; assumption|split; [exact Hex|]].
  revert Hrun. unfold _create_task_workspace, abind, get. rewrite Htd.
  unfold mkdir_exist_ok, abind, may_raise, modify, raise.
  destruct (mkdir_fault b); [discriminate|]. cbn [ret fst snd].
  rewrite <- Hd.
  set (s1 := if dir_exists d s then s else set_dirs (dirs s ++ [d]) s).
  destruct (write_inputs task b d s1) as [[u|e] s2] eqn:Ei; [|discriminate].
  pose proof (write_text_cases b d "prompt.txt" (prompt task) s2) as Hw.
  destruct (write_fault b "prompt.txt"); rewrite Hw; [discriminate|].
  intros H. inversion H; subst s'. clear H.
  split; [apply lookup_store_same|].
  intros name content Hmem Hname.
  rewrite lookup_store_other by (intros Heq; inversion Heq; congruence).
  unfold write_inputs in Ei. rewrite Hin in Ei.
  destruct inputs as [|f l]; [contradiction|].
  destruct (write_all_content b d (f :: l) s1 s2 u Ei Hnd) as (Hc & _).
  apply (Hc name content Hmem).
Qed.

Lemma workspace_holds_prompt_and_inputs_witness :
  let r := _create_task_workspace task_with_input worker_ok engine_entered in
  exists d,
    fst r = Returns d /\
    lookup_file d "prompt.txt" (snd r) = Some (Text "Specify section 2") /\
    lookup_file d "app.md" (snd r) = Some (Text "# App").
Proof.
  cbv zeta.
  assert (H : exists d, fst (_create_task_workspace task_with_input worker_ok engine_entered)
                        = Returns d) by (eexists; vm_compute; reflexivity).
  destruct H as (d & Hd). exists d. split; [exact Hd|].
  destruct (_create_task_workspace task_with_input worker_ok engine_entered)
    as [o s'] eqn:E.
  cbn [fst snd] in *. subst o.
  assert (Hnd : NoDup (map fst [("app.md", "# App")]))
    by (constructor; [intros []|constructor]).
  assert (Hplain : Forall (fun f : string * string => plain_name (fst f) = true)
                          [("app.md", "# App")])
    by (constructor; [reflexivity|constructor]).
  destruct (workspace_holds_prompt_and_inputs task_with_input worker_ok engine_entered
              d s' [("app.md", "# App")] E eq_refl eq_refl Hplain Hnd) as (_ & _ & Hp & Hi).
  split; [exact Hp|].
  apply (Hi "app.md" "# App"); [left; reflexivity|discriminate].
Defined.

(** ** Task identifiers *)

Lemma digit_code m : m < 10 -> code (ascii_of_nat (48 + m)) - 48 = m.
Proof.
  intros H. unfold code. rewrite nat_ascii_embedding by lia. lia.
Qed.

Lemma digit_is_digit m : m < 10 -> is_digit (ascii_of_nat (48 + m)) = true.
Proof.
  intros H. unfold is_digit, code. rewrite nat_ascii_embedding by lia.
  apply andb_true_iff. split; apply Nat.leb_le; lia.
Qed.

Lemma digits_decode : forall fuel n acc,
  n < fuel ->
  decode_from 0 (digits_of_pos_aux fuel n acc) = decode_from n acc.
Proof.
  induction fuel as [|f IH]; intros n acc Hn; [lia|].
  cbn [digits_of_pos_aux].
  pose proof (Nat.mod_upper_bound n 10 ltac:(lia)) as Hm.
  pose proof (Nat.div_mod_eq n 10) as Hdm.
  destruct (n / 10 =? 0) eqn:E.
  - apply Nat.eqb_eq in E. unfold decode_from. cbn [list_ascii_of_string fold_left].
    rewrite digit_code by exact Hm. f_equal. lia.
  - apply Nat.eqb_neq in E. rewrite IH.
    + unfold decode_from. cbn [list_ascii_of_string fold_left].
      rewrite digit_code by exact Hm. f_equal. lia.
    + assert (n / 10 < n) by (apply Nat.div_lt; lia). lia.
Qed.

(** [int(str(n)) == n] *)
Lemma str_of_nat_decodes n : nat_of_digits (str_of_nat n) = n.
Proof. unfold str_of_nat. apply (digits_decode (S n) n EmptyString). lia. Qed.

Lemma digits_all_digits : forall fuel n acc,
  Forall (fun c => is_digit c = true) (list_ascii_of_string acc) ->
  Forall (fun c => is_digit c = true)
         (list_ascii_of_string (digits_of_pos_aux fuel n acc)).
Proof.
  induction fuel as [|f IH]; intros n acc Hacc; [exact Hacc|].
  cbn [digits_of_pos_aux].
  assert (Hd : Forall (fun c => is_digit c = true)
                 (list_ascii_of_string (String (ascii_of_nat (48 + n mod 10)) acc))).
  { cbn [list_ascii_of_string]. constructor; [|exact Hacc].
    apply digit_is_digit, Nat.mod_upper_bound. lia. }
  destruct (n / 10 =? 0); [exact Hd|apply IH, Hd].
Qed.

Lemma str_of_nat_digits n :
  Forall (fun c => is_digit c = true) (list_ascii_of_string (str_of_nat n)).
Proof. apply digits_all_digits. constructor. Qed.

(** Two decimal numbers followed by an underscore are equal when the
    texts that start with them are. *)
Lemma digits_before_underscore : forall a b x y,
  Forall (fun c => is_digit c = true) (list_ascii_of_string a) ->
  Forall (fun c => is_digit c = true) (list_ascii_of_string b) ->
  (a ++ "_" ++ x)%string = (b ++ "_" ++ y)%string -> a = b.
Proof.
  induction a as [|c a IH]; intros b x y Ha Hb H.
  - destruct b as [|d b]; [reflexivity|].
    cbn [append] in H. inversion H; subst. inversion Hb as [|? ? Hd _]; subst.
    vm_compute in Hd. discriminate.
  - destruct b as [|d b].
    + cbn [append] in H. inversion H; subst. inversion Ha as [|? ? Hc _]; subst.
      vm_compute in Hc. discriminate.
    + cbn [append] in H. inversion H as [[Hcd Htl]]. subst d. f_equal.
      inversion Ha; inversion Hb; subst. apply (IH b x y); assumption.
Qed.

Lemma append_cancel_l p : forall a b, (p ++ a)%string = (p ++ b)%string -> a = b.
Proof.
  induction p as [|c p IH]; intros a b H; [exact H|].
  cbn in H. inversion H. apply IH. assumption.
Qed.

Lemma numbered_ids_differ pre i j x y :
  (pre ++ str_of_nat i ++ "_" ++ x)%string = (pre ++ str_of_nat j ++ "_" ++ y)%string ->
  i = j.
Proof.
  intros H. apply append_cancel_l in H.
  apply digits_before_underscore in H; [|apply str_of_nat_digits|apply str_of_nat_digits].
  rewrite <- (str_of_nat_decodes i), <- (str_of_nat_decodes j), H. reflexivity.
Qed.

Lemma build_tasks_ids mk : forall agents s tasks s',
  build_tasks mk agents s = (Returns tasks, s') ->
  forall i k name, nth_error agents i = Some (k, name) ->
    exists now limit, nth_error tasks i = Some (mk k name now limit).
Proof.
  intros agents s tasks s' H.
  destruct (build_tasks_spec mk agents s) as (tasks' & s'' & Hb & _ & Hn).
  rewrite H in Hb. inversion Hb; subst. exact Hn.
Qed.

(** A batch built from numbered identifiers has no identifier twice. *)
Lemma numbered_batch_ids agents mk oracle ty meta pre :
  (forall k n now l,
      task_id (mk k n now l) = (pre ++ str_of_nat k ++ "_" ++ str_of_Z now)%string) ->
  forall s res s' results,
    (start_time <~ time_time ;;
     tasks <~ build_tasks mk (enumerate agents) ;;
     results <~ execute_parallel_tasks tasks oracle ;;
     finish ty start_time results meta) s = (Returns res, s') ->
    o_all_results res = Some results ->
    NoDup (map r_task_id results).
Proof.
  intros Hid s res s' results.
  destruct (build_tasks_spec mk (enumerate agents) (snd (time_time s)))
    as (tasks & s1 & Hb & Hl & Hn).
  destruct (execute_parallel_tasks_spec tasks oracle s1)
    as (rs & s2 & He & Hlr & _ & _ & Hr).
  unfold time_time in Hb. cbn [snd] in Hb.
  unfold abind. unfold time_time at 1. cbv beta iota. rewrite Hb.
  cbv beta iota. rewrite He. cbv beta iota.
  unfold finish, abind, time_time, ret. cbv beta iota.
  intros H Hres. inversion H; subst. cbn in Hres. inversion Hres; subst. clear H Hres.
  assert (Hla : List.length tasks = List.length agents).
  { rewrite Hl. unfold enumerate. rewrite length_combine, length_seq. apply Nat.min_id. }
  assert (Hidx : forall i r, nth_error results i = Some r ->
            exists now, r_task_id r = (pre ++ str_of_nat i ++ "_" ++ str_of_Z now)%string).
  { intros i r Hi.
    assert (Hlt : i < List.length agents).
    { rewrite <- Hla, <- Hlr. eapply nth_error_lt, Hi. }
    destruct (nth_error agents i) as [a|] eqn:Ea; [|apply nth_error_None in Ea; lia].
    destruct (Hn i i a (nth_error_enumerate agents i a Ea)) as (now & limit & Ht).
    destruct (Hr i _ Ht) as (r' & Hr' & Htid & _).
    rewrite Hi in Hr'. inversion Hr'; subst r'.
    exists now. rewrite Htid. apply Hid. }
  apply NoDup_nth_error. intros i j Hi Hij.
  rewrite length_map in Hi.
  rewrite !nth_error_map in Hij.
  destruct (nth_error results i) as [ri|] eqn:Ei; [|apply nth_error_None in Ei; lia].
  destruct (nth_error results j) as [rj|] eqn:Ej; [|discriminate].
  cbn in Hij. inversion Hij as [Heq].
  destruct (Hidx i ri Ei) as (ni & Hti). destruct (Hidx j rj Ej) as (nj & Htj).
  rewrite Hti, Htj in Heq. apply (numbered_ids_differ _ _ _ _ _ Heq).
Qed.

(** X8.  Identifiers within a batch are distinct.  The results that
    [orchestrate_design], [orchestrate_feature] and
    [orchestrate_development] report carry pairwise different task
    identifiers, so no two tasks of one batch use the same task
    directory. *)
Theorem batch_task_ids_are_distinct :
  forall prompt section_id feat_specs agents language dev_language
         app_md_content feat_content oracle s res s' results,
    (orchestrate_design prompt agents language oracle s = (Returns res, s') \/
     orchestrate_feature section_id agents language app_md_content oracle s
     = (Returns res, s') \/
     orchestrate_development feat_specs agents dev_language feat_content oracle s
     = (Returns res, s')) ->
    o_all_results res = Some results ->
    NoDup (map r_task_id results).
Proof.
  intros prompt section_id feat_specs agents language dev_language
         app_md_content feat_content oracle s res s' results [H|[H|H]] Hres.
  - eapply (numbered_batch_ids agents _ oracle _ _ "design_"); [|exact H|exact Hres].
    reflexivity.
  - eapply (numbered_batch_ids agents _ oracle _ _ ("feat_" ++ section_id ++ "_")%string);
      [|exact H|exact Hres].
    intros k n now l. cbn [task_id]. rewrite <- !append_assoc3. reflexivity.
  - eapply (numbered_batch_ids agents _ oracle _ _ "dev_"); [|exact H|exact Hres].
    reflexivity.
Qed.

Lemma batch_task_ids_are_distinct_witness :
  exists res s' results,
    orchestrate_design "timer" ["gad"; "pad"] (Some "go") (fun _ => worker_ok)
                       engine_entered = (Returns res, s') /\
    o_all_results res = Some results /\
    List.length results = 2 /\
    NoDup (map r_task_id results).
Proof.
  assert (H : selects_first_success ["gad"; "pad"]
                (orchestrate_design "timer" ["gad"; "pad"] (Some "go")
                                    (fun _ => worker_ok)))
    by (apply orchestrate_shape; reflexivity).
  destruct (H engine_entered) as (res & s' & results & Hrun & Hall & Hlen & _).
  exists res, s', results.
  split; [exact Hrun|split; [exact Hall|split; [exact Hlen|]]].
  exact (batch_task_ids_are_distinct "timer" "" [] ["gad"; "pad"] (Some "go") "" None None
           (fun _ => worker_ok) engine_entered res s' results (or_introl Hrun) Hall).
Defined.

End EngineExtra.

Module EvalExtra.
Import PyStr Regex FeatEval ExpectedStructure EvalContracts EvalMore FeatFacts.

(** ** Validity and sets of sections *)

Lemma existsb_eqb_in x l : existsb (String.eqb x) l = true <-> In x l.
Proof.
  rewrite existsb_exists. split.
  - intros (y & Hy & He). apply String.eqb_eq in He. subst. exact Hy.
  - intros H. exists x. split; [exact H|apply String.eqb_refl].
Qed.

Lemma in_difference_elements a b x :
  In x (difference_elements a b) <-> In x a /\ ~ In x b.
Proof.
  unfold difference_elements. rewrite nodup_In, filter_In, negb_true_iff.
  split; intros (H1 & H2); (split; [exact H1|]).
  - intros Hb. apply existsb_eqb_in in Hb. congruence.
  - destruct (existsb (String.eqb x) b) eqn:E; [|reflexivity].
    exfalso. apply H2, existsb_eqb_in, E.
Qed.

Lemma in_list_of_difference {order : SetOrder} a b x :
  In x (list_of_difference a b) <-> In x a /\ ~ In x b.
Proof.
  rewrite <- in_difference_elements. split; apply Permutation_in.
  - apply list_of_difference_perm.
  - apply Permutation_sym, list_of_difference_perm.
Qed.

Lemma difference_empty {order : SetOrder} a b :
  list_of_difference a b = [] <-> (forall x, In x a -> In x b).
Proof.
  split.
  - intros H x Hx. destruct (in_dec string_dec x b) as [Hb|Hb]; [exact Hb|].
    assert (Hin : In x (list_of_difference a b)) by (apply in_list_of_difference; tauto).
    rewrite H in Hin. contradiction.
  - intros H. destruct (list_of_difference a b) as [|x l] eqn:E; [reflexivity|].
    assert (Hin : In x (list_of_difference a b)) by (rewrite E; left; reflexivity).
    apply in_list_of_difference in Hin. destruct Hin as (Ha & Hb).
    exfalso. apply Hb, H, Ha.
Qed.

(** X9.  Validity is inclusion of sets.  A feature specification is
    structurally valid exactly when every expected section title occurs
    among the titles found in it; the missing list holds the expected
    titles that are not found, and the extra list the found titles that
    are not expected.  Extra sections never make a specification
    invalid. *)
Theorem valid_iff_every_expected_section_found :
  forall (order : SetOrder) content expected,
    let v := validate_structure content expected in
    (is_valid v = true <-> forall x, In x expected -> In x (found_sections v)) /\
    (forall x, In x (missing_sections v) <->
               In x expected /\ ~ In x (found_sections v)) /\
    (forall x, In x (extra_sections v) <->
               In x (found_sections v) /\ ~ In x expected).
Proof.
  intros order content expected. cbv zeta.
  destruct (validate_structure_lists content expected) as (Hm & He & Hf).
  rewrite Hm, He, Hf.
  split; [|split; intros x; apply in_list_of_difference].
  rewrite <- difference_empty.
  unfold validate_structure.
  destruct expected as [|x l]; [cbn; split; [intros _|reflexivity]|].
  - apply difference_empty. intros y [].
  - destruct (list_of_difference (x :: l) _) as [|m ms];
      destruct (list_of_difference _ (x :: l)); cbn;
      split; intros H; try reflexivity; discriminate.
Qed.

(** X10.  A document matches its own outline.  Validating a document
    against the section list extracted from that same document reports
    nothing missing and nothing extra, is valid, and scores 1.0. *)
Theorem document_matches_its_own_outline :
  forall (order : SetOrder) content,
    let v := validate_structure content (extract_section_structure content) in
    missing_sections v = [] /\ extra_sections v = [] /\
    is_valid v = true /\ (structure_score v == 1)%Q.
Proof.
  intros order content. cbv zeta.
  set (found := extract_section_structure content).
  assert (Hd : list_of_difference found found = [])
    by (apply difference_empty; tauto).
  destruct (validate_structure_lists content found) as (Hm & He & _).
  fold found in Hm, He. rewrite Hm, He, Hd.
  split; [reflexivity|split; [reflexivity|]].
  unfold validate_structure. fold found.
  destruct found as [|x l]; [split; reflexivity|].
  rewrite Hd. split; reflexivity.
Qed.

(** ** Ranges of the scores *)

(** X11.  Feature scores are between 0 and 1.  For every text,
    expected structure and language, the overall score of
    [evaluate_feature] and each of its five criterion scores lie in
    [0, 1]. *)
Theorem feature_scores_in_unit_interval :
  forall (order : SetOrder) (M : Type) content expected language (meta : option M),
    let s := evaluate_feature content expected language meta in
    in01 (overall_score s) /\ in01 (structural_integrity s) /\
    in01 (implementation_detail s) /\ in01 (language_specificity s) /\
    in01 (technical_accuracy s) /\ in01 (clarity s).
Proof.
  intros order M content expected language meta. cbv zeta.
  split; [apply (overall_bounds content expected language meta)|].
  unfold evaluate_feature. cbv zeta.
  destruct (is_valid _);
    cbn [structural_integrity implementation_detail language_specificity
         technical_accuracy clarity];
    (split; [apply structure_score_bounds|
     split; [apply implementation_detail_in01|
     split; [apply language_specificity_in01|
     split; [apply technical_accuracy_in01|apply clarity_in01]]]]).
Qed.

Lemma weighted_in (s w : Q) : in01 s -> (0 <= w)%Q -> (0 <= s * w /\ s * w <= w)%Q.
Proof.
  intros (H0 & H1) Hw. split.
  - apply Qmult_le_0_compat; assumption.
  - setoid_replace w with (1 * w)%Q at 2 by ring.
    apply Qmult_le_compat_r; assumption.
Qed.

(** X12.  Design scores are between 0 and 1.  Each of the six
    criterion scores of [evaluate_design] lies in [0, 1], and so does
    the overall score whenever the weights are non-negative and sum to
    one, as the default weights do. *)
Theorem design_scores_in_unit_interval :
  forall criteria (M : Type) content language (meta : option M),
    convex criteria ->
    let s := DesignEval.evaluate_design criteria content language meta in
    in01 (DesignEval.overall_score s) /\ in01 (DesignEval.language_idioms s) /\
    in01 (DesignEval.architecture s) /\ in01 (DesignEval.implementability s) /\
    in01 (DesignEval.completeness s) /\ in01 (DesignEval.innovation s) /\
    in01 (DesignEval.documentation s).
Proof.
  intros criteria M content language meta (W1 & W2 & W3 & W4 & W5 & W6 & Wsum).
  cbv zeta. unfold DesignEval.evaluate_design. cbv zeta.
  cbn [DesignEval.overall_score DesignEval.language_idioms DesignEval.architecture
       DesignEval.implementability DesignEval.completeness DesignEval.innovation
       DesignEval.documentation].
  assert (Hl : in01 (t_score (DesignEval.evaluate_language_idioms content language))).
  { unfold DesignEval.evaluate_language_idioms.
    destruct language as [[|a l]|]; try exact (clamped_in01 _).
    destruct (DesignEval.language_patterns _); exact (clamped_in01 _). }
  assert (Ha : in01 (t_score (DesignEval.evaluate_architecture content)))
    by exact (clamped_in01 _).
  assert (Hi : in01 (t_score (DesignEval.evaluate_implementability content)))
    by exact (clamped_in01 _).
  assert (Hc : in01 (t_score (DesignEval.evaluate_completeness content)))
    by exact (clamped_in01 _).
  assert (Hn : in01 (t_score (DesignEval.evaluate_innovation content)))
    by exact (clamped_in01 _).
  assert (Hd : in01 (t_score (DesignEval.evaluate_documentation content)))
    by exact (clamped_in01 _).
  split; [|repeat split; assumption || apply Hl || apply Ha || apply Hi
                         || apply Hc || apply Hn || apply Hd].
  destruct (weighted_in _ _ Hl W1), (weighted_in _ _ Ha W2), (weighted_in _ _ Hi W3),
           (weighted_in _ _ Hc W4), (weighted_in _ _ Hn W5), (weighted_in _ _ Hd W6).
  split; lra.
Qed.

Lemma default_criteria_convex : convex DesignEval.default_criteria.
Proof. unfold convex. cbn. repeat split; try discriminate. Qed.

Lemma design_scores_in_unit_interval_witness :
  convex DesignEval.default_criteria /\
  in01 (DesignEval.overall_score
          (DesignEval.evaluate_design DesignEval.default_criteria
             "# Overview" (Some "go") (@None unit))).
Proof.
  split; [exact default_criteria_convex|].
  exact (proj1 (design_scores_in_unit_interval DesignEval.default_criteria unit
                  "# Overview" (Some "go") None default_criteria_convex)).
Defined.

(** ** Order of a ranking *)

Lemma insert_ranked {T} (key : nat * T -> Q) x l :
  StronglySorted (ranked_before key) l ->
  Forall (fun y => fst x < fst y) l ->
  StronglySorted (ranked_before key) (insert_desc key x l).
Proof.
  induction l as [|y l IH]; intros Hs Hx.
  - cbn. constructor; constructor.
  - apply StronglySorted_inv in Hs. destruct Hs as (Hs & Hy).
    apply Forall_cons_iff in Hx. destruct Hx as (Hxy & Hx).
    cbn [insert_desc]. destruct (Qlt_bool (key x) (key y)) eqn:E.
    + apply Qlt_bool_true in E. constructor; [apply IH; assumption|].
      apply Forall_forall. intros z Hz. apply in_insert_desc in Hz.
      destruct Hz as [->|Hz]; [left; exact E|].
      rewrite Forall_forall in Hy. apply Hy, Hz.
    + apply Qlt_bool_false in E.
      constructor; [constructor; assumption|].
      assert (Hle : forall z, In z (y :: l) -> (key z <= key x)%Q).
      { intros z [<-|Hz]; [exact E|].
        rewrite Forall_forall in Hy. destruct (Hy z Hz) as [Hlt|(Heq & _)].
        - apply Qlt_le_weak in Hlt. eapply Qle_trans; eassumption.
        - rewrite Heq. exact E. }
      apply Forall_forall. intros z Hz.
      assert (Hidx : fst x < fst z).
      { destruct Hz as [<-|Hz]; [exact Hxy|].
        rewrite Forall_forall in Hx. apply Hx, Hz. }
      destruct (Qlt_le_dec (key z) (key x)) as [Hlt|Hge]; [left; exact Hlt|].
      right. split; [apply Qle_antisym; [apply Hle, Hz|exact Hge]|exact Hidx].
Qed.

Lemma sort_ranked {T} (key : nat * T -> Q) l :
  StronglySorted lt (map fst l) ->
  StronglySorted (ranked_before key) (sort_desc key l).
Proof.
  induction l as [|x l IH]; intros Hs; [constructor|].
  cbn [map] in Hs. apply StronglySorted_inv in Hs. destruct Hs as (Hs & Hx).
  cbn [sort_desc fold_right]. apply insert_ranked; [apply IH, Hs|].
  apply Forall_forall. intros y Hy.
  change (In y (sort_desc key l)) in Hy. apply in_sort_desc in Hy.
  rewrite Forall_forall in Hx. apply Hx, in_map, Hy.
Qed.

Lemma strongly_sorted_nth {A} (R : A -> A -> Prop) l :
  StronglySorted R l ->
  forall i j a b, i < j -> nth_error l i = Some a -> nth_error l j = Some b -> R a b.
Proof.
  induction 1 as [|x l Hs IH Hx]; intros i j a b Hij Ha Hb.
  - destruct i; discriminate.
  - destruct j as [|j]; [lia|]. cbn in Hb. destruct i as [|i].
    + cbn in Ha. injection Ha as <-. rewrite Forall_forall in Hx.
      eapply Hx, nth_error_In, Hb.
    + cbn in Ha. apply (IH i j); [lia|assumption|assumption].
Qed.

Lemma scored_from {T} (f : nat * Candidate -> T) l k :
  let scored :=
    flat_map (fun ic => if truthy (candidate_text (snd ic))
                        then [(fst ic, f ic)] else [])
             (combine (seq k (List.length l)) l) in
  StronglySorted lt (map fst scored) /\
  forall item, In item scored ->
    k <= fst item /\
    exists c, nth_error l (fst item - k) = Some c /\
              truthy (candidate_text c) = true /\
              snd item = f (fst item, c).
Proof.
  cbv zeta. revert k. induction l as [|c l IH]; intros k.
  - cbn. split; [constructor|intros item []].
  - cbn [List.length seq combine flat_map fst snd].
    destruct (IH (S k)) as (Hs & Hin).
    assert (Htail : forall item,
               In item (flat_map (fun ic => if truthy (candidate_text (snd ic))
                                            then [(fst ic, f ic)] else [])
                                 (combine (seq (S k) (List.length l)) l)) ->
               k <= fst item /\
               exists c', nth_error (c :: l) (fst item - k) = Some c' /\
                          truthy (candidate_text c') = true /\
                          snd item = f (fst item, c')).
    { intros item Hi. destruct (Hin item Hi) as (Hk & c' & Hn & Ht & He).
      split; [lia|]. exists c'. split; [|split; assumption].
      replace (fst item - k) with (S (fst item - S k)) by lia. exact Hn. }
    destruct (truthy (candidate_text c)) eqn:Et.
    + cbn [app map fst]. split.
      * constructor; [exact Hs|]. apply Forall_forall. intros i Hi.
        apply in_map_iff in Hi. destruct Hi as (item & <- & Hi).
        destruct (Hin item Hi) as (Hk & _). lia.
      * intros item [<-|Hi]; [|apply Htail, Hi].
        cbn [fst snd]. split; [lia|]. exists c.
        rewrite Nat.sub_diag. repeat split. exact Et.
    + cbn [app]. split; [exact Hs|exact Htail].
Qed.

Lemma ranked_returns {T} (l ranked : list T) :
  (_ <- first_item l ;; Returns l) = Returns ranked -> ranked = l /\ l <> [].
Proof.
  destruct l as [|x l]; cbn; intros H; [discriminate|].
  injection H as <-. split; [reflexivity|discriminate].
Qed.

(** X13.  The design ranking is best first and stable.  When
    [rank_designs] returns, the list is not empty; every entry is the
    evaluation of the candidate at its index, whose text is not empty;
    entries come in descending order of overall score; entries with the
    same overall score keep the order of submission; and so no entry
    scores higher than the first one. *)
Theorem design_ranking_best_first :
  forall criteria candidates language ranked,
    DesignEval.rank_designs criteria candidates language = Returns ranked ->
    (forall item, In item ranked ->
       exists c, nth_error candidates (fst item) = Some c /\
                 truthy (candidate_text c) = true /\
                 snd item = DesignEval.evaluate_design criteria (candidate_text c)
                              language (Some c)) /\
    (forall i j a b,
       i < j -> nth_error ranked i = Some a -> nth_error ranked j = Some b ->
       (DesignEval.overall_score (snd b) <= DesignEval.overall_score (snd a))%Q /\
       ((DesignEval.overall_score (snd b) == DesignEval.overall_score (snd a))%Q ->
        fst a < fst b)) /\
    (exists best, nth_error ranked 0 = Some best /\
       forall item, In item ranked ->
         (DesignEval.overall_score (snd item) <= DesignEval.overall_score (snd best))%Q).
Proof.
  intros criteria candidates language ranked H.
  unfold DesignEval.rank_designs in H. cbv zeta in H.
  apply ranked_returns in H. destruct H as (-> & Hne).
  set (key := fun x : nat * DesignEval.DesignScore => DesignEval.overall_score (snd x)) in *.
  destruct (scored_from
              (fun ic => DesignEval.evaluate_design criteria (candidate_text (snd ic))
                           language (Some (snd ic)))
              candidates 0) as (Hs & Hin).
  fold (enumerate candidates) in Hs, Hin.
  fold (DesignEval.score_candidates criteria candidates language) in Hs, Hin.
  pose proof (sort_ranked key _ Hs) as Hsorted.
  assert (Hord : forall i j a b,
             i < j ->
             nth_error (sort_desc key (DesignEval.score_candidates criteria candidates language)) i = Some a ->
             nth_error (sort_desc key (DesignEval.score_candidates criteria candidates language)) j = Some b ->
             (key b <= key a)%Q /\ ((key b == key a)%Q -> fst a < fst b)).
  { intros i j a b Hij Ha Hb.
    destruct (strongly_sorted_nth _ _ Hsorted i j a b Hij Ha Hb) as [Hlt|(Heq & Hi)].
    - split; [apply Qlt_le_weak, Hlt|]. intros Heq. rewrite Heq in Hlt.
      exfalso. exact (Qlt_irrefl _ Hlt).
    - split; [rewrite Heq; apply Qle_refl|intros _; exact Hi]. }
  split; [|split].
  - intros item Hi. apply in_sort_desc in Hi.
    destruct (Hin item Hi) as (_ & c & Hn & Ht & He).
    rewrite Nat.sub_0_r in Hn. exists c. cbn [snd] in He.
    split; [exact Hn|split; [exact Ht|exact He]].
  - exact Hord.
  - destruct (sort_desc key _) as [|best rest] eqn:E; [contradiction Hne; reflexivity|].
    exists best. split; [reflexivity|].
    intros item Hi. apply In_nth_error in Hi. destruct Hi as (j & Hj).
    destruct j as [|j].
    + cbn in Hj. injection Hj as <-. apply Qle_refl.
    + apply (Hord 0 (S j) best item); [lia|reflexivity|exact Hj].
Qed.

Lemma design_ranking_best_first_witness :
  exists ranked,
    DesignEval.rank_designs DesignEval.default_criteria
      [candidate "a" "# Overview"; candidate "b" ""; candidate "c" "# Overview"] (Some "go")
    = Returns ranked /\
    map fst ranked = [0; 2] /\
    exists best, nth_error ranked 0 = Some best /\
      forall item, In item ranked ->
        (DesignEval.overall_score (snd item) <= DesignEval.overall_score (snd best))%Q.
Proof.
  eexists. split; [vm_compute; reflexivity|]. split; [reflexivity|].
  refine (proj2 (proj2 (design_ranking_best_first DesignEval.default_criteria
            [candidate "a" "# Overview"; candidate "b" ""; candidate "c" "# Overview"]
            (Some "go") _ _))).
  vm_compute. reflexivity.
Defined.

(** X14.  The feature ranking is stable.  When [rank_features]
    returns, every entry is the evaluation of the candidate at its
    index, whose text is not empty; entries come in descending order of
    the sort key (overall score, minus one when the structure is
    invalid); and entries with the same key keep the order of
    submission. *)
Theorem feature_ranking_keeps_submission_order :
  forall (order : SetOrder) candidates expected language ranked,
    rank_features candidates expected language = Returns ranked ->
    (forall item, In item ranked ->
       exists c, nth_error candidates (fst item) = Some c /\
                 truthy (candidate_text c) = true /\
                 snd item = evaluate_feature (candidate_text c) expected
                              language (Some c)) /\
    (forall i j a b,
       i < j -> nth_error ranked i = Some a -> nth_error ranked j = Some b ->
       (sort_key b <= sort_key a)%Q /\
       ((sort_key b == sort_key a)%Q -> fst a < fst b)).
Proof.
  intros order candidates expected language ranked H.
  unfold rank_features in H. cbv zeta in H.
  apply ranked_returns in H. destruct H as (-> & Hne).
  destruct (scored_from
              (fun ic => evaluate_feature (candidate_text (snd ic)) expected
                           language (Some (snd ic)))
              candidates 0) as (Hs & Hin).
  fold (enumerate candidates) in Hs, Hin.
  fold (score_candidates candidates expected language) in Hs, Hin.
  pose proof (sort_ranked sort_key _ Hs) as Hsorted.
  split.
  - intros item Hi. apply in_sort_desc in Hi.
    destruct (Hin item Hi) as (_ & c & Hn & Ht & He).
    rewrite Nat.sub_0_r in Hn. exists c. cbn [snd] in He.
    split; [exact Hn|split; [exact Ht|exact He]].
  - intros i j a b Hij Ha Hb.
    destruct (strongly_sorted_nth _ _ Hsorted i j a b Hij Ha Hb) as [Hlt|(Heq & Hi)].
    + split; [apply Qlt_le_weak, Hlt|]. intros Heq. rewrite Heq in Hlt.
      exfalso. exact (Qlt_irrefl _ Hlt).
    + split; [rewrite Heq; apply Qle_refl|intros _; exact Hi].
Qed.

Lemma feature_ranking_keeps_submission_order_witness :
  exists ranked,
    rank_features [candidate "a" "# Overview"; candidate "b" ""; candidate "c" "# Overview"]
      (Some ["overview"]) (Some "go") = Returns ranked /\
    map fst ranked = [0; 2] /\
    forall i j a b,
      i < j -> nth_error ranked i = Some a -> nth_error ranked j = Some b ->
      (sort_key b <= sort_key a)%Q /\
      ((sort_key b == sort_key a)%Q -> fst a < fst b).
Proof.
  eexists. split; [vm_compute; reflexivity|]. split; [reflexivity|].
  refine (proj2 (feature_ranking_keeps_submission_order first_occurrence_order
            [candidate "a" "# Overview"; candidate "b" ""; candidate "c" "# Overview"]
            (Some ["overview"]) (Some "go") _ _)).
  vm_compute. reflexivity.
Defined.

(** ** Normalised titles *)

Lemma is_space_lower_char c : is_space (lower_char c) = is_space c.
Proof. destruct c as [[] [] [] [] [] [] [] []]; reflexivity. Qed.

Lemma lower_char_twice c : lower_char (lower_char c) = lower_char c.
Proof. destruct c as [[] [] [] [] [] [] [] []]; reflexivity. Qed.

Lemma lower_twice s : lower (lower s) = lower s.
Proof.
  unfold lower. induction s as [|c s IH]; cbn [map_chars]; [reflexivity|].
  rewrite lower_char_twice, IH. reflexivity.
Qed.

Lemma lower_lstrip s : lower (lstrip s) = lstrip (lower s).
Proof.
  unfold lower. induction s as [|c s IH]; cbn [map_chars lstrip]; [reflexivity|].
  rewrite is_space_lower_char. destruct (is_space c); [exact IH|reflexivity].
Qed.

Lemma lower_rstrip s : lower (rstrip s) = rstrip (lower s).
Proof.
  unfold lower. induction s as [|c s IH]; cbn [map_chars rstrip]; [reflexivity|].
  rewrite <- IH, is_space_lower_char.
  destruct (rstrip s) as [|a r]; cbn [map_chars];
    [destruct (is_space c); reflexivity|reflexivity].
Qed.

Lemma lower_strip s : lower (strip s) = strip (lower s).
Proof. unfold strip. rewrite lower_rstrip, lower_lstrip. reflexivity. Qed.

Lemma lstrip_no_leading_space s : no_leading_space (lstrip s).
Proof.
  induction s as [|c s IH]; cbn [lstrip]; [exact I|].
  destruct (is_space c) eqn:E; [exact IH|exact E].
Qed.

Lemma rstrip_no_leading_space s : no_leading_space s -> no_leading_space (rstrip s).
Proof.
  destruct s as [|c s]; cbn [rstrip no_leading_space]; [trivial|].
  intros H. rewrite H. destruct (rstrip s); exact H.
Qed.

Lemma lstrip_fixed s : no_leading_space s -> lstrip s = s.
Proof.
  destruct s as [|c s]; cbn [lstrip no_leading_space]; [reflexivity|].
  intros ->. reflexivity.
Qed.

Lemma rstrip_twice s : rstrip (rstrip s) = rstrip s.
Proof.
  induction s as [|c s IH]; cbn [rstrip]; [reflexivity|].
  destruct (rstrip s) as [|a r] eqn:E.
  - destruct (is_space c) eqn:Ec; cbn [rstrip]; [reflexivity|].
    rewrite Ec. reflexivity.
  - change (rstrip (String c (String a r)))
      with (match rstrip (String a r) with
            | EmptyString => if is_space c then EmptyString else String c EmptyString
            | r' => String c r'
            end).
    rewrite IH. reflexivity.
Qed.

Lemma strip_twice s : strip (strip s) = strip s.
Proof.
  unfold strip.
  rewrite (lstrip_fixed (rstrip (lstrip s)))
    by apply rstrip_no_leading_space, lstrip_no_leading_space.
  apply rstrip_twice.
Qed.

Lemma normalize_title_normal title :
  strip (normalize_title title) = normalize_title title /\
  lower (normalize_title title) = normalize_title title.
Proof.
  unfold normalize_title. split; [apply strip_twice|].
  rewrite lower_strip, lower_twice. reflexivity.
Qed.

Lemma scan_lines_normal section_id lines :
  forall target expected,
    Forall (fun t => strip t = t /\ lower t = t) expected ->
    Forall (fun t => strip t = t /\ lower t = t)
           (scan_lines section_id lines target expected).
Proof.
  induction lines as [|line rest IH]; intros target expected He; cbn [scan_lines];
    [exact He|].
  destruct (match_header_line (strip line)) as [[hashes group2]|]; [|apply IH, He].
  cbv zeta. destruct (_is_target_section _ _); [apply IH, He|].
  destruct target as [tl|]; [|apply IH, He].
  destruct (_ <=? tl); [exact He|].
  destruct (_ =? tl + 1); [|apply IH, He].
  apply IH, Forall_app. split; [exact He|].
  constructor; [apply normalize_title_normal|constructor].
Qed.

(** X15.  Section titles are normalised.  Every title that
    [extract_section_structure] finds in a document, and every title
    that [extract_expected_structure] reads from app.md, is in lower
    case and has no whitespace at either end: lowering or stripping it
    again changes nothing. *)
Theorem section_titles_are_normalised :
  forall content section_id,
    Forall (fun t => strip t = t /\ lower t = t)
           (extract_section_structure content) /\
    Forall (fun t => strip t = t /\ lower t = t)
           (extract_expected_structure content section_id).
Proof.
  intros content section_id. split.
  - unfold extract_section_structure. apply Forall_forall. intros t Ht.
    apply in_map_iff in Ht. destruct Ht as (m & <- & _).
    apply normalize_title_normal.
  - unfold extract_expected_structure.
    destruct content; [constructor|]. apply scan_lines_normal. constructor.
Qed.

(** ** The target section *)

Lemma drop_prefix_prefix p : forall s r, drop_prefix p s = Some r -> String.prefix p s = true.
Proof.
  induction p as [|a p IH]; intros s r H; [destruct s; reflexivity|].
  destruct s as [|b s]; [discriminate|]. cbn in H |- *.
  destruct (Ascii.eqb a b) eqn:E; [|discriminate].
  apply Ascii.eqb_eq in E. subst b.
  destruct (ascii_dec a a); [eapply IH, H|congruence].
Qed.

Lemma prefix_lower p : forall s, String.prefix p s = true ->
  String.prefix (lower p) (lower s) = true.
Proof.
  unfold lower. induction p as [|a p IH]; intros s H; [destruct s; reflexivity|].
  destruct s as [|b s]; [discriminate|]. cbn in H |- *.
  destruct (ascii_dec a b) as [->|]; [|discriminate].
  destruct (ascii_dec (lower_char b) (lower_char b)); [apply IH, H|congruence].
Qed.

Lemma prefix_contains p s : String.prefix p s = true -> contains p s = true.
Proof.
  destruct s as [|c s]; cbn [contains]; intros H; [exact H|].
  rewrite H. reflexivity.
Qed.

Lemma contains_empty s : contains "" s = true.
Proof. destruct s; reflexivity. Qed.

Lemma numeric_prefix_is_contained title section_id :
  starts_with_id section_id title = true ->
  contains (lower section_id) (lower title) = true.
Proof.
  unfold starts_with_id. intros H.
  destruct (drop_prefix section_id title) as [r|] eqn:E; [|discriminate].
  apply prefix_contains, prefix_lower. eapply drop_prefix_prefix, E.
Qed.

Lemma empty_id_is_target title : _is_target_section title "" = true.
Proof.
  unfold _is_target_section. cbv zeta.
  change (lower "") with "". rewrite contains_empty.
  destruct (is_numeric_id "" && _); reflexivity.
Qed.

(** X16.  The target test is a containment test.  A title is taken
    for the target section exactly when the lowered section id occurs in
    the lowered title or the lowered title occurs in the lowered section
    id; whenever the numeric-prefix pattern matches, the id already
    occurs in the title.  In particular the empty section id selects
    every title. *)
Theorem target_test_is_containment :
  forall title section_id,
    _is_target_section title section_id
    = (contains (lower section_id) (lower title)
       || contains (lower title) (lower section_id)) /\
    (starts_with_id section_id title = true ->
     contains (lower section_id) (lower title) = true) /\
    _is_target_section title "" = true.
Proof.
  intros title section_id.
  split; [|split; [apply numeric_prefix_is_contained|apply empty_id_is_target]].
  unfold _is_target_section. cbv zeta.
  destruct (is_numeric_id section_id && starts_with_id section_id title) eqn:E.
  - apply andb_true_iff in E. destruct E as (_ & E).
    rewrite (numeric_prefix_is_contained _ _ E). reflexivity.
  - destruct (contains (lower section_id) (lower title) || _); reflexivity.
Qed.

(** ** The expected structure *)

Lemma match_header_level s hashes title rest :
  match_header s = Some (hashes, title, rest) -> 1 <= String.length hashes.
Proof.
  unfold match_header. destruct (span is_hash s) as [h r1].
  destruct h as [|c h]; [discriminate|].
  destruct (span is_space r1) as [ws r2].
  destruct ws as [|w ws]; [discriminate|].
  destruct r2 as [|c2 r2].
  - destruct (last_dot ws) as [[c' rest']|]; [|discriminate].
    intros H. injection H as <- _ _. cbn. lia.
  - destruct (span _ (String c2 r2)) as [t rest'].
    intros H. injection H as <- _ _. cbn. lia.
Qed.

Lemma header_of_level line level title :
  header_of line = Some (level, title) -> 1 <= level.
Proof.
  unfold header_of, match_header_line.
  destruct (match_header (strip line)) as [[[hashes group2] rest]|] eqn:E; [|discriminate].
  intros H. injection H as <- _. eapply match_header_level, E.
Qed.

Lemma not_header_not_target section_id line :
  header_of line = None -> is_target_line section_id line = false.
Proof. unfold is_target_line. intros ->. reflexivity. Qed.

Lemma scan_lines_spec section_id :
  forall rest processed target expected,
    match target with
    | None => True
    | Some level => under_target section_id processed level
    end ->
    Forall (subsection_of section_id (processed ++ rest)) expected ->
    Forall (subsection_of section_id (processed ++ rest))
           (scan_lines section_id rest target expected).
Proof.
  induction rest as [|line rest IH]; intros processed target expected Ht He;
    cbn [scan_lines]; [exact He|].
  assert (Hstep : forall target',
             match target' with
             | None => True
             | Some level => under_target section_id (processed ++ [line]) level
             end ->
             forall expected',
               Forall (subsection_of section_id (processed ++ line :: rest)) expected' ->
               Forall (subsection_of section_id (processed ++ line :: rest))
                      (scan_lines section_id rest target' expected')).
  { intros target' Ht' expected' He'.
    replace (processed ++ line :: rest)%list with ((processed ++ [line]) ++ rest)%list
      in He' |- * by (rewrite <- app_assoc; reflexivity).
    apply IH; assumption. }
  assert (Hkeep : is_target_line section_id line = false ->
                  match target with
                  | None => True
                  | Some level => under_target section_id (processed ++ [line]) level
                  end).
  { intros Hl. destruct target as [tl|]; [|exact I].
    destruct Ht as (before & tline & between & ttitle & -> & Hh & Htt & Hb).
    exists before, tline, (between ++ [line])%list, ttitle.
    split; [rewrite <- app_assoc; reflexivity|].
    split; [exact Hh|split; [exact Htt|]].
    rewrite forallb_app, Hb. cbn. rewrite Hl. reflexivity. }
  destruct (header_of line) as [[level title]|] eqn:Eh.
  - assert (Em : match_header_line (strip line)
                 = Some (fst (match match_header_line (strip line) with
                              | Some p => p | None => (""%string, ""%string) end),
                         snd (match match_header_line (strip line) with
                              | Some p => p | None => (""%string, ""%string) end)) /\
                 level = String.length
                           (fst (match match_header_line (strip line) with
                                 | Some p => p | None => (""%string, ""%string) end)) /\
                 title = strip
                           (snd (match match_header_line (strip line) with
                                 | Some p => p | None => (""%string, ""%string) end))).
    { unfold header_of in Eh.
      destruct (match_header_line (strip line)) as [[h g]|]; [|discriminate].
      injection Eh as <- <-. repeat split. }
    destruct Em as (Em & El & Et). rewrite Em. cbv zeta. rewrite <- El, <- Et.
    destruct (_is_target_section title section_id) eqn:Etarget.
    + apply Hstep; [|exact He].
      exists processed, line, [], title. repeat split; assumption.
    + assert (Hl : is_target_line section_id line = false)
        by (unfold is_target_line; rewrite Eh; exact Etarget).
      destruct target as [tl|]; [|apply Hstep; [exact I|exact He]].
      destruct (level <=? tl) eqn:Ele; [exact He|].
      destruct (level =? tl + 1) eqn:Eeq; [|apply Hstep; [apply Hkeep, Hl|exact He]].
      apply Hstep; [apply Hkeep, Hl|]. apply Forall_app. split; [exact He|].
      constructor; [|constructor].
      apply Nat.eqb_eq in Eeq.
      destruct Ht as (before & tline & between & ttitle & -> & Hh & Htt & Hb).
      exists before, tline, between, line, rest, tl, ttitle, title.
      split; [rewrite <- app_assoc; reflexivity|].
      replace (S tl) with level by lia. repeat split; assumption.
  - assert (Em : match_header_line (strip line) = None).
    { unfold header_of in Eh.
      destruct (match_header_line (strip line)) as [[h g]|]; [discriminate|reflexivity]. }
    rewrite Em. apply Hstep; [|exact He].
    apply Hkeep, not_header_not_target, Eh.
Qed.

Lemma expected_structure_spec app_md_content section_id :
  Forall (subsection_of section_id (split_on "010"%char app_md_content))
         (extract_expected_structure app_md_content section_id).
Proof.
  unfold extract_expected_structure. destruct app_md_content as [|c s]; [constructor|].
  apply (scan_lines_spec section_id (split_on "010"%char (String c s)) [] None []);
    [exact I|constructor].
Qed.

(** X17.  Expected sections are direct subsections of the target.
    Every title that [extract_expected_structure] returns is the
    normalised title of a header line that is not itself a target, that
    follows a target header with no other target header in between, and
    whose level is exactly one more than the level of that target
    header; so its level is at least 2.  With the empty section id,
    which selects every header, nothing is returned. *)
Theorem expected_sections_are_direct_subsections :
  forall app_md_content section_id,
    Forall (fun t =>
              subsection_of section_id (split_on "010"%char app_md_content) t /\
              exists line level title,
                In line (split_on "010"%char app_md_content) /\
                header_of line = Some (level, title) /\
                2 <= level /\ t = normalize_title title)
           (extract_expected_structure app_md_content section_id) /\
    extract_expected_structure app_md_content "" = [].
Proof.
  intros app_md_content section_id. split.
  - pose proof (expected_structure_spec app_md_content section_id) as H.
    rewrite Forall_forall in H |- *. intros t Ht. split; [apply H, Ht|].
    destruct (H t Ht)
      as (before & tline & between & line & rest & level & ttitle & title
          & E & Hh & _ & _ & Hl & _ & ->).
    exists line, (S level), title. rewrite E.
    split; [rewrite in_app_iff; right; right; rewrite in_app_iff; right; left; reflexivity|].
    split; [exact Hl|split; [|reflexivity]].
    apply header_of_level in Hh. lia.
  - pose proof (expected_structure_spec app_md_content "") as H.
    destruct (extract_expected_structure app_md_content "") as [|t l]; [reflexivity|].
    apply Forall_inv in H.
    destruct H as (_ & _ & _ & _ & _ & _ & _ & title & _ & _ & _ & _ & _ & Hn & _).
    rewrite (empty_id_is_target title) in Hn. discriminate.
Qed.

(** X18.  No target header, no expected structure.  When no header
    line of app.md matches the section id, [extract_expected_structure]
    returns the empty list, and validation then accepts any
    structure. *)
Theorem no_target_no_expected_structure :
  forall (order : SetOrder) app_md_content section_id feat_content,
    existsb (is_target_line section_id) (split_on "010"%char app_md_content) = false ->
    extract_expected_structure app_md_content section_id = [] /\
    is_valid (validate_structure feat_content
                (extract_expected_structure app_md_content section_id)) = true.
Proof.
  intros order app_md_content section_id feat_content Hno.
  assert (E : extract_expected_structure app_md_content section_id = []).
  { pose proof (expected_structure_spec app_md_content section_id) as H.
    destruct (extract_expected_structure app_md_content section_id) as [|t l];
      [reflexivity|].
    apply Forall_inv in H.
    destruct H as (before & tline & between & line & rest & level & ttitle & title
                   & E & Hh & Htt & _).
    assert (Hex : existsb (is_target_line section_id)
                          (split_on "010"%char app_md_content) = true).
    { apply existsb_exists. exists tline. split.
      - rewrite E, in_app_iff. right. left. reflexivity.
      - unfold is_target_line. rewrite Hh. exact Htt. }
    congruence. }
  rewrite E. split; reflexivity.
Qed.

Lemma no_target_no_expected_structure_witness :
  existsb (is_target_line "deployment") (split_on "010"%char sample_app_md) = false /\
  extract_expected_structure sample_app_md "deployment" = [].
Proof.
  split; [vm_compute; reflexivity|].
  exact (proj1 (no_target_no_expected_structure first_occurrence_order
                  sample_app_md "deployment" "# Anything" ltac:(vm_compute; reflexivity))).
Defined.

End EvalExtra.

Module RegistryExtra.
Import PyStr Registry RegistryContracts AgentQueries RegistryMore RegistryFacts.

(** ** What one invocation records *)

Lemma last_five_absorbs {A} (a b : list A) :
  last_five (last_five a ++ b) = last_five (a ++ b).
Proof.
  unfold last_five.
  set (k := List.length a - 5).
  assert (Hk : k <= List.length a) by (unfold k; lia).
  rewrite !length_app, length_skipn.
  replace (List.length a + List.length b - 5)
    with ((List.length a - k + List.length b - 5) + k) by (unfold k; lia).
  rewrite <- skipn_skipn.
  rewrite (skipn_app k a b).
  replace (k - List.length a) with 0 by lia.
  reflexivity.
Qed.

Lemma last_five_length {A} (l : list A) : List.length (last_five l) <= 5.
Proof. unfold last_five. rewrite length_skipn. lia. Qed.

Lemma failure_messages_cons (c : Invocation) calls :
  failure_messages (c :: calls)
  = (failure_messages [c] ++ failure_messages calls)%list.
Proof. unfold failure_messages. cbn [flat_map]. rewrite app_nil_r. reflexivity. Qed.

Lemma recent_failures_step h ok rt err now (later : list string) :
  keep_recent (recent_failures (record_on h ok rt err now)) later
  = keep_recent (recent_failures h) (failure_messages [(ok, rt, err, now)] ++ later).
Proof.
  assert (Hsame : failure_messages [(ok, rt, err, now)] = [] ->
                  recent_failures (record_on h ok rt err now) = recent_failures h).
  { unfold record_on, failure_messages. cbn [flat_map app].
    destruct ok; [reflexivity|]. destruct err as [[|a r]|]; [reflexivity| |reflexivity].
    discriminate. }
  assert (Hmsg : forall x xs, failure_messages [(ok, rt, err, now)] = x :: xs ->
                 xs = [] /\
                 recent_failures (record_on h ok rt err now)
                 = last_five (recent_failures h ++ [x])).
  { unfold record_on, failure_messages. cbn [flat_map app].
    destruct ok; [discriminate|].
    destruct err as [[|a r]|]; [discriminate| |discriminate].
    intros x xs E. injection E as <- <-. split; reflexivity. }
  destruct (failure_messages [(ok, rt, err, now)]) as [|x xs].
  - rewrite (Hsame eq_refl). reflexivity.
  - destruct (Hmsg x xs eq_refl) as (-> & ->).
    destruct later as [|y ys]; [reflexivity|].
    unfold keep_recent. cbn [app].
    rewrite last_five_absorbs, <- app_assoc. reflexivity.
Qed.

Lemma health_of_after name ok rt err now m :
  health_of name (record_agent_invocation name ok rt err now m)
  = record_on (health_of name m) ok rt err now.
Proof. unfold health_of at 1. rewrite health_after_record. reflexivity. Qed.

Lemma recent_failures_after name calls : forall m,
  recent_failures (health_of name (record_all name calls m))
  = keep_recent (recent_failures (health_of name m)) (failure_messages calls).
Proof.
  induction calls as [|[[[ok rt] err] now] calls IH]; intros m; [reflexivity|].
  change (record_all name ((ok, rt, err, now) :: calls) m)
    with (record_all name calls (record_agent_invocation name ok rt err now m)).
  rewrite IH, health_of_after, failure_messages_cons.
  apply recent_failures_step.
Qed.

(** X19.  The registry keeps the last five failure messages.  After
    any history of invocations of an agent, its recent failures are the
    last five non-empty error messages of the failed calls, oldest
    first; the list never holds more than five. *)
Theorem recent_failures_are_the_last_five :
  forall name calls,
    let h := health_of name (record_all name calls []) in
    recent_failures h = last_five (failure_messages calls) /\
    List.length (recent_failures h) <= 5.
Proof.
  intros name calls. cbv zeta.
  assert (E : recent_failures (health_of name (record_all name calls []))
              = last_five (failure_messages calls)).
  { rewrite recent_failures_after. destruct (failure_messages calls); reflexivity. }
  rewrite E. split; [reflexivity|apply last_five_length].
Qed.

Lemma health_store_other name other h m :
  name <> other -> lookup other (store name h m) = lookup other m.
Proof.
  intros Hne. unfold store.
  assert (Hneq : String.eqb name other = false) by (apply String.eqb_neq, Hne).
  destruct (lookup name m) as [h0|] eqn:E; unfold lookup.
  - clear E. induction m as [|[k v] m IH]; [reflexivity|].
    cbn [map find fst]. destruct (String.eqb k name) eqn:Ek; cbn [fst].
    + apply String.eqb_eq in Ek. subst k. rewrite Hneq. exact IH.
    + destruct (String.eqb k other); [reflexivity|exact IH].
  - clear E. induction m as [|[k v] m IH]; cbn [app find fst].
    + rewrite Hneq. reflexivity.
    + destruct (String.eqb k other); [reflexivity|exact IH].
Qed.

(** X20.  Recording one agent leaves the others alone.  An invocation
    recorded for one agent changes no other agent's health record, and
    the recorded agent has a record afterwards. *)
Theorem other_agents_are_untouched :
  forall name other ok rt err now m,
    name <> other ->
    lookup other (record_agent_invocation name ok rt err now m) = lookup other m /\
    lookup name (record_agent_invocation name ok rt err now m) <> None.
Proof.
  intros name other ok rt err now m Hne. split.
  - unfold record_agent_invocation.
    destruct (lookup name m) as [h|] eqn:E.
    + rewrite E. apply health_store_other, Hne.
    + rewrite lookup_store, !health_store_other by exact Hne. reflexivity.
  - rewrite health_after_record. discriminate.
Qed.

Lemma other_agents_are_untouched_witness :
  "architect" <> "go-architect" /\
  lookup "go-architect"
    (record_agent_invocation "architect" true 2%Q None 1700000000%Q
       (record_agent_invocation "go-architect" false 9%Q (Some "timeout") 1700000000%Q []))
  = lookup "go-architect"
      (record_agent_invocation "go-architect" false 9%Q (Some "timeout") 1700000000%Q []).
Proof.
  split; [discriminate|].
  exact (proj1 (other_agents_are_untouched "architect" "go-architect" true 2%Q None
                  1700000000%Q _ ltac:(discriminate))).
Defined.

Lemma stamps_step h ok rt err now :
  last_success (record_on h ok rt err now)
  = (if ok then Some now else last_success h) /\
  last_failure (record_on h ok rt err now)
  = (if ok then last_failure h else Some now) /\
  agent_name (record_on h ok rt err now) = agent_name h.
Proof. unfold record_on. destruct ok; repeat split. Qed.

Lemma stamps_after name calls : forall m,
  last_success (health_of name (record_all name calls m))
  = last_time_from true (last_success (health_of name m)) calls /\
  last_failure (health_of name (record_all name calls m))
  = last_time_from false (last_failure (health_of name m)) calls /\
  agent_name (health_of name (record_all name calls m))
  = agent_name (health_of name m).
Proof.
  induction calls as [|[[[ok rt] err] now] calls IH]; intros m; [repeat split|].
  change (record_all name ((ok, rt, err, now) :: calls) m)
    with (record_all name calls (record_agent_invocation name ok rt err now m)).
  destruct (IH (record_agent_invocation name ok rt err now m)) as (H1 & H2 & H3).
  rewrite H1, H2, H3, health_of_after.
  destruct (stamps_step (health_of name m) ok rt err now) as (S1 & S2 & S3).
  rewrite S1, S2, S3. unfold last_time_from. cbn [fold_left].
  destruct ok; repeat split.
Qed.

(** X21.  The time stamps follow the history.  After any history of
    invocations of an agent, recorded from an empty registry,
    [last_success] is the time of the last call that succeeded and
    [last_failure] the time of the last call that failed, each [None]
    when there was no such call, and the record carries the agent's
    name. *)
Theorem time_stamps_follow_the_history :
  forall name calls,
    let h := health_of name (record_all name calls []) in
    last_success h = last_time true calls /\
    last_failure h = last_time false calls /\
    agent_name h = name.
Proof.
  intros name calls. cbv zeta.
  destruct (stamps_after name calls []) as (H1 & H2 & H3).
  rewrite H1, H2, H3. repeat split.
Qed.

(** ** The queries of the registry *)

Lemma tuple_lt_true a b :
  tuple_lt a b = true ->
  (fst a < fst b \/ (fst a == fst b /\ snd a < snd b))%Q.
Proof.
  unfold tuple_lt. intros H. apply orb_true_iff in H. destruct H as [H|H].
  - left. apply FeatFacts.Qlt_bool_true, H.
  - apply andb_true_iff in H. destruct H as (H1 & H2). right.
    split; [apply Qeq_bool_iff, H1|apply FeatFacts.Qlt_bool_true, H2].
Qed.

Lemma tuple_lt_false a b :
  tuple_lt a b = false ->
  (fst b <= fst a /\ (fst a == fst b -> snd b <= snd a))%Q.
Proof.
  unfold tuple_lt. intros H. apply orb_false_iff in H. destruct H as (H1 & H2).
  split; [apply FeatFacts.Qlt_bool_false, H1|].
  intros He. apply Qeq_bool_iff in He. rewrite He in H2.
  apply FeatFacts.Qlt_bool_false, H2.
Qed.

Lemma score_ge_of a b :
  (fst b < fst a \/ (fst a == fst b /\ snd b <= snd a))%Q -> score_ge a b.
Proof.
  intros H. unfold score_ge. destruct (tuple_lt a b) eqn:E; [|reflexivity].
  apply tuple_lt_true in E. exfalso. destruct H as [H|(H1 & H2)], E as [E|(E1 & E2)]; lra.
Qed.

Lemma score_ge_trans a b c : score_ge a b -> score_ge b c -> score_ge a c.
Proof.
  unfold score_ge. intros H1 H2.
  apply tuple_lt_false in H1. apply tuple_lt_false in H2.
  destruct H1 as (A1 & A2), H2 as (B1 & B2). apply score_ge_of.
  destruct (Qlt_le_dec (fst c) (fst a)) as [Hlt|Hle]; [left; exact Hlt|].
  right. assert (E1 : (fst a == fst b)%Q) by lra.
  assert (E2 : (fst b == fst c)%Q) by lra.
  split; [lra|]. specialize (A2 E1). specialize (B2 E2). lra.
Qed.

Lemma tuple_lt_asym a b : tuple_lt a b = true -> score_ge b a.
Proof.
  intros H. apply tuple_lt_true in H. apply score_ge_of.
  destruct H as [H|(H1 & H2)]; [left; exact H|right; split; lra].
Qed.

Lemma in_insert_desc_by {A} (key : A -> Q * Q) x l :
  forall z, In z (insert_desc_by key x l) <-> z = x \/ In z l.
Proof.
  induction l as [|y l IH]; intros z; cbn [insert_desc_by].
  - cbn. intuition congruence.
  - destruct (tuple_lt (key x) (key y)); cbn [In]; [rewrite IH|]; intuition congruence.
Qed.

Lemma perm_insert_desc_by {A} (key : A -> Q * Q) x l :
  Permutation (insert_desc_by key x l) (x :: l).
Proof.
  induction l as [|y l IH]; cbn [insert_desc_by]; [apply Permutation_refl|].
  destruct (tuple_lt (key x) (key y)); [|apply Permutation_refl].
  apply perm_trans with (y :: x :: l); [apply perm_skip, IH|apply perm_swap].
Qed.

Lemma perm_sort_desc_by {A} (key : A -> Q * Q) l : Permutation (sort_desc_by key l) l.
Proof.
  induction l as [|x l IH]; [apply Permutation_refl|].
  cbn [sort_desc_by fold_right].
  apply perm_trans with (x :: sort_desc_by key l);
    [apply perm_insert_desc_by|apply perm_skip, IH].
Qed.

Lemma sorted_insert_desc_by {A} (key : A -> Q * Q) x l :
  StronglySorted (fun a b => score_ge (key a) (key b)) l ->
  StronglySorted (fun a b => score_ge (key a) (key b)) (insert_desc_by key x l).
Proof.
  induction l as [|y l IH]; intros Hs; cbn [insert_desc_by].
  - constructor; constructor.
  - apply StronglySorted_inv in Hs. destruct Hs as (Hs & Hy).
    destruct (tuple_lt (key x) (key y)) eqn:E.
    + constructor; [apply IH, Hs|]. apply Forall_forall. intros z Hz.
      apply in_insert_desc_by in Hz. destruct Hz as [->|Hz].
      * apply tuple_lt_asym, E.
      * rewrite Forall_forall in Hy. apply Hy, Hz.
    + constructor; [constructor; assumption|].
      constructor; [exact E|].
      apply Forall_forall. intros z Hz. rewrite Forall_forall in Hy.
      apply score_ge_trans with (key y); [exact E|apply Hy, Hz].
Qed.

Lemma sorted_sort_desc_by {A} (key : A -> Q * Q) l :
  StronglySorted (fun a b => score_ge (key a) (key b)) (sort_desc_by key l).
Proof.
  induction l as [|x l IH]; [constructor|].
  cbn [sort_desc_by fold_right]. apply sorted_insert_desc_by, IH.
Qed.

Lemma prefer_language_cases language candidates :
  prefer_language language candidates = candidates \/
  exists c r, language = Some (String c r) /\
              prefer_language language candidates
              = filter (has_affinity (String c r)) candidates /\
              filter (has_affinity (String c r)) candidates <> [].
Proof.
  unfold prefer_language. destruct language as [[|c r]|]; [left; reflexivity| |left; reflexivity].
  destruct (filter (has_affinity (String c r)) candidates) as [|a l] eqn:E;
    [left; reflexivity|].
  right. exists c, r. split; [reflexivity|]. rewrite E. split; [reflexivity|discriminate].
Qed.

Lemma prefer_language_subset language candidates a :
  In a (prefer_language language candidates) -> In a candidates.
Proof.
  destruct (prefer_language_cases language candidates) as [->|(c & r & _ & -> & _)];
    [trivial|].
  intros H. apply filter_In in H. apply H.
Qed.

Lemma prefer_language_empty language candidates :
  prefer_language language candidates = [] <-> candidates = [].
Proof.
  destruct (prefer_language_cases language candidates) as [->|(c & r & _ & E & Hne)];
    [tauto|].
  rewrite E. split; [intros H; contradiction|intros ->; reflexivity].
Qed.

Lemma prefer_language_affinity c r candidates :
  let chosen := prefer_language (Some (String c r)) candidates in
  Forall (fun a => has_affinity (String c r) a = true) chosen \/
  (chosen = candidates /\
   Forall (fun a => has_affinity (String c r) a = false) candidates).
Proof.
  cbv zeta. unfold prefer_language.
  destruct (filter (has_affinity (String c r)) candidates) as [|a l] eqn:E.
  - right. split; [reflexivity|]. apply Forall_forall. intros x Hx.
    destruct (has_affinity (String c r) x) eqn:Ex; [|reflexivity].
    assert (Hin : In x (filter (has_affinity (String c r)) candidates))
      by (apply filter_In; split; assumption).
    rewrite E in Hin. contradiction.
  - left. rewrite <- E. apply Forall_forall. intros x Hx.
    apply filter_In in Hx. apply Hx.
Qed.

(** X22.  The language preference never loses every agent.  The
    architects and the developers returned for a language all have the
    capability asked for and are registered agents; the answer is empty
    only when no registered agent has the capability; and with a
    non-empty language, either every returned agent has that language
    affinity (compared in lower case), or no capable agent has it and
    all capable agents are returned. *)
Theorem language_preference_falls_back :
  forall agents language,
    let architects := get_architect_agents agents language in
    let developers := get_developer_agents agents language in
    Forall (fun a => has_capability "architecture" a = true /\ In a (values agents))
           architects /\
    Forall (fun a => has_capability "implementation" a = true /\ In a (values agents))
           developers /\
    (architects = [] <-> get_agents_by_capability agents "architecture" = []) /\
    (developers = [] <-> get_agents_by_capability agents "implementation" = []) /\
    match language with
    | Some (String c r) =>
        (Forall (fun a => language_affinity a = Some (lower (String c r))) architects \/
         (architects = get_agents_by_capability agents "architecture" /\
          Forall (fun a => language_affinity a <> Some (lower (String c r))) architects)) /\
        (Forall (fun a => language_affinity a = Some (lower (String c r))) developers \/
         (developers = get_agents_by_capability agents "implementation" /\
          Forall (fun a => language_affinity a <> Some (lower (String c r))) developers))
    | _ =>
        architects = get_agents_by_capability agents "architecture" /\
        developers = get_agents_by_capability agents "implementation"
    end.
Proof.
  intros agents language. cbv zeta.
  unfold get_architect_agents, get_developer_agents.
  assert (Hcap : forall capability,
             Forall (fun a => has_capability capability a = true /\ In a (values agents))
                    (prefer_language language (get_agents_by_capability agents capability))).
  { intros capability. apply Forall_forall. intros a Ha.
    apply prefer_language_subset in Ha.
    unfold get_agents_by_capability in Ha. apply filter_In in Ha. tauto. }
  assert (Haff : forall lang a, has_affinity lang a = true <->
                                language_affinity a = Some (lower lang)).
  { intros lang a. unfold has_affinity. destruct (language_affinity a) as [l|].
    - rewrite String.eqb_eq. split; congruence.
    - split; discriminate. }
  assert (Hlang : forall c r candidates,
             let chosen := prefer_language (Some (String c r)) candidates in
             Forall (fun a => language_affinity a = Some (lower (String c r))) chosen \/
             (chosen = candidates /\
              Forall (fun a => language_affinity a <> Some (lower (String c r))) chosen)).
  { intros c r candidates. cbv zeta.
    destruct (prefer_language_affinity c r candidates) as [H|(E & H)].
    - left. rewrite Forall_forall in H |- *. intros a Ha. apply Haff, H, Ha.
    - right. split; [exact E|]. rewrite E.
      rewrite Forall_forall in H |- *. intros a Ha Hl.
      apply Haff in Hl. rewrite (H a Ha) in Hl. discriminate. }
  split; [apply Hcap|split; [apply Hcap|]].
  split; [apply prefer_language_empty|split; [apply prefer_language_empty|]].
  destruct language as [[|c r]|]; [split; reflexivity| |split; reflexivity].
  split; apply Hlang.
Qed.

(** X23.  The best agents are capable, ranked and cut to size.
    [get_best_agents] returns at most [count] agents, all registered and
    with the capability asked for.  Together with the candidates it
    leaves out they are the capable agents after the language
    preference, in descending order of (success rate, minus average
    response time), agents without a health record counting as
    (1.0, 0.0); so no agent left out ranks above a returned one. *)
Theorem best_agents_are_capable_and_ranked :
  forall agents health_metrics capability language count,
    let best := get_best_agents agents health_metrics capability language count in
    let candidates :=
      prefer_language language (get_agents_by_capability agents capability) in
    List.length best = Nat.min count (List.length candidates) /\
    Forall (fun a => has_capability capability a = true /\ In a (values agents)) best /\
    exists left_out,
      Permutation (best ++ left_out) candidates /\
      StronglySorted
        (fun a b => score_ge (agent_score health_metrics a) (agent_score health_metrics b))
        (best ++ left_out).
Proof.
  intros agents health_metrics capability language count. cbv zeta.
  unfold get_best_agents. cbv zeta.
  set (candidates := prefer_language language (get_agents_by_capability agents capability)).
  set (sorted := sort_desc_by (agent_score health_metrics) candidates).
  assert (Hperm : Permutation sorted candidates) by apply perm_sort_desc_by.
  split; [|split].
  - rewrite length_firstn, (Permutation_length Hperm). reflexivity.
  - apply Forall_forall. intros a Ha.
    assert (Hin : In a candidates).
    { apply (Permutation_in _ Hperm).
      rewrite <- (firstn_skipn count sorted). apply in_or_app. left. exact Ha. }
    apply prefer_language_subset in Hin.
    unfold get_agents_by_capability in Hin. apply filter_In in Hin. tauto.
  - exists (skipn count sorted). rewrite firstn_skipn.
    split; [exact Hperm|apply sorted_sort_desc_by].
Qed.

End RegistryExtra.

Module FlowExtra.
Import PyStr Engine FeatEval FeatFlow AgentQueries Workflows.
Import EngineContracts EvalContracts EvalMore FlowContracts FlowMore.
Import EngineMore EngineFacts FeatFacts EngineExtra EvalExtra.

(** ** The selection step *)

Lemma bind_returns {A B} (m : Outcome A) (k : A -> Outcome B) b :
  bind m k = Returns b -> exists a, m = Returns a /\ k a = Returns b.
Proof. destruct m as [a|e]; cbn; [intros H; exists a; tauto|discriminate]. Qed.

Lemma pick_returns {A} (l : list A) i x : pick l i = Returns x -> nth_error l i = Some x.
Proof. unfold pick. destruct (nth_error l i); [congruence|discriminate]. Qed.

Lemma first_item_returns {A} (l : list A) x : first_item l = Returns x -> nth_error l 0 = Some x.
Proof. destruct l; cbn; [discriminate|congruence]. Qed.

Lemma candidate_of_result results c :
  In c (map to_candidate (filter success results)) ->
  exists r, In r results /\ success r = true /\ c = to_candidate r /\
            candidate_text c = output r.
Proof.
  intros H. apply in_map_iff in H. destruct H as (r & <- & Hr).
  apply filter_In in Hr. exists r. repeat split; tauto.
Qed.

Lemma truthy_nonempty s : truthy s = true -> s <> EmptyString.
Proof. destruct s; [discriminate|discriminate]. Qed.

Lemma head_is_greatest {T} (key : nat * T -> Q) scored best :
  StronglySorted lt (map fst scored) ->
  nth_error (sort_desc key scored) 0 = Some best ->
  forall item, In item (sort_desc key scored) -> (key item <= key best)%Q.
Proof.
  intros Hs Hb item Hi.
  pose proof (sort_ranked key _ Hs) as Hsorted.
  apply In_nth_error in Hi. destruct Hi as (j & Hj). destruct j as [|j].
  - rewrite Hb in Hj. injection Hj as <-. apply Qle_refl.
  - destruct (strongly_sorted_nth _ _ Hsorted 0 (S j) best item) as [H|(H & _)];
      [lia|exact Hb|exact Hj|apply Qlt_le_weak, H|rewrite H; apply Qle_refl].
Qed.

(** X24.  The selected feature specification is the best ranked
    successful result.  When [_evaluate_and_select_feature] returns, the
    selected candidate was built from a result with [success = true] and
    a non-empty output; it is the first entry of the ranking, whose
    score is the evaluation of that output; no ranked entry has a higher
    sort key; and if any ranked entry is structurally valid, so is the
    selected one. *)
Theorem selected_feature_is_best_ranked :
  forall (order : SetOrder) agent_results expected_structure language
         selected_feat evaluation_results,
    _evaluate_and_select_feature agent_results expected_structure language
    = Returns (selected_feat, evaluation_results) ->
    exists r best,
      In r agent_results /\ success r = true /\ output r <> EmptyString /\
      selected_feat = to_candidate r /\
      nth_error evaluation_results 0 = Some best /\
      snd best = evaluate_feature (output r) (Some expected_structure) language
                   (Some selected_feat) /\
      (forall item, In item evaluation_results ->
         (sort_key item <= sort_key best)%Q /\
         (is_valid (structural_validation (snd item)) = true ->
          is_valid (structural_validation (snd best)) = true)).
Proof.
  intros order agent_results expected_structure language selected_feat
         evaluation_results H.
  unfold _evaluate_and_select_feature in H. cbv zeta in H.
  set (candidates := map to_candidate (filter success agent_results)) in *.
  destruct candidates as [|c0 cs] eqn:Ec; [discriminate|]. rewrite <- Ec in H.
  apply bind_returns in H. destruct H as (evals & Hrank & H).
  apply bind_returns in H. destruct H as (best & Hfirst & H).
  apply bind_returns in H. destruct H as (sel & Hpick & H).
  injection H as -> ->.
  unfold rank_features in Hrank. cbv zeta in Hrank.
  apply ranked_returns in Hrank. destruct Hrank as (-> & _).
  apply first_item_returns in Hfirst. apply pick_returns in Hpick.
  destruct (scored_from
              (fun ic => evaluate_feature (candidate_text (snd ic))
                           (Some expected_structure) language (Some (snd ic)))
              candidates 0) as (Hs & Hin).
  fold (enumerate candidates) in Hs, Hin.
  fold (score_candidates candidates (Some expected_structure) language) in Hs, Hin.
  assert (Hbest : In best (score_candidates candidates (Some expected_structure) language)).
  { apply (in_sort_desc sort_key). eapply nth_error_In, Hfirst. }
  destruct (Hin best Hbest) as (_ & c & Hn & Ht & He).
  rewrite Nat.sub_0_r, Hpick in Hn. injection Hn as <-. cbn [snd] in He.
  destruct (candidate_of_result agent_results selected_feat) as (r & Hr & Hok & Hc & Htext).
  { eapply nth_error_In, Hpick. }
  exists r, best. rewrite <- Htext.
  split; [exact Hr|split; [exact Hok|split; [apply truthy_nonempty, Ht|]]].
  split; [exact Hc|split; [exact Hfirst|split; [exact He|]]].
  intros item Hi.
  pose proof (head_is_greatest sort_key _ best Hs Hfirst item Hi) as Hle.
  split; [exact Hle|]. intros Hv.
  apply in_sort_desc in Hi.
  pose proof (sort_key_sign candidates (Some expected_structure) language item Hi) as Hsi.
  pose proof (sort_key_sign candidates (Some expected_structure) language best Hbest) as Hsb.
  rewrite Hv in Hsi.
  destruct (is_valid (structural_validation (snd best))); [reflexivity|].
  exfalso. lra.
Qed.

Lemma selected_feature_is_best_ranked_witness :
  exists sel evals,
    _evaluate_and_select_feature
      [failure "gad" 1; completed "pad" "# Overview"; completed "rad" "# Notes"]
      ["overview"] (Some "go") = Returns (sel, evals) /\
    exists r best,
      In r [failure "gad" 1; completed "pad" "# Overview"; completed "rad" "# Notes"] /\
      success r = true /\ output r <> EmptyString /\
      sel = to_candidate r /\
      nth_error evals 0 = Some best /\
      snd best = evaluate_feature (output r) (Some ["overview"]) (Some "go") (Some sel) /\
      (forall item, In item evals ->
         (sort_key item <= sort_key best)%Q /\
         (is_valid (structural_validation (snd item)) = true ->
          is_valid (structural_validation (snd best)) = true)).
Proof.
  eexists. eexists. split; [vm_compute; reflexivity|].
  apply (selected_feature_is_best_ranked first_occurrence_order
           [failure "gad" 1; completed "pad" "# Overview"; completed "rad" "# Notes"]
           ["overview"] (Some "go")).
  vm_compute. reflexivity.
Defined.

(** X25.  The selected design has the highest overall score.  When
    [_evaluate_and_select_design] returns, the selected candidate was
    built from a result with [success = true] and a non-empty output; it
    is the first entry of the ranking, whose score is the evaluation of
    that output; and no ranked entry has a higher overall score.  With
    no successful result the call raises "No successful design
    candidates generated". *)
Theorem selected_design_scores_highest :
  forall criteria agent_results language,
    match _evaluate_and_select_design criteria agent_results language with
    | Returns (selected_design, evaluation_results) =>
        exists r best,
          In r agent_results /\ success r = true /\ output r <> EmptyString /\
          selected_design = to_candidate r /\
          nth_error evaluation_results 0 = Some best /\
          snd best = DesignEval.evaluate_design criteria (output r) language
                       (Some selected_design) /\
          forall item, In item evaluation_results ->
            (DesignEval.overall_score (snd item)
             <= DesignEval.overall_score (snd best))%Q
    | Raises e =>
        (e = no_design_candidates /\ forall r, In r agent_results -> success r = false) \/
        (e = index_error /\
         forall r, In r agent_results -> success r = true -> output r = EmptyString)
    end.
Proof.
  intros criteria agent_results language.
  unfold _evaluate_and_select_design. cbv zeta.
  set (candidates := map to_candidate (filter success agent_results)).
  destruct candidates as [|c0 cs] eqn:Ec.
  { left. split; [reflexivity|]. intros r Hr.
    destruct (success r) eqn:E; [|reflexivity].
    assert (Hin : In (to_candidate r) candidates)
      by (apply in_map, filter_In; split; assumption).
    rewrite Ec in Hin. contradiction. }
  rewrite <- Ec.
  set (key := fun x : nat * DesignEval.DesignScore => DesignEval.overall_score (snd x)).
  destruct (scored_from
              (fun ic => DesignEval.evaluate_design criteria (candidate_text (snd ic))
                           language (Some (snd ic)))
              candidates 0) as (Hs & Hin).
  fold (enumerate candidates) in Hs, Hin.
  fold (DesignEval.score_candidates criteria candidates language) in Hs, Hin.
  unfold DesignEval.rank_designs. cbv zeta. fold key.
  destruct (sort_desc key (DesignEval.score_candidates criteria candidates language))
    as [|best rest] eqn:Esort.
  { cbn. right. split; [reflexivity|]. intros r Hr Hok.
    destruct (output r) as [|a o] eqn:Eo; [reflexivity|]. exfalso.
    assert (Hc : In (to_candidate r) candidates)
      by (apply in_map, filter_In; split; assumption).
    apply In_nth_error in Hc. destruct Hc as (i & Hi).
    assert (Hsc : In (i, DesignEval.evaluate_design criteria (output r) language
                           (Some (to_candidate r)))
                     (DesignEval.score_candidates criteria candidates language)).
    { unfold DesignEval.score_candidates. apply in_flat_map.
      exists (i, to_candidate r). split.
      - apply nth_error_In with i. apply nth_error_enumerate, Hi.
      - cbn [fst snd to_candidate candidate_text c_output]. rewrite Eo. left. reflexivity. }
    apply (proj2 (in_sort_desc key _ _)) in Hsc. rewrite Esort in Hsc. contradiction. }
  cbn [first_item bind].
  assert (Hbest : In best (DesignEval.score_candidates criteria candidates language)).
  { apply (in_sort_desc key). rewrite Esort. left. reflexivity. }
  destruct (Hin best Hbest) as (_ & c & Hn & Ht & He).
  rewrite Nat.sub_0_r in Hn. unfold pick. rewrite Hn. cbn [bind snd] in He |- *.
  destruct (candidate_of_result agent_results c) as (r & Hr & Hok & Hc & Htext).
  { eapply nth_error_In, Hn. }
  exists r, best. rewrite <- Htext.
  split; [exact Hr|split; [exact Hok|split; [apply truthy_nonempty, Ht|]]].
  split; [exact Hc|split; [reflexivity|split; [exact He|]]].
  intros item Hi. rewrite <- Esort in Hi.
  apply (head_is_greatest key _ best Hs); [rewrite Esort; reflexivity|exact Hi].
Qed.

(** ** Saving and archiving *)




(** ** A session of the engine *)






















(** ** File names of saved features *)

Lemma append_cancel_r (s : string) : forall a b,
  (a ++ s)%string = (b ++ s)%string -> a = b.
Proof.
  assert (Hlen : forall a b : string,
             String.length (a ++ b) = String.length a + String.length b).
  { induction a as [|c a IH]; intros b; cbn; [reflexivity|]. rewrite IH. reflexivity. }
  induction a as [|c a IH]; intros [|d b] H; [reflexivity| | |].
  - exfalso. apply (f_equal String.length) in H. cbn in H. rewrite Hlen in H. lia.
  - exfalso. apply (f_equal String.length) in H. cbn in H. rewrite Hlen in H. lia.
  - cbn in H. injection H as -> H. f_equal. apply IH, H.
Qed.

Lemma plain_lower_char c : plain_char c = true -> lower_char c = c.
Proof.
  unfold plain_char, lower_char. intros H.
  apply andb_true_iff in H. destruct H as (_ & H). apply negb_true_iff in H.
  rewrite H. reflexivity.
Qed.

Lemma lower_char_plain c :
  plain_char (lower_char (if Ascii.eqb (if Ascii.eqb c " "%char then "_"%char else c)
                                       "-"%char
                          then "_"%char
                          else if Ascii.eqb c " "%char then "_"%char else c)) = true.
Proof. destruct c as [[] [] [] [] [] [] [] []]; reflexivity. Qed.

Lemma named_stem_plain s :
  all_plain (lower (replace_char "-"%char "_"%char
                      (replace_char " "%char "_"%char s))) = true.
Proof.
  unfold lower. induction s as [|c s IH]; [reflexivity|].
  cbn [replace_char map_chars all_plain]. rewrite lower_char_plain. exact IH.
Qed.

Lemma digit_or_dot_plain c :
  is_digit c || Ascii.eqb c "."%char = true ->
  plain_char (if Ascii.eqb c "."%char then "_"%char else c) = true.
Proof. destruct c as [[] [] [] [] [] [] [] []]; cbn; intros H; try reflexivity; discriminate. Qed.

Lemma digit_not_dot c : is_digit c = true -> Ascii.eqb c "."%char = false.
Proof. destruct c as [[] [] [] [] [] [] [] []]; cbn; intros H; try reflexivity; discriminate. Qed.

Lemma digit_not_underscore c : is_digit c = true -> Ascii.eqb c "_"%char = false.
Proof. destruct c as [[] [] [] [] [] [] [] []]; cbn; intros H; try reflexivity; discriminate. Qed.

Lemma numeric_chars s :
  all_digits (remove_char "."%char s) = true ->
  Forall (fun c => is_digit c || Ascii.eqb c "."%char = true) (list_ascii_of_string s).
Proof.
  induction s as [|c s IH]; cbn [remove_char list_ascii_of_string]; [constructor|].
  destruct (Ascii.eqb c "."%char) eqn:E.
  - intros H. constructor; [rewrite E; apply orb_true_r|apply IH, H].
  - cbn [all_digits]. intros H. apply andb_true_iff in H. destruct H as (Hc & H).
    constructor; [rewrite Hc; reflexivity|apply IH, H].
Qed.

Lemma numeric_stem_plain s :
  Forall (fun c => is_digit c || Ascii.eqb c "."%char = true) (list_ascii_of_string s) ->
  all_plain (replace_char "."%char "_"%char s) = true.
Proof.
  induction s as [|c s IH]; cbn [list_ascii_of_string replace_char all_plain];
    [reflexivity|].
  intros H. apply Forall_cons_iff in H. destruct H as (Hc & H).
  rewrite (digit_or_dot_plain c Hc). apply IH, H.
Qed.

Lemma numeric_stem_injective a : forall b,
  Forall (fun c => is_digit c || Ascii.eqb c "."%char = true) (list_ascii_of_string a) ->
  Forall (fun c => is_digit c || Ascii.eqb c "."%char = true) (list_ascii_of_string b) ->
  replace_char "."%char "_"%char a = replace_char "."%char "_"%char b -> a = b.
Proof.
  induction a as [|c a IH]; intros [|d b] Ha Hb H; cbn [replace_char] in H;
    [reflexivity|discriminate|discriminate|].
  cbn [list_ascii_of_string] in Ha, Hb.
  apply Forall_cons_iff in Ha. destruct Ha as (Hc & Ha).
  apply Forall_cons_iff in Hb. destruct Hb as (Hd & Hb).
  injection H as Hh Ht. f_equal; [|apply IH; assumption].
  destruct (Ascii.eqb c "."%char) eqn:Ec, (Ascii.eqb d "."%char) eqn:Ed.
  - apply Ascii.eqb_eq in Ec, Ed. congruence.
  - rewrite orb_false_r in Hd. apply digit_not_underscore in Hd.
    subst d. cbn in Hd. discriminate.
  - rewrite orb_false_r in Hc. apply digit_not_underscore in Hc.
    subst c. cbn in Hc. discriminate.
  - exact Hh.
Qed.

Lemma feature_filename_stem section_id :
  feature_filename section_id
  = ("feat_" ++
     (if numeric_id section_id
      then replace_char "."%char "_"%char section_id
      else lower (replace_char "-"%char "_"%char
                    (replace_char " "%char "_"%char section_id))) ++ ".md")%string.
Proof. unfold feature_filename, numeric_id. destruct (isdigit _); reflexivity. Qed.

Lemma numeric_stem_digits s :
  Forall (fun c => is_digit c || Ascii.eqb c "."%char = true) (list_ascii_of_string s) ->
  digits_and_underscores (replace_char "."%char "_"%char s) = true.
Proof.
  induction s as [|c s IH];
    cbn [list_ascii_of_string replace_char digits_and_underscores]; [reflexivity|].
  intros H. apply Forall_cons_iff in H. destruct H as (Hc & H).
  rewrite (IH H), andb_true_r.
  destruct (Ascii.eqb c "."%char) eqn:E; [reflexivity|].
  rewrite orb_false_r in Hc. rewrite Hc. reflexivity.
Qed.

Lemma save_feature_returns io plan_path section_id content metadata p path :
  fst (save_feature io plan_path section_id content metadata p) = Returns path ->
  save_error io = None /\ path = path_join plan_path (feature_filename section_id).
Proof.
  unfold save_feature. destruct (save_error io); cbn [fst]; [discriminate|].
  intros H. injection H as <-. split; reflexivity.
Qed.

(** X28.  File names of saved features.  When [save_feature] returns,
    the path is the plan directory, feat_, a stem and .md.  The stem
    holds no space, no hyphen and no upper-case letter; for a section
    number it is the number with every dot replaced by an underscore,
    so it holds digits and underscores only and the file lies directly
    in the plan directory.  Two saves under different section numbers
    never return the same path. *)
Theorem feature_file_names :
  forall io plan_path section_id content metadata p path,
    fst (save_feature io plan_path section_id content metadata p) = Returns path ->
    (exists stem,
        path = path_join plan_path ("feat_" ++ stem ++ ".md") /\
        all_plain stem = true /\
        (numeric_id section_id = true ->
         stem = replace_char "."%char "_"%char section_id /\
         digits_and_underscores stem = true)) /\
    forall io' other content' metadata' p' path',
      fst (save_feature io' plan_path other content' metadata' p') = Returns path' ->
      numeric_id section_id = true -> numeric_id other = true ->
      path = path' -> section_id = other.
Proof.
  intros io plan_path section_id content metadata p path Hret.
  apply save_feature_returns in Hret. destruct Hret as (_ & ->).
  split.
  - rewrite feature_filename_stem. eexists. split; [reflexivity|].
    destruct (numeric_id section_id) eqn:E.
    + unfold numeric_id, isdigit in E. apply andb_true_iff in E.
      destruct E as (_ & E). apply numeric_chars in E.
      split; [apply numeric_stem_plain, E|].
      intros _. split; [reflexivity|apply numeric_stem_digits, E].
    + split; [apply named_stem_plain|discriminate].
  - intros io' other content' metadata' p' path' Hret' Ha Hb Heq.
    apply save_feature_returns in Hret'. destruct Hret' as (_ & ->).
    unfold path_join in Heq. apply append_cancel_l in Heq.
    apply append_cancel_l in Heq.
    rewrite !feature_filename_stem, Ha, Hb in Heq.
    apply append_cancel_l, append_cancel_r in Heq.
    unfold numeric_id, isdigit in Ha, Hb.
    apply andb_true_iff in Ha, Hb.
    apply (numeric_stem_injective section_id other);
      [apply numeric_chars, Ha|apply numeric_chars, Hb|exact Heq].
Qed.

Lemma feature_file_names_witness :
  fst (save_feature (mkDisk None None) "/plan" "2.1" "# Overview" [] (mkPersistence [] []))
  = Returns "/plan/feat_2_1.md" /\
  exists stem,
    "/plan/feat_2_1.md" = path_join "/plan" ("feat_" ++ stem ++ ".md") /\
    all_plain stem = true /\
    (numeric_id "2.1" = true ->
     stem = replace_char "."%char "_"%char "2.1" /\
     digits_and_underscores stem = true).
Proof.
  split; [reflexivity|].
  exact (proj1 (feature_file_names (mkDisk None None) "/plan" "2.1" "# Overview" []
                  (mkPersistence [] []) "/plan/feat_2_1.md" eq_refl)).
Defined.

End FlowExtra.
